(** * PropertyIQ ML service: a shallow embedding and its verified properties

    The development follows the two source files of the repository:

    - [ml-service/api/main.py]: the serving layer (price prediction with its
      confidence band, synthetic comparable sales, investment scoring);
    - [ml-service/models/price_predictor.py]: the training module, of which
      only the fitted/not-fitted protocol of the two predictor classes is
      modelled (the numerical work is delegated to external libraries).

    Python numbers are modelled as they are at run time: [int] is an
    unbounded integer ([Z]), [float] is an IEEE-754 binary64 number, for which
    the executable specification [SpecFloat] of the standard library is used
    (53 bits of precision, round to nearest even).  Exceptions are values of
    an error monad.

    The definitions come first: the embedding of the code, the definitions
    of the rounding analysis, and the specification-side definitions.  The
    properties follow: the worked example, the recommendation rules, the
    tables, the appreciation score and the fitted protocol; then the facts
    about binary64 rounding, and with them the bounds on the scores, the
    confidence band and the comparables. *)

From Stdlib Require Import ZArith QArith Qpower Lia Lqa.
From Stdlib Require Import Bool String Ascii List.
From Stdlib Require Import Sorting.Sorted DecimalString DecimalPos DecimalZ.
From Stdlib Require Import Floats.SpecFloat.
From stdpp Require Import gmap strings.
Import ListNotations.

Local Open Scope Z_scope.

(** ** Python exceptions and the error monad *)

Inductive exn : Type :=
| ZeroDivisionError
| OverflowError
| ValueError (msg : string)
| TypeError
| KeyError (key : string)
| AttributeError
| LibraryError (code : nat).

Inductive result (A : Type) : Type :=
| Ok (a : A)
| Raise (e : exn).

Arguments Ok {A} a.
Arguments Raise {A} e.

#[global] Instance result_ret : MRet result := fun _ a => Ok a.
#[global] Instance result_bind : MBind result := fun _ _ f m =>
  match m with
  | Ok a => f a
  | Raise e => Raise e
  end.
#[global] Instance result_fmap : FMap result := fun _ _ f m =>
  match m with
  | Ok a => Ok (f a)
  | Raise e => Raise e
  end.

Definition returns {A} (m : result A) : bool :=
  match m with Ok _ => true | Raise _ => false end.

(** ** Binary64 floating point, as CPython's [float] *)

Module Binary64.

Definition prec : Z := 53.
Definition emax : Z := 1024.

Definition float : Type := spec_float.

Definition add : float -> float -> float := SFadd prec emax.
Definition sub : float -> float -> float := SFsub prec emax.
Definition mul : float -> float -> float := SFmul prec emax.
Definition div : float -> float -> float := SFdiv prec emax.
Definition opp : float -> float := SFopp.

Definition is_nan (x : float) : bool :=
  match x with S754_nan => true | _ => false end.

Definition is_zero (x : float) : bool :=
  match x with S754_zero _ => true | _ => false end.

Definition is_finite (x : float) : bool :=
  match x with S754_zero _ | S754_finite _ _ _ => true | _ => false end.

(** The exact value of a finite float, [(-1)^s * m * 2^e]. *)
Definition F2Q (x : float) : Q :=
  match x with
  | S754_finite s m e => inject_Z (cond_Zopp s (Zpos m)) * Qpower 2 e
  | _ => 0%Q
  end.

(** The nearest float to an integer (round half to even); an infinity
    when the integer is out of range. *)
Definition of_Z (z : Z) : float := binary_normalize prec emax z 0 false.

(** The correctly rounded quotient of two integers, [b <> 0]. *)
Definition quotient (a b : Z) : float :=
  let s := xorb (a <? 0) (b <? 0) in
  match a with
  | Z0 => S754_zero s
  | _ => div (S754_finite (a <? 0) (Z.to_pos (Z.abs a)) 0)
             (S754_finite (b <? 0) (Z.to_pos (Z.abs b)) 0)
  end.

(** A decimal literal [m * 10^-k], correctly rounded as by the parser:
    [decimal 15 1] is [1.5], [decimal 30 2] is [0.30]. *)
Definition decimal (m : Z) (k : nat) : float := quotient m (10 ^ Z.of_nat k).

(** Truncation toward zero, the integer part of a finite float. *)
Definition trunc (x : float) : Z :=
  match x with
  | S754_finite s m e => cond_Zopp s (Z.shiftl (Zpos m) e)
  | _ => 0
  end.

(** Rounding to the nearest integer, ties to even, of the exact rational
    [n * 2^e] for [n >= 0]. *)
Definition round_half_even (n e : Z) : Z :=
  if 0 <=? e then Z.shiftl n e
  else
    let d := 2 ^ (- e) in
    let q := n / d in
    let r := n mod d in
    match 2 * r ?= d with
    | Lt => q
    | Gt => q + 1
    | Eq => if Z.even q then q else q + 1
    end.

(** [round(x, 2)]: CPython rounds the exact value of [x] to two decimals,
    ties to even, and returns the float nearest to that decimal. *)
Definition round2 (x : float) : float :=
  match x with
  | S754_finite s m e =>
      let d := round_half_even (Zpos m * 100) e in
      if d =? 0 then S754_zero s else quotient (cond_Zopp s d) 100
  | _ => x
  end.

End Binary64.

(** ** Python numbers: [int] and [float], and their mixed arithmetic *)

Module Py.
Import Binary64.

Inductive num : Type :=
| PyInt (z : Z)
| PyFloat (f : float).

(** JSON values as they arrive in a [Dict[str, Any]]; lists and objects
    are kept opaque (they are neither numbers nor hashable). *)
Inductive value : Type :=
| VNone
| VBool (b : bool)
| VNum (n : num)
| VStr (s : string)
| VCompound.

(** Extended rationals: the order in which Python compares numbers.
    Comparisons between [int] and [float] are exact. *)
Inductive xreal : Type :=
| XNaN
| XNegInf
| XFin (q : Q)
| XPosInf.

Definition float_value (f : float) : xreal :=
  match f with
  | S754_nan => XNaN
  | S754_infinity s => if s then XNegInf else XPosInf
  | S754_zero _ => XFin 0
  | S754_finite _ _ _ => XFin (F2Q f)
  end.

Definition num_value (x : num) : xreal :=
  match x with
  | PyInt z => XFin (inject_Z z)
  | PyFloat f => float_value f
  end.

Definition Qltb (p q : Q) : bool :=
  match (p ?= q)%Q with Lt => true | _ => false end.

Definition xlt (a b : xreal) : bool :=
  match a, b with
  | XNaN, _ | _, XNaN => false
  | XNegInf, XNegInf => false
  | XNegInf, _ => true
  | _, XNegInf => false
  | XPosInf, _ => false
  | _, XPosInf => true
  | XFin p, XFin q => Qltb p q
  end.

Definition xle (a b : xreal) : bool :=
  match a, b with
  | XNaN, _ | _, XNaN => false
  | _, _ => negb (xlt b a)
  end.

Definition lt (x y : num) : bool := xlt (num_value x) (num_value y).
Definition gt (x y : num) : bool := lt y x.
Definition le (x y : num) : bool := xle (num_value x) (num_value y).
Definition ge (x y : num) : bool := le y x.

(** [min(a, b)] and [max(a, b)] keep the first argument unless the second
    is strictly smaller (resp. larger); the operand is returned with its
    own type. *)
Definition min (a b : num) : num := if lt b a then b else a.
Definition max (a b : num) : num := if gt b a then b else a.

(** [int -> float] conversion of mixed arithmetic. *)
Definition to_float (x : num) : result float :=
  match x with
  | PyFloat f => Ok f
  | PyInt z =>
      match of_Z z with
      | S754_infinity _ => Raise OverflowError
      | f => Ok f
      end
  end.

Definition float_op (op : float -> float -> float) (x y : num) : result num :=
  a ← to_float x; b ← to_float y; mret (PyFloat (op a b)).

Definition add (x y : num) : result num :=
  match x, y with
  | PyInt a, PyInt b => Ok (PyInt (a + b))
  | _, _ => float_op Binary64.add x y
  end.

Definition sub (x y : num) : result num :=
  match x, y with
  | PyInt a, PyInt b => Ok (PyInt (a - b))
  | _, _ => float_op Binary64.sub x y
  end.

Definition mul (x y : num) : result num :=
  match x, y with
  | PyInt a, PyInt b => Ok (PyInt (a * b))
  | _, _ => float_op Binary64.mul x y
  end.

(** True division [x / y]. *)
Definition truediv (x y : num) : result num :=
  match x, y with
  | PyInt a, PyInt b =>
      if b =? 0 then Raise ZeroDivisionError
      else match quotient a b with
           | S754_infinity _ => Raise OverflowError
           | q => Ok (PyFloat q)
           end
  | _, _ =>
      a ← to_float x; b ← to_float y;
      if is_zero b then Raise ZeroDivisionError
      else mret (PyFloat (div a b))
  end.

(** [int(x)]. *)
Definition int (x : num) : result Z :=
  match x with
  | PyInt z => Ok z
  | PyFloat S754_nan => Raise (ValueError "cannot convert float NaN to integer")
  | PyFloat (S754_infinity _) => Raise OverflowError
  | PyFloat f => Ok (trunc f)
  end.

(** Truth value testing. *)
Definition truthy (x : num) : bool :=
  match x with
  | PyInt z => negb (z =? 0)
  | PyFloat f => negb (is_zero f)
  end.

(** Operands taken from a dictionary of JSON values: booleans count as
    the integers 0 and 1, anything that is not a number makes the
    arithmetic it is used in raise [TypeError]. *)
Definition operand (v : value) : result num :=
  match v with
  | VNum n => Ok n
  | VBool b => Ok (PyInt (if b then 1 else 0))
  | _ => Raise TypeError
  end.

End Py.

(** ** The serving layer, [ml-service/api/main.py] *)

Module Service.
Import Py.
Abbreviation float := Binary64.float.
Abbreviation decimal := Binary64.decimal.

Local Open Scope string_scope.
Local Open Scope Z_scope.

(** *** Request and response models *)

Record PropertyFeatures : Type := {
  pf_property_id : string;
  pf_sqft : Z;
  pf_bedrooms : Z;
  pf_bathrooms : float;
  pf_year_built : option Z;
  pf_lot_size : option Z;
  pf_property_type : string;
  pf_latitude : float;
  pf_longitude : float;
  pf_zip_code : string
}.

Record PredictionResponse : Type := {
  pr_property_id : string;
  pr_predicted_price : Z;
  pr_confidence_interval : gmap string Z;
  pr_appreciation_forecast : float;
  pr_feature_importance : gmap string float;
  pr_model_version : string
}.

Record CompsRequest : Type := {
  cr_property_id : string;
  cr_latitude : float;
  cr_longitude : float;
  cr_sqft : Z;
  cr_bedrooms : Z;
  cr_bathrooms : float;
  cr_property_type : string;
  cr_limit : Z
}.

Record InvestmentScoreRequest : Type := {
  ir_property_id : string;
  ir_list_price : Z;
  ir_predicted_price : option Z;
  ir_sqft : Z;
  ir_appreciation_forecast : option float;
  ir_market_metrics : option (gmap string value)
}.

Record InvestmentScoreResponse : Type := {
  overall_score : num;
  appreciation_score : num;
  cash_flow_score : num;
  risk_adjusted_score : num;
  market_momentum_score : num;
  liquidity_score : num;
  risk_score : num;
  risk_level : string;
  recommendation : string;
  key_factors : list string
}.

(** A loaded model: its [predict] on a feature vector, first component. *)
Definition Model : Type := list num -> result float.

(** *** Helper functions *)

Definition estimate_price_per_sqft (zip_code property_type : string) : Z :=
  let base_prices : gmap string Z :=
    {[ "SINGLE_FAMILY" := 250; "CONDO" := 300;
       "TOWNHOUSE" := 275; "MULTI_FAMILY" := 200 ]} in
  default 250 (base_prices !! property_type).

Definition encode_property_type (property_type : string) : Z :=
  let encodings : gmap string Z :=
    {[ "SINGLE_FAMILY" := 1; "CONDO" := 2; "TOWNHOUSE" := 3;
       "MULTI_FAMILY" := 4; "LAND" := 5; "COMMERCIAL" := 6 ]} in
  default 1 (encodings !! property_type).

(** [x or d] on an optional integer: [None] and [0] are both falsy. *)
Definition or_default (x : option Z) (d : Z) : Z :=
  match x with
  | Some v => if v =? 0 then d else v
  | None => d
  end.

(** *** Price prediction endpoint

    [current_year] is [datetime.now().year]; [appreciation] is the draw of
    [np.random.uniform(3.0, 8.0)] made by [estimate_appreciation]. *)

Definition confidence_margin (predicted_price : Z) : result Z :=
  m ← mul (PyInt predicted_price) (PyFloat (decimal 10 2)); int m.

Definition confidence_interval (predicted_price : Z) : result (gmap string Z) :=
  margin ← confidence_margin predicted_price;
  mret ({[ "low" := predicted_price - margin;
           "high" := predicted_price + margin ]} : gmap string Z).

Definition fallback_price (features : PropertyFeatures) : Z :=
  pf_sqft features *
  estimate_price_per_sqft (pf_zip_code features) (pf_property_type features).

Definition feature_vector (current_year : Z) (features : PropertyFeatures)
  : list num :=
  let property_age := current_year - or_default (pf_year_built features) 1990 in
  [ PyInt (pf_sqft features);
    PyInt (pf_bedrooms features);
    PyFloat (pf_bathrooms features);
    PyInt property_age;
    PyInt (or_default (pf_lot_size features) (pf_sqft features * 2));
    PyInt (encode_property_type (pf_property_type features));
    PyFloat (pf_latitude features);
    PyFloat (pf_longitude features) ].

Definition predict_price (models : gmap string Model) (current_year : Z)
    (appreciation : float) (features : PropertyFeatures)
  : result PredictionResponse :=
  predicted_price ←
    match models !! "price_predictor" with
    | Some model =>
        p ← model (feature_vector current_year features); int (PyFloat p)
    | None => Ok (fallback_price features)
    end;
  interval ← confidence_interval predicted_price;
  let feature_importance : gmap string float :=
    {[ "sqft" := decimal 35 2; "location" := decimal 25 2;
       "bedrooms" := decimal 15 2; "bathrooms" := decimal 10 2;
       "property_age" := decimal 8 2; "lot_size" := decimal 7 2 ]} in
  mret {| pr_property_id := pf_property_id features;
          pr_predicted_price := predicted_price;
          pr_confidence_interval := interval;
          pr_appreciation_forecast := appreciation;
          pr_feature_importance := feature_importance;
          pr_model_version := "1.0.0" |}.

(** *** Comparable properties endpoint

    The random source is explicit: [Draws] holds the values drawn during
    one iteration of the loop, in the order in which the loop draws them.
    [now] is [datetime.now()] as a number of seconds; the ISO rendering of
    the sale date is left out. *)

Record Draws : Type := {
  d_variance : float;      (* np.random.uniform(-0.15, 0.15) *)
  d_days : Z;              (* np.random.randint(30, 180) *)
  d_sqft : float;          (* np.random.uniform(-0.1, 0.1) *)
  d_bedrooms : Z;          (* np.random.choice([-1, 0, 1]) *)
  d_distance : float;      (* np.random.uniform(0.1, 2.0) *)
  d_similarity : float     (* np.random.uniform(0.75, 0.95) *)
}.

Record Comp : Type := {
  address : string;
  city : string;
  state : string;
  sold_price : Z;
  sold_date : Z;
  sqft : Z;
  bedrooms : Z;
  bathrooms : float;
  distance : float;
  similarity : float
}.

Definition str (z : Z) : string := NilZero.string_of_int (Z.to_int z).

Definition synthetic_comp (now : Z) (request : CompsRequest) (i : Z) (d : Draws)
  : result Comp :=
  let variance := d_variance d in
  price_factor ← add (PyInt 1) (PyFloat variance);
  price ← mul (PyInt (cr_sqft request * 250)) price_factor;
  sold_price ← int price;
  sqft_factor ← add (PyInt 1) (PyFloat (d_sqft d));
  area ← mul (PyInt (cr_sqft request)) sqft_factor;
  sqft ← int area;
  mret {| address := str (100 + i * 10) ++ " Demo Street";
          city := "Sample City";
          state := "CA";
          sold_price := sold_price;
          sold_date := now - d_days d * 86400;
          sqft := sqft;
          bedrooms := cr_bedrooms request + d_bedrooms d;
          bathrooms := cr_bathrooms request;
          distance := Binary64.round2 (d_distance d);
          similarity := Binary64.round2 (d_similarity d) |}.

(** [sorted(comps, key=lambda x: x["similarity"], reverse=True)]: the
    stable sort by decreasing key, which only uses [<] on the keys. *)
Fixpoint insert_by_similarity (c : Comp) (l : list Comp) : list Comp :=
  match l with
  | [] => [c]
  | y :: l' =>
      if lt (PyFloat (similarity c)) (PyFloat (similarity y))
      then y :: insert_by_similarity c l'
      else c :: l
  end.

Definition sorted_by_similarity (comps : list Comp) : list Comp :=
  fold_right insert_by_similarity [] comps.

Fixpoint for_range {A} (body : nat -> result A) (start count : nat)
  : result (list A) :=
  match count with
  | O => Ok []
  | S n => x ← body start; xs ← for_range body (S start) n; mret (x :: xs)
  end.

Definition generate_synthetic_comps (now : Z) (rng : nat -> Draws)
    (request : CompsRequest) : result (list Comp) :=
  comps ← for_range
            (fun i => synthetic_comp now request (Z.of_nat i) (rng i))
            0 (Z.to_nat (cr_limit request));
  mret (sorted_by_similarity comps).

(** *** Investment scoring *)

Definition calculate_appreciation_score (list_price : Z)
    (predicted_price : option Z) (appreciation_forecast : option float)
  : result num :=
  let score := PyInt 50 in
  score ←
    match predicted_price with
    | Some predicted =>
        if truthy (PyInt predicted) && truthy (PyInt list_price) then
          ratio ← truediv (PyInt (predicted - list_price)) (PyInt list_price);
          upside ← mul ratio (PyInt 100);
          gain ← mul upside (PyInt 5);
          raw ← add (PyInt 50) gain;
          mret (min (PyInt 100) (max (PyInt 0) raw))
        else Ok score
    | None => Ok score
    end;
  match appreciation_forecast with
  | Some forecast =>
      if truthy (PyFloat forecast) then
        boost ← mul (PyFloat forecast) (PyInt 5);
        total ← add score boost;
        half ← truediv total (PyInt 2);
        blended ← int half;
        mret (min (PyInt 100) (PyInt blended))
      else Ok score
  | None => Ok score
  end.

Definition calculate_cash_flow_score (list_price sqft : Z)
    (market_metrics : option (gmap string value)) : result num :=
  estimated_rent ← mul (PyInt sqft) (PyFloat (decimal 15 1));
  annual_rent ← mul estimated_rent (PyInt 12);
  ratio ← truediv annual_rent (PyInt list_price);
  gross_yield ← mul ratio (PyInt 100);
  scaled ← mul gross_yield (PyInt 10);
  points ← int scaled;
  mret (min (PyInt 100) (PyInt points)).

(** [not market_metrics]: [None] and the empty dictionary are falsy. *)
Definition no_metrics (market_metrics : option (gmap string value)) : bool :=
  match market_metrics with
  | None => true
  | Some m => bool_decide (m = ∅)
  end.

Definition get (market_metrics : option (gmap string value)) (key : string)
    (dflt : value) : value :=
  match market_metrics with
  | Some m => default dflt (m !! key)
  | None => dflt
  end.

Definition calculate_market_momentum_score
    (market_metrics : option (gmap string value)) : result num :=
  if no_metrics market_metrics then Ok (PyInt 50)
  else
    appreciation ← operand (get market_metrics "appreciation_1y" (VNum (PyInt 0)));
    gain ← mul appreciation (PyInt 3);
    raw ← add (PyInt 50) gain;
    mret (min (PyInt 100) (max (PyInt 0) raw)).

Definition calculate_liquidity_score
    (market_metrics : option (gmap string value)) : result num :=
  if no_metrics market_metrics then Ok (PyInt 50)
  else
    days_on_market ← operand (get market_metrics "days_on_market_avg" (VNum (PyInt 60)));
    raw ← sub (PyInt 100) days_on_market;
    mret (max (PyInt 0) raw).

Definition calculate_risk_score
    (market_metrics : option (gmap string value)) : result num :=
  if no_metrics market_metrics then Ok (PyInt 50)
  else
    let scores : gmap string Z :=
      {[ "HOT" := 30; "WARM" := 40; "NEUTRAL" := 50;
         "COOL" := 60; "COLD" := 70 ]} in
    match get market_metrics "market_temperature" (VStr "NEUTRAL") with
    | VStr temperature => Ok (PyInt (default 50 (scores !! temperature)))
    | VCompound => Raise TypeError
    | _ => Ok (PyInt 50)
    end.

Definition get_risk_level (risk_score : num) : string :=
  if le risk_score (PyInt 30) then "Low"
  else if le risk_score (PyInt 50) then "Medium-Low"
  else if le risk_score (PyInt 70) then "Medium"
  else if le risk_score (PyInt 85) then "Medium-High"
  else "High".

Definition generate_recommendation (overall appreciation cash_flow risk : num)
  : string :=
  if ge overall (PyInt 80) then
    "Strong Buy - Excellent investment opportunity."
  else if ge overall (PyInt 65) then
    "Buy - Good investment potential."
  else if ge overall (PyInt 50) then
    if gt appreciation (PyInt 70) then
      "Consider - Strong appreciation potential for growth investors."
    else if gt cash_flow (PyInt 70) then
      "Consider - Strong cash flow for income investors."
    else "Hold - Average investment opportunity."
  else if gt risk (PyInt 70) then
    "Avoid - High risk with below-average returns."
  else "Pass - Look for better alternatives.".

Definition factor (score : num) (strong weak : string) : list string :=
  if ge score (PyInt 70) then [strong]
  else if le score (PyInt 30) then [weak]
  else [].

Definition get_key_factors (appreciation cash_flow momentum liquidity : num)
  : list string :=
  let factors :=
    (factor appreciation "Strong appreciation potential"
                         "Limited appreciation upside" ++
     factor cash_flow "Excellent cash flow opportunity" "Weak rental yield" ++
     factor momentum "Strong market momentum" "Declining market trend" ++
     factor liquidity "High market liquidity"
                      "Low market liquidity - longer hold times expected")%list in
  match factors with
  | [] => ["Average market conditions"]
  | _ => factors
  end.

(** *** Investment score endpoint *)

Definition calculate_investment_score (request : InvestmentScoreRequest)
  : result InvestmentScoreResponse :=
  appreciation_score ←
    calculate_appreciation_score (ir_list_price request)
      (ir_predicted_price request) (ir_appreciation_forecast request);
  cash_flow_score ←
    calculate_cash_flow_score (ir_list_price request) (ir_sqft request)
      (ir_market_metrics request);
  market_momentum_score ←
    calculate_market_momentum_score (ir_market_metrics request);
  liquidity_score ← calculate_liquidity_score (ir_market_metrics request);
  risk_score ← calculate_risk_score (ir_market_metrics request);
  (* Risk-adjusted score *)
  total ← add appreciation_score cash_flow_score;
  mean ← truediv total (PyInt 2);
  risk_share ← truediv risk_score (PyInt 200);
  discount ← sub (PyInt 1) risk_share;
  adjusted ← mul mean discount;
  risk_adjusted_score ← int adjusted;
  (* Weighted overall score *)
  w1 ← mul appreciation_score (PyFloat (decimal 30 2));
  w2 ← mul cash_flow_score (PyFloat (decimal 25 2));
  s2 ← add w1 w2;
  w3 ← mul (PyInt risk_adjusted_score) (PyFloat (decimal 20 2));
  s3 ← add s2 w3;
  w4 ← mul market_momentum_score (PyFloat (decimal 15 2));
  s4 ← add s3 w4;
  w5 ← mul liquidity_score (PyFloat (decimal 10 2));
  s5 ← add s4 w5;
  overall_score ← int s5;
  mret {| overall_score := PyInt overall_score;
          appreciation_score := appreciation_score;
          cash_flow_score := cash_flow_score;
          risk_adjusted_score := PyInt risk_adjusted_score;
          market_momentum_score := market_momentum_score;
          liquidity_score := liquidity_score;
          risk_score := risk_score;
          risk_level := get_risk_level risk_score;
          recommendation :=
            generate_recommendation (PyInt overall_score) appreciation_score
              cash_flow_score risk_score;
          key_factors :=
            get_key_factors appreciation_score cash_flow_score
              market_momentum_score liquidity_score |}.

(** *** Comparables endpoint *)

Record ComparablesResponse : Type := {
  cp_property_id : string;
  cp_comparables : list Comp;
  cp_methodology : string
}.

Definition find_comparables (now : Z) (rng : nat -> Draws)
    (request : CompsRequest) : result ComparablesResponse :=
  comparables ← generate_synthetic_comps now rng request;
  mret {| cp_property_id := cr_property_id request;
          cp_comparables := comparables;
          cp_methodology := "Distance-weighted similarity scoring" |}.

(** *** Model loading and the health check

    [models] is a module-level dictionary: a Python [dict] keeps its keys in
    insertion order, and an assignment to a key that is present replaces the
    value in place.  The disk maps a path that exists to the outcome of
    [joblib.load] on it; a loaded object is used through its [predict]
    only. *)

Definition Models : Type := list (string * Model).

Fixpoint setitem (key : string) (value : Model) (d : Models) : Models :=
  match d with
  | [] => [(key, value)]
  | (k, v) :: d' =>
      if String.eqb k key then (k, value) :: d'
      else (k, v) :: setitem key value d'
  end.

Definition keys (d : Models) : list string := map fst d.

Definition Disk : Type := gmap string (result Model).

Definition path_exists (disk : Disk) (path : string) : bool :=
  bool_decide (is_Some (disk !! path)).

Definition joblib_load (disk : Disk) (path : string) : result Model :=
  match disk !! path with
  | Some outcome => outcome
  | None => Raise (LibraryError 2)
  end.

(** [os.path.join] of a directory and a relative name. *)
Definition path_join (dir name : string) : string := dir ++ "/" ++ name.

(** The body of the [try] statement: the dictionary as it is when the
    body ends, and the exception that ended it, if any. *)
Definition load_models_body (model_dir : string) (disk : Disk)
    (models : Models) : Models * result unit :=
  let price_path := path_join model_dir "price_predictor.joblib" in
  let appreciation_path := path_join model_dir "appreciation_model.joblib" in
  let first :=
    if path_exists disk price_path then
      m ← joblib_load disk price_path;
      mret (setitem "price_predictor" m models)
    else Ok models in
  match first with
  | Raise e => (models, Raise e)
  | Ok models1 =>
      let second :=
        if path_exists disk appreciation_path then
          m ← joblib_load disk appreciation_path;
          mret (setitem "appreciation_model" m models1)
        else Ok models1 in
      match second with
      | Raise e => (models1, Raise e)
      | Ok models2 => (models2, Ok tt)
      end
  end.

(** [load_models]: the [except Exception] clause prints the exception and
    goes on.  The result is the dictionary and what was printed. *)
Definition load_models (model_dir : string) (disk : Disk) (models : Models)
  : Models * option exn :=
  match load_models_body model_dir disk models with
  | (models', Ok _) => (models', None)
  | (models', Raise e) => (models', Some e)
  end.

Record Health : Type := {
  h_status : string;
  h_models_loaded : list string;
  h_timestamp : Z
}.

(** [utcnow] is [datetime.utcnow()], as a number of seconds. *)
Definition health_check (models : Models) (utcnow : Z) : Health :=
  {| h_status := "healthy";
     h_models_loaded := keys models;
     h_timestamp := utcnow |}.

(** The dictionary as [predict_price] reads it: [key in models] and
    [models[key]]. *)
Definition lookups (models : Models) : gmap string Model := list_to_map models.

End Service.

(** ** The training module, [ml-service/models/price_predictor.py]

    The data frames, the preprocessing pipeline and the boosted regressors
    belong to external libraries: they are parameters of the model.  A
    library call either returns or fails with a library error code, which is
    kept apart from the exceptions the module raises itself.  Methods that
    assign attributes of [self] are computations in a state monad over the
    object. *)

Module Training.

Definition lib (A : Type) : Type := nat + A.

Definition call {A} (r : lib A) : result A :=
  match r with
  | inl code => Raise (LibraryError code)
  | inr a => Ok a
  end.

(** Methods: the object after the call, and the outcome of the call. *)
Definition method (S A : Type) : Type := S -> S * result A.

#[global] Instance method_ret {S} : MRet (method S) := fun _ a s => (s, Ok a).
#[global] Instance method_bind {S} : MBind (method S) := fun _ _ f m s =>
  match m s with
  | (s', Ok a) => f a s'
  | (s', Raise e) => (s', Raise e)
  end.

Definition lift {S A} (r : result A) : method S A := fun s => (s, r).
Definition assign {S} (update : S -> S) : method S unit :=
  fun s => (update s, Ok tt).
Definition read {S A} (field : S -> A) : method S A := fun s => (s, Ok (field s)).

(** Attribute access on an attribute that is still [None]. *)
Definition attr {A} (o : option A) : result A :=
  match o with
  | Some a => Ok a
  | None => Raise AttributeError
  end.

Definition not_fitted_predict : exn :=
  ValueError "Model must be fitted before prediction".
Definition not_fitted : exn := ValueError "Model must be fitted first".

(** The outcome is one of the two not-fitted errors. *)
Definition raises_not_fitted {A} (r : result A) : bool :=
  match r with
  | Raise (ValueError msg) =>
      String.eqb msg "Model must be fitted before prediction" ||
      String.eqb msg "Model must be fitted first"
  | _ => false
  end.

Section Predictors.
Abbreviation float := Binary64.float.

Variables DataFrame Series Matrix Preprocessor Regressor Scaler Metrics
  Table : Type.

(** pandas, scikit-learn, XGBoost and LightGBM *)
Variable engineer_features : DataFrame -> lib DataFrame.
Variable train_test_split :
  DataFrame -> Series -> lib (DataFrame * DataFrame * Series * Series).
Variable split_matrix :
  Matrix -> Series -> lib (Matrix * Matrix * Series * Series).
Variable create_preprocessor : Preprocessor.
Variable fit_transform : Preprocessor -> DataFrame -> lib (Preprocessor * Matrix).
Variable transform : Preprocessor -> DataFrame -> lib Matrix.
Variable feature_names_out : Preprocessor -> lib (list string).
Variable new_xgb new_lgb new_appreciation_lgb : Regressor.
Variable xgb_fit lgb_fit :
  Regressor -> Matrix -> Series -> Matrix -> Series -> lib Regressor.
Variable lgb_fit_plain : Regressor -> Matrix -> Series -> lib Regressor.
Variable regressor_predict : Regressor -> Matrix -> lib (list float).
Variable feature_importances : Regressor -> lib (list float).
Variable evaluate : Series -> list float -> lib Metrics.
Variable importance_table :
  list string -> list float -> list float -> list float -> lib Table.
Variable new_scaler : Scaler.
Variable scaler_fit_transform : Scaler -> DataFrame -> lib (Scaler * Matrix).
Variable scaler_transform : Scaler -> DataFrame -> lib Matrix.

Definition numeric_features : list string :=
  ["sqft"; "bedrooms"; "bathrooms"; "lot_size"; "year_built"; "stories";
   "garage"; "property_age"; "latitude"; "longitude"]%string.

(** Element-wise array arithmetic of the ensemble. *)
Definition zip_with (f : float -> float -> float) (a b : list float)
  : list float :=
  map (fun p => f (fst p) (snd p)) (combine a b).

Definition maximum (a b : float) : float :=
  if Binary64.is_nan a then a
  else if Binary64.is_nan b then b
  else if Py.lt (Py.PyFloat a) (Py.PyFloat b) then b else a.

Definition average (a b : list float) : list float :=
  zip_with (fun x y => Binary64.div (Binary64.add x y) (Binary64.of_Z 2)) a b.

(** *** PropertyPricePredictor *)

Record PropertyPricePredictor : Type := {
  xgb_model : option Regressor;
  lgb_model : option Regressor;
  preprocessor : option Preprocessor;
  feature_names : option (list string);
  is_fitted : bool
}.

Definition init : PropertyPricePredictor :=
  {| xgb_model := None; lgb_model := None; preprocessor := None;
     feature_names := None; is_fitted := false |}.

Definition set_preprocessor v (self : PropertyPricePredictor) :=
  {| xgb_model := xgb_model self; lgb_model := lgb_model self;
     preprocessor := v; feature_names := feature_names self;
     is_fitted := is_fitted self |}.
Definition set_feature_names v (self : PropertyPricePredictor) :=
  {| xgb_model := xgb_model self; lgb_model := lgb_model self;
     preprocessor := preprocessor self; feature_names := v;
     is_fitted := is_fitted self |}.
Definition set_xgb_model v (self : PropertyPricePredictor) :=
  {| xgb_model := v; lgb_model := lgb_model self;
     preprocessor := preprocessor self; feature_names := feature_names self;
     is_fitted := is_fitted self |}.
Definition set_lgb_model v (self : PropertyPricePredictor) :=
  {| xgb_model := xgb_model self; lgb_model := v;
     preprocessor := preprocessor self; feature_names := feature_names self;
     is_fitted := is_fitted self |}.
Definition set_is_fitted v (self : PropertyPricePredictor) :=
  {| xgb_model := xgb_model self; lgb_model := lgb_model self;
     preprocessor := preprocessor self; feature_names := feature_names self;
     is_fitted := v |}.

Definition fit (X : DataFrame) (y : Series)
  : method PropertyPricePredictor Metrics :=
  X ← lift (call (engineer_features X));
  '(X_train, X_test, y_train, y_test) ← lift (call (train_test_split X y));
  _ ← assign (set_preprocessor (Some create_preprocessor));
  '(fitted, X_train_processed) ←
    lift (call (fit_transform create_preprocessor X_train));
  _ ← assign (set_preprocessor (Some fitted));
  X_test_processed ← lift (call (transform fitted X_test));
  names ← lift (call (feature_names_out fitted));
  _ ← assign (set_feature_names (Some (numeric_features ++ names)%list));
  _ ← assign (set_xgb_model (Some new_xgb));
  xgb ← lift (call (xgb_fit new_xgb X_train_processed y_train
                            X_test_processed y_test));
  _ ← assign (set_xgb_model (Some xgb));
  _ ← assign (set_lgb_model (Some new_lgb));
  lgb ← lift (call (lgb_fit new_lgb X_train_processed y_train
                            X_test_processed y_test));
  _ ← assign (set_lgb_model (Some lgb));
  xgb_pred ← lift (call (regressor_predict xgb X_test_processed));
  lgb_pred ← lift (call (regressor_predict lgb X_test_processed));
  let ensemble_pred := average xgb_pred lgb_pred in
  metrics ← lift (call (evaluate y_test ensemble_pred));
  _ ← assign (set_is_fitted true);
  mret metrics.

Definition predict (self : PropertyPricePredictor) (X : DataFrame)
    (return_confidence : bool)
  : result (list float * option (list float) * option (list float)) :=
  if negb (is_fitted self) then Raise not_fitted_predict
  else
    X ← call (engineer_features X);
    pre ← attr (preprocessor self);
    X_processed ← call (transform pre X);
    xgb ← attr (xgb_model self);
    xgb_pred ← call (regressor_predict xgb X_processed);
    lgb ← attr (lgb_model self);
    lgb_pred ← call (regressor_predict lgb X_processed);
    let predictions := average xgb_pred lgb_pred in
    if return_confidence then
      let disagreement :=
        zip_with (fun x l => SFabs (Binary64.sub x l)) xgb_pred lgb_pred in
      let uncertainty :=
        zip_with (fun d p =>
                    maximum d (Binary64.mul p (Binary64.decimal 5 2)))
                 disagreement predictions in
      let margin :=
        map (fun u => Binary64.mul u (Binary64.decimal 15 1)) uncertainty in
      mret (predictions,
            Some (zip_with Binary64.sub predictions margin),
            Some (zip_with Binary64.add predictions margin))
    else mret (predictions, None, None).

Definition get_feature_importance (self : PropertyPricePredictor)
  : result Table :=
  if negb (is_fitted self) then Raise not_fitted
  else
    xgb ← attr (xgb_model self);
    xgb_importance ← call (feature_importances xgb);
    lgb ← attr (lgb_model self);
    lgb_importance ← call (feature_importances lgb);
    let avg_importance := average xgb_importance lgb_importance in
    names ← attr (feature_names self);
    call (importance_table names xgb_importance lgb_importance
            avg_importance).

(** [save] and [load]: the artifact is the dictionary that [joblib]
    writes; the file system maps a path to the artifact stored there. *)
Record PriceArtifact : Type := {
  a_xgb_model : option Regressor;
  a_lgb_model : option Regressor;
  a_preprocessor : option Preprocessor;
  a_feature_names : option (list string)
}.

Record AppreciationArtifact : Type := {
  a_model : option Regressor;
  a_scaler : Scaler
}.

Inductive Artifact : Type :=
| PriceFile (a : PriceArtifact)
| AppreciationFile (a : AppreciationArtifact).

Definition FileSystem : Type := gmap string Artifact.

Definition joblib_load (fs : FileSystem) (path : string) : result Artifact :=
  match fs !! path with
  | Some a => Ok a
  | None => Raise (LibraryError 2)
  end.

Definition save (self : PropertyPricePredictor) (path : string)
    (fs : FileSystem) : FileSystem :=
  <[ path := PriceFile {| a_xgb_model := xgb_model self;
                          a_lgb_model := lgb_model self;
                          a_preprocessor := preprocessor self;
                          a_feature_names := feature_names self |} ]> fs.

Definition load (fs : FileSystem) (path : string)
  : result PropertyPricePredictor :=
  data ← joblib_load fs path;
  match data with
  | PriceFile a =>
      Ok {| xgb_model := a_xgb_model a; lgb_model := a_lgb_model a;
            preprocessor := a_preprocessor a;
            feature_names := a_feature_names a; is_fitted := true |}
  | AppreciationFile _ => Raise (KeyError "xgb_model")
  end.

(** *** AppreciationPredictor *)

Record AppreciationPredictor : Type := {
  model : option Regressor;
  scaler : Scaler;
  ap_is_fitted : bool
}.

Definition ap_init : AppreciationPredictor :=
  {| model := None; scaler := new_scaler; ap_is_fitted := false |}.

Definition ap_fit (market_data : DataFrame) (appreciation : Series)
  : method AppreciationPredictor Metrics :=
  sc ← read scaler;
  '(fitted, X_scaled) ← lift (call (scaler_fit_transform sc market_data));
  _ ← assign (fun self => {| model := model self; scaler := fitted;
                             ap_is_fitted := ap_is_fitted self |});
  '(X_train, X_test, y_train, y_test) ←
    lift (call (split_matrix X_scaled appreciation));
  _ ← assign (fun self => {| model := Some new_appreciation_lgb;
                             scaler := scaler self;
                             ap_is_fitted := ap_is_fitted self |});
  m ← lift (call (lgb_fit_plain new_appreciation_lgb X_train y_train));
  _ ← assign (fun self => {| model := Some m; scaler := scaler self;
                             ap_is_fitted := ap_is_fitted self |});
  predictions ← lift (call (regressor_predict m X_test));
  metrics ← lift (call (evaluate y_test predictions));
  _ ← assign (fun self => {| model := model self; scaler := scaler self;
                             ap_is_fitted := true |});
  mret metrics.

Definition ap_predict (self : AppreciationPredictor) (market_data : DataFrame)
  : result (list float) :=
  if negb (ap_is_fitted self) then Raise not_fitted
  else
    X_scaled ← call (scaler_transform (scaler self) market_data);
    m ← attr (model self);
    call (regressor_predict m X_scaled).

Definition ap_save (self : AppreciationPredictor) (path : string)
    (fs : FileSystem) : FileSystem :=
  <[ path := AppreciationFile {| a_model := model self;
                                 a_scaler := scaler self |} ]> fs.

Definition ap_load (fs : FileSystem) (path : string)
  : result AppreciationPredictor :=
  data ← joblib_load fs path;
  match data with
  | AppreciationFile a =>
      Ok {| model := a_model a; scaler := a_scaler a; ap_is_fitted := true |}
  | PriceFile _ => Raise (KeyError "model")
  end.

End Predictors.

Arguments fit {DataFrame Series Matrix Preprocessor Regressor Metrics}.
Arguments predict {DataFrame Matrix Preprocessor Regressor}.
Arguments get_feature_importance {Preprocessor Regressor Table}.
Arguments init {Preprocessor Regressor}.
Arguments is_fitted {Preprocessor Regressor}.
Arguments xgb_model {Preprocessor Regressor}.
Arguments lgb_model {Preprocessor Regressor}.
Arguments preprocessor {Preprocessor Regressor}.
Arguments feature_names {Preprocessor Regressor}.
Arguments save {Preprocessor Regressor Scaler}.
Arguments load {Preprocessor Regressor Scaler}.
Arguments ap_fit {DataFrame Series Matrix Regressor Scaler Metrics}.
Arguments ap_predict {DataFrame Matrix Regressor Scaler}.
Arguments ap_init {Regressor Scaler}.
Arguments ap_is_fitted {Regressor Scaler}.
Arguments model {Regressor Scaler}.
Arguments scaler {Regressor Scaler}.
Arguments ap_save {Preprocessor Regressor Scaler}.
Arguments ap_load {Preprocessor Regressor Scaler}.
End Training.

(** * Rounding: definitions for the error analysis of binary64 arithmetic

    The bounds on the scores, on the confidence band and on the comparable
    areas need facts about the results of [SpecFloat]'s operations.  The
    definitions used to state them are collected here; the facts themselves
    are proved with the properties. *)

Module Rounding.
Import Py.
Local Open Scope Z_scope.

Abbreviation prec := 53 (only parsing).
Abbreviation emax := 1024 (only parsing).
Abbreviation fexp := (SpecFloat.fexp 53 1024).

(** Bits have been shifted out of the mantissa. *)
Definition inexact (mrs : shr_record) : bool := shr_r mrs || shr_s mrs.

Definition is_exact (l : location) : bool :=
  match l with loc_Exact => true | _ => false end.

(** The order of the dyadic numbers [m1 * 2^e1] and [m2 * 2^e2], stated on
    integers. *)
Definition dle (m1 e1 m2 e2 : Z) : Prop :=
  m1 * 2 ^ (e1 - Z.min e1 e2) <= m2 * 2 ^ (e2 - Z.min e1 e2).

Definition dlt (m1 e1 m2 e2 : Z) : Prop :=
  m1 * 2 ^ (e1 - Z.min e1 e2) < m2 * 2 ^ (e2 - Z.min e1 e2).

(** The float made of a rounded mantissa and its exponent. *)
Definition round_result (s : bool) (m2 e2 : Z) : spec_float :=
  match m2 with
  | Z0 => S754_zero s
  | Zpos p => if e2 <=? emax - prec then S754_finite s p e2 else S754_infinity s
  | Zneg _ => S754_nan
  end.

(** The rational number [m * 2^e]. *)
Definition dyadic (m e : Z) : Q := (inject_Z m * Qpower 2 e)%Q.

(** [B] is the value of a finite binary64 number, not necessarily in
    canonical form. *)
Definition representable (B : Q) : Prop :=
  exists c eB, (0 <= c < 2 ^ 53)%Z /\ (-1074 <= eB <= 971)%Z /\
               (B == dyadic c eB)%Q.

(** A well-formed finite float whose value lies between [lo] and [hi]. *)
Definition bounded_float (lo hi : Q) (x : Binary64.float) : Prop :=
  valid_binary prec emax x = true /\ Binary64.is_finite x = true /\
  (lo <= Binary64.F2Q x <= hi)%Q.

Definition valid (x : Binary64.float) : Prop := valid_binary prec emax x = true.

Definition nonneg (x : Binary64.float) : Prop :=
  match x with
  | S754_zero _ | S754_finite false _ _ | S754_infinity false => True
  | _ => False
  end.

Definition sign_factor (s : bool) : Q := if s then (-1)%Q else 1%Q.

(** Zeros, NaN, positive numbers and the positive infinity: what
    multiplying, adding and dividing such numbers gives again. *)
Definition not_negative (x : Binary64.float) : Prop :=
  match x with
  | S754_zero _ | S754_nan | S754_finite false _ _ | S754_infinity false => True
  | _ => False
  end.

(** A Python number between two rationals; a float is then finite. *)
Definition within (lo hi : Q) (x : num) : Prop :=
  match x with
  | PyInt z => (lo <= inject_Z z <= hi)%Q
  | PyFloat f => bounded_float lo hi f
  end.

Definition check_bounded (lo hi : Q) (f : Binary64.float) : bool :=
  valid_binary prec emax f && Binary64.is_finite f &&
  Qle_bool lo (Binary64.F2Q f) && Qle_bool (Binary64.F2Q f) hi.

Definition NN (x : num) : Prop :=
  match x with
  | PyInt z => 0 <= z
  | PyFloat f => valid f /\ not_negative f
  end.

(** The floats of a request are binary64 numbers: mantissa and exponent
    are in canonical form. *)
Definition valid_num (n : num) : bool :=
  match n with
  | PyFloat f => valid_binary prec emax f
  | PyInt _ => true
  end.

Definition valid_value (v : value) : bool :=
  match v with VNum n => valid_num n | _ => true end.

(** The keys of a sort are ordered when none is NaN. *)
Definition ordered (x : xreal) : Prop :=
  match x with XNaN => False | _ => True end.

End Rounding.

(** * Specification-side definitions

    The statements below are phrased with these; each follows the wording of
    the specification and is compared with the embedding of the code. *)

Module Spec.
Import Py Service Rounding.
Local Open Scope string_scope.
Local Open Scope Z_scope.

(** A score "lies in [0, 100]", with Python's own comparisons. *)
Definition in_range (x : num) : bool := le (PyInt 0) x && le x (PyInt 100).

Definition all_in_range (r : InvestmentScoreResponse) : bool :=
  in_range (appreciation_score r) && in_range (cash_flow_score r) &&
  in_range (market_momentum_score r) && in_range (liquidity_score r) &&
  in_range (risk_adjusted_score r) && in_range (risk_score r) &&
  in_range (overall_score r).

(** The base price table and the type encoding, as listed. *)
Definition price_table (property_type : string) : Z :=
  if String.eqb property_type "SINGLE_FAMILY" then 250
  else if String.eqb property_type "CONDO" then 300
  else if String.eqb property_type "TOWNHOUSE" then 275
  else if String.eqb property_type "MULTI_FAMILY" then 200
  else 250.

Definition encoding_table (property_type : string) : Z :=
  if String.eqb property_type "SINGLE_FAMILY" then 1
  else if String.eqb property_type "CONDO" then 2
  else if String.eqb property_type "TOWNHOUSE" then 3
  else if String.eqb property_type "MULTI_FAMILY" then 4
  else if String.eqb property_type "LAND" then 5
  else if String.eqb property_type "COMMERCIAL" then 6
  else 1.

(** [p * 0.90] and [p * 1.10] "under integer truncation":
    [int(p * k/100)]. *)
Definition truncated_share (p k : Z) : result Z :=
  m ← mul (PyInt p) (PyFloat (decimal k 2)); int m.

(** The band as the claim words it. *)
Definition band_as_claimed (p : Z) (interval : gmap string Z) : Prop :=
  exists low high,
    interval !! "low" = Some low /\ interval !! "high" = Some high /\
    truncated_share p 90 = Ok low /\ truncated_share p 110 = Ok high /\
    p - low = high - p.

(** The recommendation as a priority list: the first rule whose guard
    holds gives the text. *)
Definition rule : Type := (num -> num -> num -> num -> bool) * string.

Definition recommendation_rules : list rule :=
  [ (fun overall _ _ _ => ge overall (PyInt 80),
     "Strong Buy - Excellent investment opportunity.");
    (fun overall _ _ _ => ge overall (PyInt 65),
     "Buy - Good investment potential.");
    (fun overall appreciation _ _ =>
       ge overall (PyInt 50) && gt appreciation (PyInt 70),
     "Consider - Strong appreciation potential for growth investors.");
    (fun overall _ cash_flow _ =>
       ge overall (PyInt 50) && gt cash_flow (PyInt 70),
     "Consider - Strong cash flow for income investors.");
    (fun overall _ _ _ => ge overall (PyInt 50),
     "Hold - Average investment opportunity.");
    (fun _ _ _ risk => gt risk (PyInt 70),
     "Avoid - High risk with below-average returns.") ].

Fixpoint first_match (rules : list rule) (otherwise : string)
    (overall appreciation cash_flow risk : num) : string :=
  match rules with
  | [] => otherwise
  | (guard, text) :: rest =>
      if guard overall appreciation cash_flow risk then text
      else first_match rest otherwise overall appreciation cash_flow risk
  end.

(** The appreciation score as the specification describes it: a clamped
    upside when a model price is present, then a blend with the forecast
    that is only clamped from above. *)
Definition upside_score (list_price model_price : Z) : result num :=
  ratio ← truediv (PyInt (model_price - list_price)) (PyInt list_price);
  upside ← mul ratio (PyInt 100);
  gain ← mul upside (PyInt 5);
  raw ← add (PyInt 50) gain;
  mret (min (PyInt 100) (max (PyInt 0) raw)).

Definition blend (score : num) (forecast : float) : result num :=
  boost ← mul (PyFloat forecast) (PyInt 5);
  total ← add score boost;
  half ← truediv total (PyInt 2);
  blended ← int half;
  mret (PyInt (Z.min 100 blended)).

(** [present x] is the test the code uses for an optional input: given and
    not zero. *)
Definition present_price (p : option Z) : option Z :=
  match p with
  | Some v => if v =? 0 then None else Some v
  | None => None
  end.

Definition present_forecast (f : option float) : option float :=
  match f with
  | Some v => if Binary64.is_zero v then None else Some v
  | None => None
  end.

(** The comparables are ordered by similarity, largest first. *)
Definition similarity_ge (a b : Comp) : Prop :=
  ge (PyFloat (similarity a)) (PyFloat (similarity b)) = true.

Definition sorted_descending (comps : list Comp) : Prop :=
  StronglySorted similarity_ge comps.

(** The contract of the random source, per draw. *)
Definition between (lo hi : float) (x : float) : bool :=
  le (PyFloat lo) (PyFloat x) && le (PyFloat x) (PyFloat hi).

Definition draws_in_range (d : Draws) : bool :=
  between (Binary64.opp (decimal 15 2)) (decimal 15 2) (d_variance d) &&
  between (Binary64.opp (decimal 1 1)) (decimal 1 1) (d_sqft d) &&
  between (decimal 1 1) (decimal 20 1) (d_distance d) &&
  between (decimal 75 2) (decimal 95 2) (d_similarity d) &&
  (30 <=? d_days d) && (d_days d <? 180) &&
  (-1 <=? d_bedrooms d) && (d_bedrooms d <=? 1).

(** The worked example of the specification. *)
Definition example_request : InvestmentScoreRequest :=
  {| ir_property_id := "example";
     ir_list_price := 300000;
     ir_predicted_price := None;
     ir_sqft := 1500;
     ir_appreciation_forecast := None;
     ir_market_metrics := None |}.

Definition example_as_claimed (r : InvestmentScoreResponse) : Prop :=
  appreciation_score r = PyInt 50 /\ cash_flow_score r = PyInt 90 /\
  market_momentum_score r = PyInt 50 /\ liquidity_score r = PyInt 50 /\
  risk_score r = PyInt 50 /\ risk_adjusted_score r = PyInt 52 /\
  overall_score r = PyInt 53 /\
  String.prefix "Hold" (recommendation r) = true.

(** A request whose forecast predicts a 20% decline. *)
Definition declining_request : InvestmentScoreRequest :=
  {| ir_property_id := "declining";
     ir_list_price := 300000;
     ir_predicted_price := None;
     ir_sqft := 1500;
     ir_appreciation_forecast := Some (Binary64.opp (Binary64.of_Z 20));
     ir_market_metrics := None |}.

(** The three cases of the appreciation score, for optional inputs that
    count as given when they are [Some]. *)
Definition appreciation_as_claimed (list_price : Z) (model_price : option Z)
    (forecast : option float) : result num :=
  match model_price, forecast with
  | None, None => Ok (PyInt 50)
  | Some p, None => upside_score list_price p
  | None, Some v => blend (PyInt 50) v
  | Some p, Some v => score ← upside_score list_price p; blend score v
  end.

(** ** Conditions on an investment-score request

    The forecast is absent or a non-negative number; the one-year
    appreciation of the market metrics is a number; the average days on
    market are not negative. *)
Definition forecast_ok (forecast : option Binary64.float) : bool :=
  match forecast with
  | Some f => valid_binary prec emax f && le (PyInt 0) (PyFloat f)
  | None => true
  end.

Definition days_ok (v : value) : bool :=
  match v with
  | VNum n => valid_num n && le (PyInt 0) n
  | _ => true
  end.

Definition metrics_ok (market_metrics : option (gmap string value)) : bool :=
  valid_value (get market_metrics "appreciation_1y" (VNum (PyInt 0))) &&
  days_ok (get market_metrics "days_on_market_avg" (VNum (PyInt 60))).

(** The risk score of each market temperature. *)
Definition risk_table (temperature : string) : Z :=
  if String.eqb temperature "HOT" then 30
  else if String.eqb temperature "WARM" then 40
  else if String.eqb temperature "NEUTRAL" then 50
  else if String.eqb temperature "COOL" then 60
  else if String.eqb temperature "COLD" then 70
  else 50.

(** Requests outside these conditions: a market whose average days on
    market are given as negative, and a negative area. *)
Definition stale_request : InvestmentScoreRequest :=
  {| ir_property_id := "stale";
     ir_list_price := 300000;
     ir_predicted_price := None;
     ir_sqft := 1500;
     ir_appreciation_forecast := None;
     ir_market_metrics :=
       Some {[ "days_on_market_avg" := VNum (PyInt (-30)) ]} |}.

Definition negative_area_request : InvestmentScoreRequest :=
  {| ir_property_id := "negative";
     ir_list_price := 300000;
     ir_predicted_price := None;
     ir_sqft := -1500;
     ir_appreciation_forecast := None;
     ir_market_metrics := None |}.

(** A request that fills every field. *)
Definition full_request : InvestmentScoreRequest :=
  {| ir_property_id := "full";
     ir_list_price := 450000;
     ir_predicted_price := Some 480000;
     ir_sqft := 2100;
     ir_appreciation_forecast := Some (Binary64.decimal 42 1);
     ir_market_metrics :=
       Some {[ "appreciation_1y" := VNum (PyFloat (Binary64.decimal 55 1));
               "days_on_market_avg" := VNum (PyInt 30);
               "market_temperature" := VStr "HOT" ]} |}.

(** A townhouse of 1001 square feet: its fallback price is 275275. *)
Definition townhouse : PropertyFeatures :=
  {| pf_property_id := "townhouse";
     pf_sqft := 1001;
     pf_bedrooms := 3;
     pf_bathrooms := Binary64.decimal 25 1;
     pf_year_built := Some 2004;
     pf_lot_size := None;
     pf_property_type := "TOWNHOUSE";
     pf_latitude := Binary64.decimal 3405 2;
     pf_longitude := Binary64.opp (Binary64.decimal 11824 2);
     pf_zip_code := "90001" |}.

(** ** Comparables *)

Definition has_key (c : Comp) : Prop := ordered (float_value (similarity c)).

(** "Within 10% of the query's sqft", as worded and as the truncation of
    [int] allows. *)
Definition within_ten_percent (q : Z) (c : Comp) : Prop :=
  9 * q <= 10 * sqft c <= 11 * q.

Definition within_ten_percent_truncated (q : Z) (c : Comp) : Prop :=
  9 * q - 10 <= 10 * sqft c <= 11 * q.

(** Draws of the random source, all within their ranges. *)
Definition steady_draws : Draws :=
  {| d_variance := Binary64.decimal 5 2;
     d_days := 90;
     d_sqft := Binary64.opp (Binary64.decimal 9 2);
     d_bedrooms := 0;
     d_distance := Binary64.decimal 12 1;
     d_similarity := Binary64.decimal 85 2 |}.

Definition varied_draws (i : nat) : Draws :=
  {| d_variance := Binary64.decimal 5 2;
     d_days := 90;
     d_sqft := Binary64.decimal 4 2;
     d_bedrooms := 1;
     d_distance := Binary64.decimal 12 1;
     d_similarity :=
       if Nat.even i then Binary64.decimal 80 2 else Binary64.decimal 90 2 |}.

Definition small_request (limit : Z) : CompsRequest :=
  {| cr_property_id := "small";
     cr_latitude := Binary64.decimal 3405 2;
     cr_longitude := Binary64.opp (Binary64.decimal 11824 2);
     cr_sqft := 15;
     cr_bedrooms := 1;
     cr_bathrooms := Binary64.decimal 10 1;
     cr_property_type := "CONDO";
     cr_limit := limit |}.

(** ** Risk levels, from the lowest to the highest *)
Definition risk_rank (level : string) : Z :=
  if String.eqb level "Low" then 0
  else if String.eqb level "Medium-Low" then 1
  else if String.eqb level "Medium" then 2
  else if String.eqb level "Medium-High" then 3
  else 4.

(** A score that gives rise to a key factor. *)
Definition salient (score : num) : bool :=
  ge score (PyInt 70) || le score (PyInt 30).

(** The request with other market metrics. *)
Definition with_metrics (request : InvestmentScoreRequest)
    (market_metrics : option (gmap string value)) : InvestmentScoreRequest :=
  {| ir_property_id := ir_property_id request;
     ir_list_price := ir_list_price request;
     ir_predicted_price := ir_predicted_price request;
     ir_sqft := ir_sqft request;
     ir_appreciation_forecast := ir_appreciation_forecast request;
     ir_market_metrics := market_metrics |}.

(** A value that is not a number: [None], a string, a list or a
    dictionary. *)
Definition not_a_number (v : value) : bool :=
  match v with
  | VNone | VStr _ | VCompound => true
  | VBool _ | VNum _ => false
  end.

(** A request whose listing price is 0. *)
Definition free_request : InvestmentScoreRequest :=
  {| ir_property_id := "free";
     ir_list_price := 0;
     ir_predicted_price := Some 250000;
     ir_sqft := 1200;
     ir_appreciation_forecast := None;
     ir_market_metrics := None |}.

(** Market metrics that only give the temperature. *)
Definition hot_market : gmap string value :=
  {[ "market_temperature" := VStr "HOT" ]}.

(** The features with another zip code, year, lot and rooms. *)
Definition elsewhere (features : PropertyFeatures) : PropertyFeatures :=
  {| pf_property_id := pf_property_id features;
     pf_sqft := pf_sqft features;
     pf_bedrooms := pf_bedrooms features + 2;
     pf_bathrooms := Binary64.decimal 10 1;
     pf_year_built := None;
     pf_lot_size := Some 9000;
     pf_property_type := pf_property_type features;
     pf_latitude := pf_longitude features;
     pf_longitude := pf_latitude features;
     pf_zip_code := "10001" |}.

(** ** Fields of a comparable

    The sale price against the query's area at 250 per square foot, within
    15% up to the truncation of [int]; the fields that are copied or drawn
    as they are. *)
Definition price_within_fifteen_percent (q : Z) (c : Comp) : Prop :=
  17 * (q * 250) - 20 <= 20 * sold_price c <= 23 * (q * 250).

Definition plain_fields (now : Z) (request : CompsRequest) (c : Comp) : Prop :=
  city c = "Sample City" /\ state c = "CA" /\
  bathrooms c = cr_bathrooms request /\
  cr_bedrooms request - 1 <= bedrooms c <= cr_bedrooms request + 1 /\
  now - 180 * 86400 < sold_date c <= now - 30 * 86400.

(** The distance and the similarity of a comparable: numbers of two
    decimals within the ranges of their draws. *)
Definition rounded_fields (c : Comp) : Prop :=
  between (Binary64.decimal 1 1) (Binary64.decimal 20 1) (distance c) = true /\
  between (Binary64.decimal 75 2) (Binary64.decimal 95 2) (similarity c) = true /\
  (exists d, 10 <= d <= 200 /\ distance c = Binary64.decimal d 2) /\
  (exists s, 75 <= s <= 95 /\ similarity c = Binary64.decimal s 2).

(** The address of the comparable generated at index [i]. *)
Definition address_at (i : nat) : string :=
  str (100 + Z.of_nat i * 10) ++ " Demo Street".

(** The comparables generated by the loop, in the order of the loop. *)
Definition generated (now : Z) (rng : nat -> Draws) (request : CompsRequest)
  : result (list Comp) :=
  for_range (fun i => synthetic_comp now request (Z.of_nat i) (rng i))
    0 (Z.to_nat (cr_limit request)).

(** Two comparables have the same similarity: neither is less. *)
Definition same_similarity (a b : Comp) : bool :=
  negb (lt (PyFloat (similarity a)) (PyFloat (similarity b))) &&
  negb (lt (PyFloat (similarity b)) (PyFloat (similarity a))).

(** ** Model files

    What a file gives when it is there and loads, and whether loading it
    raises. *)
Definition loaded (disk : Disk) (path : string) : option Model :=
  match disk !! path with
  | Some (Ok m) => Some m
  | _ => None
  end.

Definition fails (disk : Disk) (path : string) : bool :=
  match disk !! path with
  | Some (Raise _) => true
  | _ => false
  end.

Definition price_path (model_dir : string) : string :=
  path_join model_dir "price_predictor.joblib".
Definition appreciation_path (model_dir : string) : string :=
  path_join model_dir "appreciation_model.joblib".

Definition listed {A} (o : option A) (name : string) : list string :=
  match o with Some _ => [name] | None => [] end.

(** A dictionary, as the serving layer uses a loaded object: it has no
    [predict] attribute. *)
Definition a_dict : Model := fun _ => Raise AttributeError.

(** The disk as the training module leaves it: every file holds the
    dictionary written by a [save]. *)
Definition disk_of {Preprocessor Regressor Scaler : Type}
    (fs : Training.FileSystem Preprocessor Regressor Scaler) : Disk :=
  (fun _ => Ok a_dict) <$>
    (fs : gmap string (Training.Artifact Preprocessor Regressor Scaler)).

End Spec.

(** * Properties *)

Import Py Service Rounding Spec.
Local Open Scope string_scope.
Local Open Scope Z_scope.

(** ** The worked example *)

(** C2 (as stated): the example of the specification ends with an overall
    score of 53 and a "Hold" recommendation.  The code does not: no response
    to the example request has the claimed fields. *)
Lemma example_not_as_claimed :
  ~ exists r, calculate_investment_score example_request = Ok r /\
              example_as_claimed r.
Proof.
  intros (r & Hr & H).
  vm_compute in Hr. injection Hr as <-.
  destruct H as (_ & _ & _ & _ & _ & _ & Hoverall & _).
  discriminate Hoverall.
Qed.

(** C2 (amended): for list_price=300000, sqft=1500 and nothing else, the
    component scores are 50, 90, 50, 50, risk 50, risk-adjusted 52, the
    overall score is 60 (15 + 22.5 + 10.4 + 7.5 + 5 = 60.4, truncated) and,
    since the cash-flow score exceeds 70, the recommendation is the
    cash-flow "Consider" text. *)
Theorem example_scores :
  calculate_investment_score example_request =
  Ok {| overall_score := PyInt 60;
        appreciation_score := PyInt 50;
        cash_flow_score := PyInt 90;
        risk_adjusted_score := PyInt 52;
        market_momentum_score := PyInt 50;
        liquidity_score := PyInt 50;
        risk_score := PyInt 50;
        risk_level := "Medium-Low";
        recommendation := "Consider - Strong cash flow for income investors.";
        key_factors := ["Excellent cash flow opportunity"] |}.
Proof. vm_compute. reflexivity. Qed.

(** ** Recommendation *)

(** C8: the recommendation is the text of the first rule that applies, in
    the order Strong Buy (overall >= 80), Buy (>= 65), Consider for
    appreciation (>= 50 and appreciation > 70), Consider for cash flow
    (>= 50 and cash_flow > 70), Hold (>= 50), Avoid (risk > 70), and Pass
    otherwise; overall=80, appreciation=90, cash_flow=90, risk=10 gives
    Strong Buy. *)
Theorem recommendation_priority_order :
  (forall overall appreciation cash_flow risk,
      generate_recommendation overall appreciation cash_flow risk =
      first_match recommendation_rules "Pass - Look for better alternatives."
        overall appreciation cash_flow risk) /\
  generate_recommendation (PyInt 80) (PyInt 90) (PyInt 90) (PyInt 10) =
  "Strong Buy - Excellent investment opportunity.".
Proof.
  split; [| reflexivity].
  intros overall appreciation cash_flow risk.
  unfold generate_recommendation, recommendation_rules, first_match.
  destruct (ge overall (PyInt 80)); [reflexivity |].
  destruct (ge overall (PyInt 65)); [reflexivity |].
  destruct (ge overall (PyInt 50)); simpl; [| reflexivity].
  destruct (gt appreciation (PyInt 70)); [reflexivity |].
  destruct (gt cash_flow (PyInt 70)); reflexivity.
Qed.

(** ** Price estimation *)

(** Looking a key up in a dictionary literal, one entry at a time. *)
Ltac dict_lookup key :=
  repeat match goal with
    | |- context [String.eqb key ?k] =>
        destruct (String.eqb_spec key k) as [-> | ?]; [reflexivity |]
    end;
  repeat (rewrite lookup_insert_ne by congruence);
  try (rewrite lookup_singleton_ne by congruence);
  reflexivity.

Lemma estimate_price_per_sqft_table zip_code property_type :
  estimate_price_per_sqft zip_code property_type = price_table property_type.
Proof. unfold estimate_price_per_sqft, price_table. dict_lookup property_type. Qed.

Lemma encode_property_type_table property_type :
  encode_property_type property_type = encoding_table property_type.
Proof. unfold encode_property_type, encoding_table. dict_lookup property_type. Qed.

(** C6: the fallback estimate is sqft times the table entry of the property
    type (250, 300, 275, 200, and 250 for any other type), it is the
    predicted price of every answer given without a loaded price model, and
    the type encoding is 1..6 with 1 for any other type. *)
Theorem fallback_price_and_encoding :
  (forall features,
      fallback_price features =
      pf_sqft features * price_table (pf_property_type features)) /\
  (forall models current_year appreciation features,
      pr_predicted_price <$>
        predict_price (delete "price_predictor" models) current_year
          appreciation features =
      (fun _ => pf_sqft features * price_table (pf_property_type features)) <$>
        confidence_interval
          (pf_sqft features * price_table (pf_property_type features))) /\
  (forall property_type,
      encode_property_type property_type = encoding_table property_type) /\
  (price_table "SINGLE_FAMILY", price_table "CONDO", price_table "TOWNHOUSE",
   price_table "MULTI_FAMILY", price_table "LAND", price_table "CASTLE") =
  (250, 300, 275, 200, 250, 250) /\
  (encoding_table "SINGLE_FAMILY", encoding_table "CONDO",
   encoding_table "TOWNHOUSE", encoding_table "MULTI_FAMILY",
   encoding_table "LAND", encoding_table "COMMERCIAL",
   encoding_table "CASTLE") = (1, 2, 3, 4, 5, 6, 1).
Proof.
  split; [| split; [| split; [| split; reflexivity]]].
  - intros features. unfold fallback_price.
    now rewrite estimate_price_per_sqft_table.
  - intros models current_year appreciation features.
    unfold predict_price. rewrite lookup_delete_eq.
    unfold fallback_price. rewrite estimate_price_per_sqft_table.
    cbn [mbind result_bind].
    destruct (confidence_interval _); reflexivity.
  - apply encode_property_type_table.
Qed.

(** ** Comparisons of Python integers *)

Lemma lt_int a b : lt (PyInt a) (PyInt b) = (a <? b).
Proof.
  unfold lt, num_value, xlt, Qltb, Qcompare. cbn [inject_Z Qnum Qden].
  rewrite !Z.mul_1_r. unfold Z.ltb. destruct (a ?= b); reflexivity.
Qed.

Lemma le_int a b : le (PyInt a) (PyInt b) = (a <=? b).
Proof.
  unfold le, num_value, xle. fold (num_value (PyInt a)) (num_value (PyInt b)).
  change (xlt (num_value (PyInt b)) (num_value (PyInt a))) with (lt (PyInt b) (PyInt a)).
  rewrite lt_int. rewrite Z.leb_antisym. reflexivity.
Qed.

Lemma gt_int a b : gt (PyInt a) (PyInt b) = (b <? a).
Proof. apply lt_int. Qed.

Lemma ge_int a b : ge (PyInt a) (PyInt b) = (b <=? a).
Proof. apply le_int. Qed.

Lemma min_int a b : min (PyInt a) (PyInt b) = PyInt (Z.min a b).
Proof.
  unfold min. rewrite lt_int.
  destruct (Z.ltb_spec b a); f_equal; lia.
Qed.

Lemma max_int a b : max (PyInt a) (PyInt b) = PyInt (Z.max a b).
Proof.
  unfold max. rewrite gt_int.
  destruct (Z.ltb_spec a b); f_equal; lia.
Qed.

Lemma in_range_int z : in_range (PyInt z) = (0 <=? z) && (z <=? 100).
Proof. unfold in_range. now rewrite !le_int. Qed.

(** ** Appreciation score *)

Lemma appreciation_score_cases list_price predicted_price appreciation_forecast :
  calculate_appreciation_score list_price predicted_price appreciation_forecast =
  score ←
    match present_price predicted_price with
    | Some p => if list_price =? 0 then Ok (PyInt 50) else upside_score list_price p
    | None => Ok (PyInt 50)
    end;
  match present_forecast appreciation_forecast with
  | Some v => blend score v
  | None => Ok score
  end.
Proof.
  unfold calculate_appreciation_score, present_price, present_forecast.
  assert (Hblend : forall score v,
             (boost ← mul (PyFloat v) (PyInt 5);
              total ← add score boost;
              half ← truediv total (PyInt 2);
              blended ← int half;
              mret (min (PyInt 100) (PyInt blended))) = blend score v).
  { intros score v. unfold blend.
    destruct (mul (PyFloat v) (PyInt 5)) as [boost |]; [| reflexivity].
    cbn [mbind result_bind].
    destruct (add score boost) as [total |]; [| reflexivity].
    cbn [mbind result_bind].
    destruct (truediv total (PyInt 2)) as [half |]; [| reflexivity].
    cbn [mbind result_bind].
    destruct (int half) as [blended |]; [| reflexivity].
    cbn [mbind result_bind mret result_ret]. now rewrite min_int. }
  assert (Hsecond : forall score,
             match appreciation_forecast with
             | Some forecast =>
                 if truthy (PyFloat forecast) then
                   boost ← mul (PyFloat forecast) (PyInt 5);
                   total ← add score boost;
                   half ← truediv total (PyInt 2);
                   blended ← int half;
                   mret (min (PyInt 100) (PyInt blended))
                 else Ok score
             | None => Ok score
             end =
             match
               match appreciation_forecast with
               | Some v => if Binary64.is_zero v then None else Some v
               | None => None
               end
             with
             | Some v => blend score v
             | None => Ok score
             end).
  { intros score. destruct appreciation_forecast as [v |]; [| reflexivity].
    unfold truthy. destruct (Binary64.is_zero v); cbn [negb]; [reflexivity |].
    apply Hblend. }
  destruct predicted_price as [p |]; cbn [mbind result_bind]; [| apply Hsecond].
  unfold truthy. destruct (p =? 0); cbn [negb andb mbind result_bind];
    [apply Hsecond |].
  destruct (list_price =? 0); cbn [negb mbind result_bind]; [apply Hsecond |].
  unfold upside_score.
  destruct (truediv _ _) as [ratio |]; cbn [mbind result_bind]; [| reflexivity].
  destruct (mul ratio _) as [upside |]; cbn [mbind result_bind]; [| reflexivity].
  destruct (mul upside _) as [gain |]; cbn [mbind result_bind]; [| reflexivity].
  destruct (add _ gain) as [raw |]; cbn [mbind result_bind mret result_ret];
    [| reflexivity].
  apply Hsecond.
Qed.

(** C3 (as stated): "when a model price is given the score is
    clamp(0, 100, 50 + 5 * upside%)".  A model price of 0 is given, its
    upside is -100% and the clamped score would be 0, but the code keeps
    the score at 50. *)
Lemma appreciation_zero_price_not_as_claimed :
  0 < 100 /\
  calculate_appreciation_score 100 (Some 0) None = Ok (PyInt 50) /\
  appreciation_as_claimed 100 (Some 0) None = Ok (PyInt 0) /\
  calculate_appreciation_score 100 (Some 0) None <>
  appreciation_as_claimed 100 (Some 0) None.
Proof.
  split; [lia |]. split; [reflexivity |]. split; [vm_compute; reflexivity |].
  vm_compute. discriminate.
Qed.

(** C3 (amended): for every positive list_price, with a model price and a
    forecast counting as given only when they are not zero: with neither
    the score is 50; with a model price it is
    clamp(0, 100, 50 + 5 * upside%); with a forecast the score so far is
    blended into min(100, int((score + forecast * 5) / 2)), which has no
    lower clamp. *)
Theorem appreciation_score_formula list_price predicted_price forecast :
  0 < list_price ->
  calculate_appreciation_score list_price predicted_price forecast =
  appreciation_as_claimed list_price (present_price predicted_price)
    (present_forecast forecast).
Proof.
  intros Hpos. rewrite appreciation_score_cases.
  destruct (Z.eqb_spec list_price 0) as [-> | _]; [lia |].
  unfold appreciation_as_claimed.
  destruct (present_price predicted_price) as [p |],
           (present_forecast forecast) as [v |];
    cbn [mbind result_bind]; try reflexivity.
  destruct (upside_score list_price p); reflexivity.
Qed.

Lemma appreciation_score_formula_witness :
  0 < 300000 /\
  calculate_appreciation_score 300000 (Some 330000) (Some (Binary64.of_Z 4)) =
  appreciation_as_claimed 300000 (present_price (Some 330000))
    (present_forecast (Some (Binary64.of_Z 4))).
Proof.
  split; [lia |]. apply (appreciation_score_formula 300000); lia.
Defined.

(** C10: a predicted_price of 0 and an appreciation_forecast of 0.0 (of
    either sign) are treated as absent: the upside computation, resp. the
    blend, is skipped, so that a zero forecast leaves the score at its prior
    value (50 below) instead of blending it (which would give 25). *)
Theorem zero_inputs_are_absent :
  (forall list_price forecast,
      calculate_appreciation_score list_price (Some 0) forecast =
      calculate_appreciation_score list_price None forecast) /\
  (forall list_price predicted_price s,
      calculate_appreciation_score list_price predicted_price
        (Some (S754_zero s)) =
      calculate_appreciation_score list_price predicted_price None) /\
  calculate_appreciation_score 300000 None (Some (Binary64.of_Z 0)) =
  Ok (PyInt 50) /\
  blend (PyInt 50) (Binary64.of_Z 0) = Ok (PyInt 25).
Proof.
  split; [| split; [| split]].
  - intros. now rewrite !appreciation_score_cases.
  - intros. now rewrite !appreciation_score_cases.
  - reflexivity.
  - vm_compute. reflexivity.
Qed.

(** ** The fitted/not-fitted protocol of the predictors *)

Section Protocol.
Import Training.

Context {DataFrame Series Matrix Preprocessor Regressor Scaler Metrics
         Table : Type}.
Context (engineer_features : DataFrame -> lib DataFrame)
  (train_test_split :
     DataFrame -> Series -> lib (DataFrame * DataFrame * Series * Series))
  (split_matrix : Matrix -> Series -> lib (Matrix * Matrix * Series * Series))
  (create_preprocessor : Preprocessor)
  (fit_transform : Preprocessor -> DataFrame -> lib (Preprocessor * Matrix))
  (transform : Preprocessor -> DataFrame -> lib Matrix)
  (feature_names_out : Preprocessor -> lib (list string))
  (new_xgb new_lgb new_appreciation_lgb : Regressor)
  (xgb_fit lgb_fit :
     Regressor -> Matrix -> Series -> Matrix -> Series -> lib Regressor)
  (lgb_fit_plain : Regressor -> Matrix -> Series -> lib Regressor)
  (regressor_predict : Regressor -> Matrix -> lib (list Binary64.float))
  (feature_importances : Regressor -> lib (list Binary64.float))
  (evaluate : Series -> list Binary64.float -> lib Metrics)
  (importance_table :
     list string -> list Binary64.float -> list Binary64.float ->
     list Binary64.float -> lib Table)
  (new_scaler : Scaler)
  (scaler_fit_transform : Scaler -> DataFrame -> lib (Scaler * Matrix))
  (scaler_transform : Scaler -> DataFrame -> lib Matrix).

Local Abbreviation Predictor := (PropertyPricePredictor Preprocessor Regressor).
Local Abbreviation Appreciation := (AppreciationPredictor Regressor Scaler).
Local Abbreviation price_fit :=
  (fit engineer_features train_test_split create_preprocessor fit_transform
     transform feature_names_out new_xgb new_lgb xgb_fit lgb_fit
     regressor_predict evaluate).
Local Abbreviation price_predict :=
  (predict engineer_features transform regressor_predict).
Local Abbreviation importance :=
  (get_feature_importance feature_importances importance_table).
Local Abbreviation appreciation_fit :=
  (ap_fit split_matrix new_appreciation_lgb lgb_fit_plain regressor_predict
     evaluate scaler_fit_transform).
Local Abbreviation appreciation_predict :=
  (ap_predict regressor_predict scaler_transform).

Ltac run_method :=
  repeat match goal with
    | |- context [call ?c] =>
        destruct c as [? | ?]; cbn
    | |- context [let '(_, _) := ?p in _] => destruct p; cbn
    end.

(** [fit] sets [is_fitted] exactly when it returns. *)
Lemma fit_sets_is_fitted X y (self : Predictor) :
  is_fitted self = false ->
  is_fitted (fst (price_fit X y self)) = returns (snd (price_fit X y self)).
Proof.
  intros Hself. unfold fit.
  cbv [mbind method_bind mret method_ret lift assign].
  run_method; try assumption; reflexivity.
Qed.

Lemma ap_fit_sets_is_fitted X y (self : Appreciation) :
  ap_is_fitted self = false ->
  ap_is_fitted (fst (appreciation_fit X y self)) =
  returns (snd (appreciation_fit X y self)).
Proof.
  intros Hself. unfold ap_fit.
  cbv [mbind method_bind mret method_ret lift assign read].
  run_method; try assumption; reflexivity.
Qed.

Lemma fit_returns_fitted X y (self : Predictor) :
  returns (snd (price_fit X y self)) = true ->
  is_fitted (fst (price_fit X y self)) = true.
Proof.
  unfold fit.
  cbv [mbind method_bind mret method_ret lift assign].
  run_method; intros H; try discriminate H; reflexivity.
Qed.

Lemma ap_fit_returns_fitted X y (self : Appreciation) :
  returns (snd (appreciation_fit X y self)) = true ->
  ap_is_fitted (fst (appreciation_fit X y self)) = true.
Proof.
  unfold ap_fit.
  cbv [mbind method_bind mret method_ret lift assign read].
  run_method; intros H; try discriminate H; reflexivity.
Qed.

Ltac run_result :=
  repeat match goal with
    | |- context [call ?c] => destruct c as [? | ?]; cbn
    | |- context [attr ?o] => destruct o as [? | ]; cbn
    | |- context [if ?b then _ else _] => destruct b; cbn
    end;
  try reflexivity.

Lemma fitted_predict_guard (self : Predictor) X return_confidence :
  is_fitted self = true ->
  raises_not_fitted (price_predict self X return_confidence) = false.
Proof. intros H. unfold predict. rewrite H. cbn. run_result. Qed.

Lemma fitted_importance_guard (self : Predictor) :
  is_fitted self = true -> raises_not_fitted (importance self) = false.
Proof. intros H. unfold get_feature_importance. rewrite H. cbn. run_result. Qed.

Lemma fitted_ap_predict_guard (self : Appreciation) X :
  ap_is_fitted self = true ->
  raises_not_fitted (appreciation_predict self X) = false.
Proof. intros H. unfold ap_predict. rewrite H. cbn. run_result. Qed.

(** C9: on a predictor that is not fitted (a new one, or one whose [fit]
    raised), [predict] and [get_feature_importance] raise the not-fitted
    [ValueError]; [fit] marks the predictor as fitted exactly when it
    returns; after a [fit] or a [load] that returned, these calls do not
    raise a not-fitted error. *)
Theorem not_fitted_protocol :
  (forall (self : Predictor) X return_confidence,
      is_fitted self = false ->
      price_predict self X return_confidence = Raise not_fitted_predict /\
      importance self = Raise not_fitted) /\
  (forall (self : Appreciation) X,
      ap_is_fitted self = false ->
      appreciation_predict self X = Raise not_fitted) /\
  is_fitted (init : Predictor) = false /\
  ap_is_fitted (ap_init new_scaler : Appreciation) = false /\
  (forall (self : Predictor) X y,
      is_fitted self = false ->
      is_fitted (fst (price_fit X y self)) =
      returns (snd (price_fit X y self))) /\
  (forall (self : Appreciation) X y,
      ap_is_fitted self = false ->
      ap_is_fitted (fst (appreciation_fit X y self)) =
      returns (snd (appreciation_fit X y self))) /\
  (forall (self : Predictor) X y X' return_confidence,
      returns (snd (price_fit X y self)) = true ->
      raises_not_fitted
        (price_predict (fst (price_fit X y self)) X' return_confidence) =
      false /\
      raises_not_fitted (importance (fst (price_fit X y self))) = false) /\
  (forall (self : Appreciation) X y X',
      returns (snd (appreciation_fit X y self)) = true ->
      raises_not_fitted
        (appreciation_predict (fst (appreciation_fit X y self)) X') = false) /\
  (forall (fs : FileSystem Preprocessor Regressor Scaler) path self X
          return_confidence,
      load fs path = Ok self ->
      raises_not_fitted (price_predict self X return_confidence) = false /\
      raises_not_fitted (importance self) = false) /\
  (forall (fs : FileSystem Preprocessor Regressor Scaler) path self X,
      ap_load fs path = Ok self ->
      raises_not_fitted (appreciation_predict self X) = false).
Proof.
  repeat match goal with |- _ /\ _ => split end.
  - intros self X rc H. unfold predict, get_feature_importance.
    now rewrite H.
  - intros self X H. unfold ap_predict. now rewrite H.
  - reflexivity.
  - reflexivity.
  - intros; now apply fit_sets_is_fitted.
  - intros; now apply ap_fit_sets_is_fitted.
  - intros self X y X' rc H. apply fit_returns_fitted in H.
    split; [now apply fitted_predict_guard | now apply fitted_importance_guard].
  - intros self X y X' H. apply ap_fit_returns_fitted in H.
    now apply fitted_ap_predict_guard.
  - intros fs path self X rc H.
    assert (is_fitted self = true) as Hfit.
    { unfold load, joblib_load in H. destruct (fs !! path) as [[a | a] |];
        cbn in H; try discriminate H. now injection H as <-. }
    split; [now apply fitted_predict_guard | now apply fitted_importance_guard].
  - intros fs path self X H.
    assert (ap_is_fitted self = true) as Hfit.
    { unfold ap_load, joblib_load in H. destruct (fs !! path) as [[a | a] |];
        cbn in H; try discriminate H. now injection H as <-. }
    now apply fitted_ap_predict_guard.
Qed.
End Protocol.

Lemma not_fitted_protocol_witness :
  Training.is_fitted (Training.init : Training.PropertyPricePredictor unit unit) =
  false /\
  Training.predict (fun _ : unit => inr tt) (fun _ _ : unit => inr tt)
    (fun _ _ : unit => inr [Binary64.of_Z 1]) Training.init tt true =
  Raise Training.not_fitted_predict.
Proof.
  split; [reflexivity |].
  apply (not_fitted_protocol
           (Series := unit) (Scaler := unit) (Metrics := unit) (Table := unit)
           (fun _ => inr tt) (fun _ _ => inr (tt, tt, tt, tt))
           (fun _ _ => inr (tt, tt, tt, tt)) tt (fun _ _ => inr (tt, tt))
           (fun _ _ => inr tt) (fun _ => inr []) tt tt tt
           (fun _ _ _ _ _ => inr tt) (fun _ _ _ _ _ => inr tt)
           (fun _ _ _ => inr tt) (fun _ _ => inr [Binary64.of_Z 1])
           (fun _ => inr []) (fun _ _ => inr tt) (fun _ _ _ _ => inr tt)
           tt (fun _ _ => inr (tt, tt)) (fun _ _ => inr tt)).
  reflexivity.
Defined.

(** * Binary64 arithmetic

    What [SpecFloat]'s rounding does to a mantissa, and the bounds that the
    operations keep.  *)

(** ** Number of digits *)

Lemma digits2_pos_size p : digits2_pos p = Pos.size p.
Proof. induction p; simpl; congruence. Qed.

Lemma Zdigits2_log2 m : 0 < m -> Zdigits2 m = Z.log2 m + 1.
Proof.
  destruct m as [| p | p]; try lia. intros _. simpl.
  rewrite digits2_pos_size. destruct p; simpl; lia.
Qed.

Lemma Zdigits2_bounds m :
  0 < m -> 2 ^ (Zdigits2 m - 1) <= m < 2 ^ Zdigits2 m.
Proof.
  intros H. rewrite Zdigits2_log2 by assumption.
  replace (Z.log2 m + 1 - 1) with (Z.log2 m) by lia.
  apply (Z.log2_spec m H).
Qed.

Lemma Zdigits2_pos m : 0 < m -> 0 < Zdigits2 m.
Proof. intros H. rewrite Zdigits2_log2 by assumption. pose proof (Z.log2_nonneg m). lia. Qed.

Lemma Zdigits2_unique m d :
  2 ^ (d - 1) <= m < 2 ^ d -> 0 < m -> Zdigits2 m = d.
Proof.
  intros H Hm. rewrite Zdigits2_log2 by assumption.
  assert (0 < d).
  { destruct (Z.le_gt_cases d 0) as [Hd|]; [|assumption].
    destruct H as [_ H]. 
    assert (2 ^ d <= 1).
    { destruct (Z.eq_dec d 0) as [->|]. - simpl; lia. - rewrite Z.pow_neg_r by lia. lia. }
    lia. }
  assert (Z.log2 m = d - 1); [| lia].
  apply Z.log2_unique; [lia|]. replace (Z.succ (d - 1)) with d by lia. assumption.
Qed.

Lemma Zdigits2_le m1 m2 : 0 < m1 -> m1 <= m2 -> Zdigits2 m1 <= Zdigits2 m2.
Proof.
  intros H1 H2. rewrite !Zdigits2_log2 by lia.
  pose proof (Z.log2_le_mono m1 m2 H2). lia.
Qed.

Lemma Zdigits2_div m n :
  0 < m -> 0 <= n -> 0 < m / 2 ^ n -> Zdigits2 (m / 2 ^ n) = Zdigits2 m - n.
Proof.
  intros Hm Hn Hq. rewrite !Zdigits2_log2 by assumption.
  rewrite <- Z.shiftr_div_pow2 by assumption.
  rewrite Z.log2_shiftr by assumption.
  rewrite <- Z.shiftr_div_pow2 in Hq by assumption.
  assert (Z.log2 m >= n).
  { destruct (Z.lt_ge_cases (Z.log2 m) n) as [Hlt|]; [|lia].
    rewrite (Z.shiftr_eq_0 m n) in Hq by lia. lia. }
  lia.
Qed.

(** ** Shifting a mantissa to the right *)

Lemma shr_1_m mrs : 0 <= shr_m mrs -> shr_m (shr_1 mrs) = shr_m mrs / 2.
Proof.
  destruct mrs as [m r s]. simpl. intros H.
  destruct m as [| [p | p |] | p]; simpl; try lia; try reflexivity.
  - rewrite (Pos2Z.inj_xI p), Z.mul_comm, Z.div_add_l by lia.
    change (1 / 2) with 0. lia.
  - rewrite (Pos2Z.inj_xO p), Z.mul_comm, Z.div_mul by lia. reflexivity.
Qed.

Lemma shr_1_inexact mrs :
  0 <= shr_m mrs -> inexact (shr_1 mrs) = inexact mrs || Z.odd (shr_m mrs).
Proof.
  destruct mrs as [m r s]. unfold inexact. simpl. intros H.
  destruct m as [| [p | p |] | p]; simpl; try lia; destruct r, s; reflexivity.
Qed.

Lemma iter_pos_nat {A} (f : A -> A) p x :
  SpecFloat.iter_pos f p x = Nat.iter (Pos.to_nat p) f x.
Proof.
  revert x. induction p; intros x; cbn [SpecFloat.iter_pos].
  - rewrite !IHp. rewrite Pos2Nat.inj_xI.
    replace (S (2 * Pos.to_nat p))%nat with (Pos.to_nat p + (Pos.to_nat p + 1))%nat by lia.
    rewrite !Nat.iter_add. simpl. reflexivity.
  - rewrite !IHp. rewrite Pos2Nat.inj_xO.
    replace (2 * Pos.to_nat p)%nat with (Pos.to_nat p + Pos.to_nat p)%nat by lia.
    rewrite Nat.iter_add. reflexivity.
  - reflexivity.
Qed.

Lemma shr_iter_spec (k : nat) mrs :
  0 <= shr_m mrs ->
  let r := Nat.iter k shr_1 mrs in
  shr_m r = shr_m mrs / 2 ^ Z.of_nat k /\
  inexact r = inexact mrs || negb (shr_m mrs mod 2 ^ Z.of_nat k =? 0).
Proof.
  intros Hm. induction k as [| k IH].
  - simpl. rewrite Z.div_1_r, Z.mod_1_r. simpl. rewrite orb_false_r. auto.
  - cbn zeta in *. rewrite Nat.iter_succ. destruct IH as [IHm IHi].
    assert (0 <= shr_m (Nat.iter k shr_1 mrs)).
    { rewrite IHm. apply Z.div_pos; [assumption | apply Z.pow_pos_nonneg; lia]. }
    rewrite shr_1_m, shr_1_inexact by assumption.
    rewrite IHm, IHi. rewrite Nat2Z.inj_succ, Z.pow_succ_r by lia.
    split.
    + rewrite Z.div_div by (try apply Z.pow_pos_nonneg; lia). f_equal; lia.
    + rewrite (Z.mul_comm 2). rewrite Z.rem_mul_r by (try apply Z.pow_nonzero; lia).
      set (a := shr_m mrs mod 2 ^ Z.of_nat k).
      set (q := shr_m mrs / 2 ^ Z.of_nat k).
      assert (0 <= a < 2 ^ Z.of_nat k) by (apply Z.mod_pos_bound, Z.pow_pos_nonneg; lia).
      assert (Hq : q mod 2 = 0 \/ q mod 2 = 1) by (pose proof (Z.mod_pos_bound q 2); lia).
      rewrite <- orb_assoc. f_equal.
      rewrite Zodd_mod.
      destruct Hq as [-> | ->]; simpl.
      * rewrite orb_false_r. f_equal. f_equal. lia.
      * rewrite orb_true_r. symmetry. apply negb_true_iff. apply Z.eqb_neq. nia.
Qed.

Lemma shr_spec mrs e n :
  0 <= shr_m mrs -> 0 <= n ->
  snd (shr mrs e n) = e + n /\
  shr_m (fst (shr mrs e n)) = shr_m mrs / 2 ^ n /\
  inexact (fst (shr mrs e n)) =
  inexact mrs || negb (shr_m mrs mod 2 ^ n =? 0).
Proof.
  intros Hm Hn. destruct n as [| p | p]; try lia; simpl.
  - rewrite Z.div_1_r, Z.mod_1_r. simpl. rewrite orb_false_r. split; [lia | auto].
  - rewrite iter_pos_nat.
    pose proof (shr_iter_spec (Pos.to_nat p) mrs Hm) as H. cbn zeta in H.
    rewrite positive_nat_Z in H. split; [reflexivity | exact H].
Qed.

Lemma shr_m_of_loc m l : shr_m (shr_record_of_loc m l) = m.
Proof. destruct l as [| []]; reflexivity. Qed.

Lemma inexact_of_loc m l : inexact (shr_record_of_loc m l) = negb (is_exact l).
Proof. destruct l as [| []]; reflexivity. Qed.

Lemma round_nearest_even_bounds mrs :
  shr_m mrs <= round_nearest_even (shr_m mrs) (loc_of_shr_record mrs) <= shr_m mrs + 1 /\
  (inexact mrs = false ->
   round_nearest_even (shr_m mrs) (loc_of_shr_record mrs) = shr_m mrs).
Proof.
  destruct mrs as [m [] []]; unfold inexact; simpl;
    try destruct (Z.even m); split; try lia; try discriminate; reflexivity.
Qed.

(** ** The order of dyadic numbers, in integers *)

Lemma pow2_pos n : 0 <= n -> 0 < 2 ^ n.
Proof. intros. apply Z.pow_pos_nonneg; lia. Qed.

Lemma pow2_split a b : 0 <= a -> 0 <= b -> 2 ^ (a + b) = 2 ^ a * 2 ^ b.
Proof. intros. apply Z.pow_add_r; assumption. Qed.

Lemma dle_scale k m1 e1 m2 e2 :
  k <= e1 -> k <= e2 ->
  dle m1 e1 m2 e2 <-> m1 * 2 ^ (e1 - k) <= m2 * 2 ^ (e2 - k).
Proof.
  intros H1 H2. unfold dle. set (k0 := Z.min e1 e2).
  assert (Hk : k <= k0) by (unfold k0; lia).
  replace (e1 - k) with ((e1 - k0) + (k0 - k)) by lia.
  replace (e2 - k) with ((e2 - k0) + (k0 - k)) by lia.
  rewrite !pow2_split by (unfold k0; lia).
  rewrite !Z.mul_assoc.
  pose proof (pow2_pos (k0 - k) ltac:(lia)) as Hp.
  split; intros H.
  - apply Z.mul_le_mono_nonneg_r; lia.
  - apply Z.mul_le_mono_pos_r in H; lia.
Qed.

Lemma dlt_scale k m1 e1 m2 e2 :
  k <= e1 -> k <= e2 ->
  dlt m1 e1 m2 e2 <-> m1 * 2 ^ (e1 - k) < m2 * 2 ^ (e2 - k).
Proof.
  intros H1 H2. unfold dlt. set (k0 := Z.min e1 e2).
  assert (Hk : k <= k0) by (unfold k0; lia).
  replace (e1 - k) with ((e1 - k0) + (k0 - k)) by lia.
  replace (e2 - k) with ((e2 - k0) + (k0 - k)) by lia.
  rewrite !pow2_split by (unfold k0; lia).
  rewrite !Z.mul_assoc.
  pose proof (pow2_pos (k0 - k) ltac:(lia)) as Hp.
  split; intros H.
  - apply Z.mul_lt_mono_pos_r; lia.
  - apply Z.mul_lt_mono_pos_r in H; lia.
Qed.

Lemma dle_at k m1 e1 m2 e2 :
  k <= e1 -> k <= e2 -> dle m1 e1 m2 e2 ->
  m1 * 2 ^ (e1 - k) <= m2 * 2 ^ (e2 - k).
Proof. intros H1 H2. apply (dle_scale k); assumption. Qed.

Lemma dle_from k m1 e1 m2 e2 :
  k <= e1 -> k <= e2 -> m1 * 2 ^ (e1 - k) <= m2 * 2 ^ (e2 - k) ->
  dle m1 e1 m2 e2.
Proof. intros H1 H2. apply (dle_scale k); assumption. Qed.

Lemma dlt_at k m1 e1 m2 e2 :
  k <= e1 -> k <= e2 -> dlt m1 e1 m2 e2 ->
  m1 * 2 ^ (e1 - k) < m2 * 2 ^ (e2 - k).
Proof. intros H1 H2. apply (dlt_scale k); assumption. Qed.

Lemma dlt_from k m1 e1 m2 e2 :
  k <= e1 -> k <= e2 -> m1 * 2 ^ (e1 - k) < m2 * 2 ^ (e2 - k) ->
  dlt m1 e1 m2 e2.
Proof. intros H1 H2. apply (dlt_scale k); assumption. Qed.

Lemma fexp_eq e : fexp e = Z.max (e - 53) (-1074).
Proof. reflexivity. Qed.

Lemma binary_round_aux_eq s m e l :
  binary_round_aux prec emax s m e l =
  let p1 := shr_fexp prec emax m e l in
  let m1 := round_nearest_even (shr_m (fst p1)) (loc_of_shr_record (fst p1)) in
  let p2 := shr_fexp prec emax m1 (snd p1) loc_Exact in
  match shr_m (fst p2) with
  | Z0 => S754_zero s
  | Zpos p => if snd p2 <=? emax - prec then S754_finite s p (snd p2)
              else S754_infinity s
  | Zneg _ => S754_nan
  end.
Proof.
  unfold binary_round_aux.
  destruct (shr_fexp prec emax m e l) as [mrs' e']. cbn [fst snd].
  destruct (shr_fexp prec emax _ e' loc_Exact) as [mrs'' e'']. reflexivity.
Qed.

(** ** The two stages of [binary_round_aux] *)
Lemma round_stage1 m e l :
  0 <= m -> e <= fexp (Zdigits2 m + e) ->
  let n := fexp (Zdigits2 m + e) - e in
  let p1 := shr_fexp prec emax m e l in
  let m1 := round_nearest_even (shr_m (fst p1)) (loc_of_shr_record (fst p1)) in
  snd p1 = fexp (Zdigits2 m + e) /\
  m / 2 ^ n <= m1 <= m / 2 ^ n + 1 /\
  (m1 = m / 2 ^ n + 1 -> is_exact l = false \/ m mod 2 ^ n <> 0).
Proof.
  intros Hm Hpre n p1 m1.
  assert (Hn : 0 <= n) by (unfold n; lia).
  pose proof (shr_spec (shr_record_of_loc m l) e n) as H.
  rewrite shr_m_of_loc, inexact_of_loc in H.
  specialize (H Hm Hn). destruct H as (He & Hm' & Hi).
  change (shr (shr_record_of_loc m l) e n) with p1 in He, Hm', Hi.
  pose proof (round_nearest_even_bounds (fst p1)) as [Hb Hex].
  fold m1 in Hb, Hex. rewrite Hm' in Hb, Hex.
  split; [unfold n in He; lia |]. split; [exact Hb |].
  intros H1.
  destruct (is_exact l) eqn:Hl; [right | left; reflexivity].
  intros Hmod. rewrite Hi in Hex. rewrite Hmod in Hex. simpl in Hex.
  specialize (Hex eq_refl). lia.
Qed.

Lemma shifted_out_exp m e :
  0 <= m -> e <= fexp (Zdigits2 m + e) ->
  m / 2 ^ (fexp (Zdigits2 m + e) - e) = 0 -> fexp (Zdigits2 m + e) = -1074.
Proof.
  intros Hm Hpre Hz.
  destruct (Z.eq_dec m 0) as [-> | Hm0].
  - simpl Zdigits2 in *. rewrite fexp_eq in *. lia.
  - assert (H : 0 < m) by lia.
    pose proof (Zdigits2_bounds m H) as [Hlo Hhi].
    set (E := fexp (Zdigits2 m + e)) in *.
    assert (Hn : 0 <= E - e) by lia.
    pose proof (pow2_pos _ Hn) as Hp.
    assert (m < 2 ^ (E - e)) by (apply Z.div_small_iff in Hz; lia).
    assert (Zdigits2 m - 1 < E - e) by (apply (Z.pow_lt_mono_r_iff 2); lia).
    unfold E in *. rewrite fexp_eq in *. lia.
Qed.

(** The exponent after the first shift is stable under rounding up. *)
Lemma round_stage1_exp m e m1 :
  0 <= m -> e <= fexp (Zdigits2 m + e) ->
  let E := fexp (Zdigits2 m + e) in
  m / 2 ^ (E - e) <= m1 -> 0 < m1 ->
  E <= fexp (Zdigits2 m1 + E) /\ (m / 2 ^ (E - e) = 0 -> E = -1074).
Proof.
  intros Hm Hpre E Hm1 Hpos.
  assert (Hn : 0 <= E - e) by (unfold E; lia).
  pose proof (pow2_pos _ Hn) as Hp.
  destruct (Z.eq_dec (m / 2 ^ (E - e)) 0) as [Hz | Hnz].
  - assert (HE : E = -1074).
    { destruct (Z.eq_dec m 0) as [-> | Hm0].
      - unfold E in *. simpl Zdigits2 in *. rewrite fexp_eq in *. lia.
      - assert (0 < m) by lia.
        pose proof (Zdigits2_bounds m H) as [Hlo Hhi].
        assert (m < 2 ^ (E - e)).
        { apply Z.div_small_iff in Hz; lia. }
        assert (Zdigits2 m - 1 < E - e).
        { apply (Z.pow_lt_mono_r_iff 2); lia. }
        unfold E in *. rewrite fexp_eq in *. lia. }
    split; [| auto]. rewrite HE. rewrite fexp_eq.
    pose proof (Zdigits2_pos m1 Hpos). lia.
  - split; [| contradiction].
    assert (0 < m / 2 ^ (E - e)).
    { pose proof (Z.div_pos m (2 ^ (E - e)) Hm Hp). lia. }
    assert (0 < m).
    { destruct (Z.eq_dec m 0) as [-> |]; [| lia]. rewrite Z.div_0_l in H; lia. }
    pose proof (Zdigits2_div m (E - e) H0 Hn H) as Hd.
    pose proof (Zdigits2_le _ _ H Hm1) as Hle.
    unfold E in *. rewrite !fexp_eq in *. lia.
Qed.

Lemma round_stage2 m1 E :
  0 <= m1 -> (0 < m1 -> E <= fexp (Zdigits2 m1 + E)) -> (m1 = 0 -> E = -1074) ->
  -1074 <= E ->
  let p2 := shr_fexp prec emax m1 E loc_Exact in
  let n2 := fexp (Zdigits2 m1 + E) - E in
  0 <= n2 /\ snd p2 = E + n2 /\ shr_m (fst p2) = m1 / 2 ^ n2 /\
  (0 < m1 -> 0 < m1 / 2 ^ n2 /\
             fexp (Zdigits2 (m1 / 2 ^ n2) + (E + n2)) = E + n2).
Proof.
  intros Hm Hpre Hz HE p2 n2.
  assert (Hn2 : 0 <= n2).
  { destruct (Z.eq_dec m1 0) as [-> | Hnz].
    - unfold n2. rewrite (Hz eq_refl). reflexivity.
    - unfold n2. specialize (Hpre ltac:(lia)). lia. }
  pose proof (shr_spec (shr_record_of_loc m1 loc_Exact) E n2) as H.
  rewrite shr_m_of_loc in H. specialize (H Hm Hn2).
  destruct H as (He & Hm' & _).
  split; [assumption |]. split; [exact He |]. split; [exact Hm' |].
  intros Hpos.
  destruct (Z.eq_dec n2 0) as [H0 | H0].
  - rewrite H0. rewrite Z.div_1_r, Z.add_0_r. split; [assumption |].
    unfold n2 in H0. lia.
  - assert (Hd : Zdigits2 m1 = 53 + n2).
    { unfold n2 in *. rewrite fexp_eq in *. lia. }
    pose proof (Zdigits2_bounds m1 Hpos) as [Hlo _]. rewrite Hd in Hlo.
    replace (53 + n2 - 1) with (52 + n2) in Hlo by lia.
    rewrite pow2_split in Hlo by lia.
    pose proof (pow2_pos n2 Hn2) as Hp.
    assert (Hq : 2 ^ 52 <= m1 / 2 ^ n2).
    { apply Z.div_le_lower_bound; lia. }
    assert (0 < m1 / 2 ^ n2) by lia.
    split; [assumption |].
    rewrite Zdigits2_div by assumption. rewrite Hd. rewrite fexp_eq.
    unfold n2 in *. rewrite fexp_eq in *. lia.
Qed.

Lemma binary_round_aux_spec s m e l :
  0 <= m -> e <= fexp (Zdigits2 m + e) ->
  exists m2 e2,
    binary_round_aux prec emax s m e l = round_result s m2 e2 /\
    0 <= m2 /\ e <= e2 /\ -1074 <= e2 /\
    (0 < m2 -> fexp (Zdigits2 m2 + e2) = e2) /\
    (forall c eB, 0 <= c < 2 ^ 53 -> -1074 <= eB ->
       dle m e c eB -> (is_exact l = false -> dlt m e c eB) ->
       e2 <= eB /\ m2 <= c * 2 ^ (eB - e2)) /\
    (forall c eB, 0 <= c < 2 ^ 53 -> -1074 <= eB ->
       dlt c eB (m + 1) e -> dle c eB m2 e2).
Proof.
  intros Hm Hpre.
  pose proof (round_stage1 m e l Hm Hpre) as H1. cbn zeta in H1.
  set (E := fexp (Zdigits2 m + e)) in *.
  set (p1 := shr_fexp prec emax m e l) in *.
  set (m1 := round_nearest_even (shr_m (fst p1)) (loc_of_shr_record (fst p1))) in *.
  set (n := E - e) in *.
  destruct H1 as (HE & Hb & Hup).
  assert (Hn : 0 <= n) by (unfold n, E in *; lia).
  pose proof (pow2_pos n Hn) as Hpn.
  assert (Hm' : 0 <= m / 2 ^ n) by (apply Z.div_pos; lia).
  assert (Hm1 : 0 <= m1) by lia.
  assert (HEmin : -1074 <= E) by (unfold E; rewrite fexp_eq; lia).
  assert (Hexp : 0 < m1 -> E <= fexp (Zdigits2 m1 + E) /\ (m / 2 ^ n = 0 -> E = -1074)).
  { intros Hp. apply (round_stage1_exp m e m1 Hm Hpre); [apply Hb | assumption]. }
  assert (Hz : m1 = 0 -> E = -1074).
  { intros H0. apply (shifted_out_exp m e Hm Hpre). fold E. fold n. lia. }
  pose proof (round_stage2 m1 E Hm1 (fun Hp => proj1 (Hexp Hp)) Hz HEmin) as H2.
  cbn zeta in H2.
  set (n2 := fexp (Zdigits2 m1 + E) - E) in *.
  destruct H2 as (Hn2 & He2 & Hm2 & Hcan).
  pose proof (pow2_pos n2 Hn2) as Hpn2.
  exists (m1 / 2 ^ n2), (E + n2).
  split.
  { rewrite binary_round_aux_eq. cbn zeta. fold p1. fold m1. rewrite HE.
    rewrite He2, Hm2. reflexivity. }
  split; [apply Z.div_pos; lia |].
  split; [unfold n in *; lia |].
  split; [lia |].
  split.
  { intros Hp. assert (0 < m1).
    { destruct (Z.eq_dec m1 0) as [H0 |]; [| lia]. rewrite H0, Z.div_0_l in Hp; lia. }
    apply Hcan; assumption. }
  split.
  - (* upper bounds *)
    intros c eB Hc HeB Hle Hlt.
    assert (HEB : E <= eB).
    { destruct (Z.eq_dec m 0) as [Hm0 | Hm0].
      - assert (HE0 : E = -1074); [| lia].
        apply (shifted_out_exp m e Hm Hpre). change (m / 2 ^ n = 0).
        rewrite Hm0. apply Z.div_0_l. lia.
      - assert (Hmp : 0 < m) by lia.
        destruct (Z.le_gt_cases E eB) as [|Hgt]; [assumption | exfalso].
        pose proof (Zdigits2_bounds m Hmp) as [Hlo Hhi].
        assert (HEd : E = Zdigits2 m + e - 53) by (unfold E in *; rewrite fexp_eq in *; lia).
        apply (dle_at (Z.min e eB)) in Hle; try lia.
        set (k := Z.min e eB) in *.
        assert (c * 2 ^ (eB - k) < 2 ^ 53 * 2 ^ (eB - k)).
        { apply Z.mul_lt_mono_pos_r; [apply pow2_pos; unfold k; lia | lia]. }
        rewrite <- pow2_split in H by (unfold k; lia).
        assert (2 ^ (53 + (eB - k)) <= 2 ^ ((Zdigits2 m - 1) + (e - k))).
        { apply Z.pow_le_mono_r; lia. }
        rewrite (pow2_split (Zdigits2 m - 1) (e - k)) in H0;
          [| pose proof (Zdigits2_pos m Hmp); lia | unfold k; lia].
        assert (2 ^ (Zdigits2 m - 1) * 2 ^ (e - k) <= m * 2 ^ (e - k)).
        { apply Z.mul_le_mono_nonneg_r; [apply Z.lt_le_incl, pow2_pos; unfold k; lia | lia]. }
        lia. }
    (* at scale e *)
    apply (dle_at e) in Hle; try lia.
    rewrite Z.sub_diag, Z.mul_1_r in Hle.
    assert (Hlt' : is_exact l = false -> m < c * 2 ^ (eB - e)).
    { intros Hx. specialize (Hlt Hx). apply (dlt_at e) in Hlt; try lia.
      now rewrite Z.sub_diag, Z.mul_1_r in Hlt. }
    replace (eB - e) with ((eB - E) + n) in Hle, Hlt' by (unfold n; lia).
    rewrite pow2_split in Hle, Hlt' by lia.
    set (C := c * 2 ^ (eB - E)) in *.
    rewrite Z.mul_assoc in Hle, Hlt'. fold C in Hle, Hlt'.
    assert (HC1 : m1 <= C).
    { assert (m / 2 ^ n <= C).
      { apply Z.div_le_upper_bound; lia. }
      destruct (Z.eq_dec m1 (m / 2 ^ n + 1)) as [Heq | Hne]; [| lia].
      destruct (Hup Heq) as [Hx | Hmod].
      - specialize (Hlt' Hx).
        assert (m / 2 ^ n < C); [| lia].
        apply Z.div_lt_upper_bound; lia.
      - pose proof (Z.div_mod m (2 ^ n) ltac:(lia)) as Hdm.
        pose proof (Z.mod_pos_bound m (2 ^ n) Hpn).
        assert (m / 2 ^ n < C); [| lia]. nia. }
    destruct (Z.eq_dec n2 0) as [H0 | H0].
    + rewrite H0, Z.div_1_r, Z.add_0_r. split; [assumption | exact HC1].
    + assert (Hd : Zdigits2 m1 = 53 + n2).
      { unfold n2 in *. rewrite fexp_eq in *. lia. }
      assert (Hp1 : 0 < m1).
      { destruct (Z.eq_dec m1 0) as [H10 |]; [| lia]. exfalso.
        apply H0. unfold n2. rewrite H10, (Hz H10). reflexivity. }
      pose proof (Zdigits2_bounds m1 Hp1) as [Hlo _]. rewrite Hd in Hlo.
      assert (HCb : C < 2 ^ 53 * 2 ^ (eB - E)).
      { unfold C. apply Z.mul_lt_mono_pos_r; [apply pow2_pos; lia | lia]. }
      rewrite <- pow2_split in HCb by lia.
      assert (53 + n2 - 1 < 53 + (eB - E)).
      { apply (Z.pow_lt_mono_r_iff 2); lia. }
      split; [lia |].
      apply Z.div_le_upper_bound; [lia |].
      assert (Hsp : 2 ^ (eB - E) = 2 ^ (eB - (E + n2)) * 2 ^ n2).
      { rewrite <- pow2_split by lia. f_equal. lia. }
      unfold C in HC1. rewrite Hsp in HC1. lia.
  - (* lower bounds *)
    intros c eB Hc HeB Hlt.
    destruct (Z.le_gt_cases (E + n2) eB) as [Hge | Hlow].
    + apply (dle_from (E + n2)); try lia.
      rewrite Z.sub_diag, Z.mul_1_r.
      apply (dlt_at e) in Hlt; try (unfold n in *; lia).
      rewrite Z.sub_diag, Z.mul_1_r in Hlt.
      replace (eB - e) with ((eB - (E + n2)) + (n + n2)) in Hlt by (unfold n; lia).
      rewrite pow2_split in Hlt by lia.
      set (C := c * 2 ^ (eB - (E + n2))) in *.
      rewrite Z.mul_assoc in Hlt. fold C in Hlt.
      assert (C * 2 ^ (n + n2) <= m) by lia.
      assert (C <= m / 2 ^ (n + n2)).
      { apply Z.div_le_lower_bound; [apply pow2_pos; lia | lia]. }
      rewrite pow2_split in H0 by lia.
      rewrite <- Z.div_div in H0 by lia.
      assert (m / 2 ^ n / 2 ^ n2 <= m1 / 2 ^ n2).
      { apply Z.div_le_mono; lia. }
      lia.
    + assert (Hp1 : 0 < m1).
      { destruct (Z.eq_dec m1 0) as [H10 |]; [| lia]. exfalso.
        pose proof (Hz H10) as HE10.
        assert (Hn20 : n2 = 0) by (unfold n2; rewrite H10, HE10; reflexivity).
        lia. }
      destruct (Hcan Hp1) as [Hq Hc2].
      assert (Hd2 : Zdigits2 (m1 / 2 ^ n2) = 53) by (rewrite fexp_eq in Hc2; lia).
      pose proof (Zdigits2_bounds _ Hq) as [Hlo _]. rewrite Hd2 in Hlo.
      apply (dle_from eB); try lia.
      rewrite Z.sub_diag, Z.mul_1_r.
      assert (2 ^ 1 <= 2 ^ (E + n2 - eB)) by (apply Z.pow_le_mono_r; lia).
      change (2 ^ (53 - 1)) with (2 ^ 52) in Hlo.
      change (2 ^ 1) with 2 in H.
      nia.
Qed.

(** * Values in Q *)
Local Open Scope Q_scope.

Lemma bpow_pos e : 0 < Qpower 2 e.
Proof. apply Qpower_0_lt. reflexivity. Qed.

Lemma bpow_add a b : Qpower 2 (a + b) == Qpower 2 a * Qpower 2 b.
Proof. apply Qpower_plus. discriminate. Qed.

Lemma bpow_Z n : (0 <= n)%Z -> Qpower 2 n == inject_Z (2 ^ n).
Proof. intros H. rewrite Zpower_Qpower by assumption. reflexivity. Qed.

Lemma dyadic_scale k m e :
  (k <= e)%Z -> dyadic m e == inject_Z (m * 2 ^ (e - k)) * Qpower 2 k.
Proof.
  intros H. unfold dyadic.
  replace e with ((e - k) + k)%Z at 1 by lia.
  rewrite bpow_add, bpow_Z by lia. rewrite inject_Z_mult. ring.
Qed.

Lemma dle_Qle m1 e1 m2 e2 : dle m1 e1 m2 e2 <-> dyadic m1 e1 <= dyadic m2 e2.
Proof.
  unfold dle. set (k := Z.min e1 e2).
  rewrite (dyadic_scale k m1 e1), (dyadic_scale k m2 e2) by (unfold k; lia).
  pose proof (bpow_pos k) as Hp.
  rewrite Zle_Qle. split; intros H.
  - apply Qmult_le_compat_r; [assumption | apply Qlt_le_weak; assumption].
  - apply Qmult_le_r in H; assumption.
Qed.

Lemma dlt_Qlt m1 e1 m2 e2 : dlt m1 e1 m2 e2 <-> dyadic m1 e1 < dyadic m2 e2.
Proof.
  unfold dlt. set (k := Z.min e1 e2).
  rewrite (dyadic_scale k m1 e1), (dyadic_scale k m2 e2) by (unfold k; lia).
  pose proof (bpow_pos k) as Hp.
  rewrite Zlt_Qlt. split; intros H.
  - apply Qmult_lt_compat_r; assumption.
  - apply Qmult_lt_r in H; assumption.
Qed.

Lemma dyadic_0 e : dyadic 0 e == 0.
Proof. unfold dyadic. ring. Qed.

Lemma dyadic_mult m1 e1 m2 e2 :
  dyadic m1 e1 * dyadic m2 e2 == dyadic (m1 * m2) (e1 + e2).
Proof. unfold dyadic. rewrite bpow_add, inject_Z_mult. ring. Qed.

Lemma dyadic_plus m1 m2 e :
  dyadic m1 e + dyadic m2 e == dyadic (m1 + m2) e.
Proof. unfold dyadic. rewrite inject_Z_plus. ring. Qed.

Lemma dyadic_shift m e k :
  (0 <= k)%Z -> dyadic (m * 2 ^ k) (e - k) == dyadic m e.
Proof.
  intros H. unfold dyadic. rewrite inject_Z_mult, <- bpow_Z by assumption.
  rewrite <- Qmult_assoc, <- bpow_add. replace (k + (e - k))%Z with e by lia.
  reflexivity.
Qed.

Lemma dyadic_nonneg m e : (0 <= m)%Z -> 0 <= dyadic m e.
Proof.
  intros H. unfold dyadic. apply Qmult_le_0_compat.
  - rewrite Zle_Qle in H. exact H.
  - apply Qlt_le_weak, bpow_pos.
Qed.

Lemma dyadic_Z z : dyadic z 0 == inject_Z z.
Proof. unfold dyadic. simpl. ring. Qed.


(** Rounding the magnitude [x], bracketed by [m * 2^e] and [(m+1) * 2^e]:
    the result is in canonical form and stays on the same side of every
    representable number as [x]. *)
Theorem round_correct s m e l (x : Q) :
  (0 <= m)%Z -> (e <= fexp (Zdigits2 m + e))%Z ->
  dyadic m e <= x -> x < dyadic (m + 1) e ->
  (is_exact l = false -> dyadic m e < x) ->
  exists m2 e2,
    binary_round_aux prec emax s m e l = round_result s m2 e2 /\
    (0 <= m2)%Z /\ (-1074 <= e2)%Z /\
    ((0 < m2)%Z -> fexp (Zdigits2 m2 + e2) = e2) /\
    forall lo hi,
      representable lo -> representable hi -> lo <= x -> x <= hi ->
      (e2 <= 971)%Z /\ lo <= dyadic m2 e2 <= hi.
Proof.
  intros Hm Hpre Hx1 Hx2 Hinex.
  destruct (binary_round_aux_spec s m e l Hm Hpre)
    as (m2 & e2 & Heq & Hm2 & Hee2 & He2 & Hcan & HUB & HLB).
  exists m2, e2.
  split; [assumption |]. split; [assumption |]. split; [lia |].
  split; [assumption |].
  intros lo hi (cl & el & Hcl & Hel & Hlo) (ch & eh & Hch & Heh & Hhi) Hlox Hxhi.
  assert (Hdle : dle m e ch eh).
  { apply dle_Qle. rewrite <- Hhi. eapply Qle_trans; eassumption. }
  assert (Hdlt : is_exact l = false -> dlt m e ch eh).
  { intros Hl. apply dlt_Qlt. rewrite <- Hhi.
    eapply Qlt_le_trans; [apply Hinex, Hl | assumption]. }
  destruct (HUB ch eh Hch (proj1 Heh) Hdle Hdlt) as [HeB Hmc].
  assert (Hl : dle cl el m2 e2).
  { apply HLB; [assumption | lia |]. apply dlt_Qlt. rewrite <- Hlo.
    eapply Qle_lt_trans; eassumption. }
  split; [lia |]. split.
  - rewrite Hlo. apply dle_Qle. assumption.
  - rewrite Hhi. apply dle_Qle. apply (dle_from e2); [lia | lia |].
    rewrite Z.sub_diag, Z.mul_1_r. assumption.
Qed.

Lemma round_correct_exact s m e :
  (0 <= m)%Z -> (e <= fexp (Zdigits2 m + e))%Z ->
  exists m2 e2,
    binary_round_aux prec emax s m e loc_Exact = round_result s m2 e2 /\
    (0 <= m2)%Z /\ (-1074 <= e2)%Z /\
    ((0 < m2)%Z -> fexp (Zdigits2 m2 + e2) = e2) /\
    forall lo hi,
      representable lo -> representable hi ->
      lo <= dyadic m e -> dyadic m e <= hi ->
      (e2 <= 971)%Z /\ lo <= dyadic m2 e2 <= hi.
Proof.
  intros Hm Hpre.
  apply (round_correct s m e loc_Exact (dyadic m e)); try assumption.
  - apply Qle_refl.
  - apply dlt_Qlt. apply (dlt_from e); lia.
  - discriminate.
Qed.

(** * Operations *)
Local Open Scope Z_scope.

Lemma F2Q_finite s m e :
  Binary64.F2Q (S754_finite s m e) = dyadic (cond_Zopp s (Zpos m)) e.
Proof. reflexivity. Qed.

Lemma pos_iter_xO m d : Zpos (Pos.iter xO m d) = Zpos m * 2 ^ Zpos d.
Proof.
  induction d as [| d IH] using Pos.peano_ind.
  - simpl. lia.
  - rewrite Pos.iter_succ, Pos2Z.inj_succ, Z.pow_succ_r by lia.
    rewrite Pos2Z.inj_xO, IH. lia.
Qed.

Lemma shl_align_spec mx ex ex' :
  snd (shl_align mx ex ex') = Z.min ex ex' /\
  Zpos (fst (shl_align mx ex ex')) = Zpos mx * 2 ^ (ex - Z.min ex ex').
Proof.
  unfold shl_align. destruct (ex' - ex) as [| d | d] eqn:Hd; cbn [fst snd].
  - replace (Z.min ex ex') with ex by lia. rewrite Z.sub_diag. split; lia.
  - replace (Z.min ex ex') with ex by lia. rewrite Z.sub_diag. split; lia.
  - replace (Z.min ex ex') with ex' by lia. split; [reflexivity |].
    rewrite pos_iter_xO. f_equal. f_equal. lia.
Qed.

Lemma Zdigits2_mul_pow2 m k :
  0 < m -> 0 <= k -> Zdigits2 (m * 2 ^ k) = Zdigits2 m + k.
Proof.
  intros Hm Hk. pose proof (pow2_pos k Hk).
  rewrite !Zdigits2_log2 by nia.
  rewrite Z.log2_mul_pow2 by lia. lia.
Qed.

Lemma binary_round_eq s mx ex :
  exists mz ez,
    binary_round prec emax s mx ex =
    binary_round_aux prec emax s (Zpos mz) ez loc_Exact /\
    ez <= fexp (Zdigits2 (Zpos mz) + ez) /\
    ez <= ex /\ Zpos mz = Zpos mx * 2 ^ (ex - ez).
Proof.
  unfold binary_round.
  pose proof (shl_align_spec mx ex (fexp (Zpos (digits2_pos mx) + ex))) as [He Hm].
  destruct (shl_align mx ex _) as [mz ez]. cbn [fst snd] in *.
  exists mz, ez. split; [reflexivity |].
  change (Zpos (digits2_pos mx)) with (Zdigits2 (Zpos mx)) in *.
  set (E := fexp (Zdigits2 (Zpos mx) + ex)) in *.
  rewrite <- He in Hm.
  split; [| split; [lia | assumption]].
  rewrite Hm. rewrite Zdigits2_mul_pow2 by lia.
  replace (Zdigits2 (Z.pos mx) + (ex - ez) + ez) with (Zdigits2 (Z.pos mx) + ex) by lia.
  fold E. lia.
Qed.

Lemma round_result_valid s m2 e2 :
  0 <= m2 -> (0 < m2 -> fexp (Zdigits2 m2 + e2) = e2) ->
  valid_binary prec emax (round_result s m2 e2) = true /\
  (round_result s m2 e2 = S754_zero s \/
   round_result s m2 e2 = S754_infinity s \/
   exists p, m2 = Zpos p /\ e2 <= 971 /\
             round_result s m2 e2 = S754_finite s p e2).
Proof.
  intros Hm Hcan. destruct m2 as [| p | p]; try lia; cbn [round_result].
  - split; [reflexivity | left; reflexivity].
  - destruct (Z.leb_spec e2 (1024 - 53)) as [Hle | Hgt].
    + split.
      * cbn [valid_binary]. unfold bounded, canonical_mantissa.
        apply andb_true_iff. split.
        -- apply Z.eqb_eq. apply (Hcan ltac:(lia)).
        -- apply Z.leb_le. assumption.
      * right; right. exists p. split; [reflexivity | split; [lia | reflexivity]].
    + split; [reflexivity | right; left; reflexivity].
Qed.

Lemma round_result_bounded m2 e2 lo hi :
  0 <= m2 -> -1074 <= e2 <= 971 ->
  (0 < m2 -> fexp (Zdigits2 m2 + e2) = e2) ->
  (lo <= dyadic m2 e2 <= hi)%Q ->
  bounded_float lo hi (round_result false m2 e2).
Proof.
  intros Hm He Hcan Hb.
  destruct (round_result_valid false m2 e2 Hm Hcan) as [Hv Hshape].
  split; [assumption |].
  destruct m2 as [| p | p]; try lia; cbn [round_result] in *.
  - split; [reflexivity |]. cbn [Binary64.F2Q]. rewrite dyadic_0 in Hb. assumption.
  - destruct (Z.leb_spec e2 (1024 - 53)); [| lia].
    split; [reflexivity | exact Hb].
Qed.

Lemma binary_round_correct s mx ex :
  exists m2 e2,
    binary_round prec emax s mx ex = round_result s m2 e2 /\
    0 <= m2 /\ -1074 <= e2 /\
    (0 < m2 -> fexp (Zdigits2 m2 + e2) = e2) /\
    forall lo hi,
      representable lo -> representable hi ->
      (lo <= dyadic (Zpos mx) ex)%Q -> (dyadic (Zpos mx) ex <= hi)%Q ->
      e2 <= 971 /\ (lo <= dyadic m2 e2 <= hi)%Q.
Proof.
  destruct (binary_round_eq s mx ex) as (mz & ez & -> & Hpre & Hez & Hmz).
  assert (Hval : (dyadic (Zpos mz) ez == dyadic (Zpos mx) ex)%Q).
  { rewrite Hmz. replace ez with (ex - (ex - ez)) at 2 by lia.
    apply dyadic_shift. lia. }
  destruct (round_correct_exact s (Zpos mz) ez ltac:(lia) Hpre)
    as (m2 & e2 & Heq & Hm2 & He2 & Hcan & Hb).
  exists m2, e2. repeat (split; [assumption |]).
  intros lo hi Hlo Hhi H1 H2. apply Hb; try assumption; rewrite Hval; assumption.
Qed.

Lemma binary_round_between mx ex lo hi :
  representable lo -> representable hi ->
  (lo <= dyadic (Zpos mx) ex <= hi)%Q ->
  bounded_float lo hi (binary_round prec emax false mx ex).
Proof.
  intros Hlo Hhi [H1 H2].
  destruct (binary_round_correct false mx ex)
    as (m2 & e2 & -> & Hm2 & He2 & Hcan & Hb).
  destruct (Hb lo hi Hlo Hhi H1 H2) as [He Hbb].
  apply round_result_bounded; try assumption. lia.
Qed.

Lemma binary_round_valid s mx ex :
  valid_binary prec emax (binary_round prec emax s mx ex) = true /\
  (binary_round prec emax s mx ex = S754_zero s \/
   binary_round prec emax s mx ex = S754_infinity s \/
   exists p e, binary_round prec emax s mx ex = S754_finite s p e).
Proof.
  destruct (binary_round_eq s mx ex) as (mz & ez & -> & Hpre & Hez & Hmz).
  destruct (binary_round_aux_spec s (Zpos mz) ez loc_Exact ltac:(lia) Hpre)
    as (m2 & e2 & -> & Hm2 & _ & _ & Hcan & _).
  destruct (round_result_valid s m2 e2 Hm2 Hcan) as [Hv [H | [H | (p & _ & _ & H)]]];
    (split; [assumption |]); rewrite H; eauto.
Qed.

(** ** Validity and sign *)

Lemma valid_canonical s m e :
  valid (S754_finite s m e) ->
  fexp (Zdigits2 (Zpos m) + e) = e /\ e <= 971.
Proof.
  unfold valid. cbn [valid_binary]. unfold bounded, canonical_mantissa.
  intros H. apply andb_true_iff in H. destruct H as [H1 H2].
  apply Z.eqb_eq in H1. apply Z.leb_le in H2. split; [exact H1 | exact H2].
Qed.

Lemma Zdigits2_pow2 k : 0 <= k -> Zdigits2 (2 ^ k) = k + 1.
Proof.
  intros H. rewrite Zdigits2_log2 by (apply pow2_pos; assumption).
  rewrite Z.log2_pow2 by assumption. reflexivity.
Qed.

Lemma mul_precondition mx ex my ey :
  fexp (Zdigits2 (Zpos mx) + ex) = ex -> fexp (Zdigits2 (Zpos my) + ey) = ey ->
  ex + ey <= fexp (Zdigits2 (Zpos (mx * my)) + (ex + ey)).
Proof.
  intros Hx Hy.
  pose proof (Zdigits2_bounds (Zpos mx) ltac:(lia)) as [Hx1 _].
  pose proof (Zdigits2_bounds (Zpos my) ltac:(lia)) as [Hy1 _].
  pose proof (Zdigits2_pos (Zpos mx) ltac:(lia)) as Hdx.
  pose proof (Zdigits2_pos (Zpos my) ltac:(lia)) as Hdy.
  set (dx := Zdigits2 (Zpos mx)) in *. set (dy := Zdigits2 (Zpos my)) in *.
  assert (Hd : dx + dy - 1 <= Zdigits2 (Zpos (mx * my))).
  { assert (HP : 2 ^ (dx - 1 + (dy - 1)) <= Zpos (mx * my)).
    { rewrite pow2_split by lia. rewrite Pos2Z.inj_mul.
      apply Z.mul_le_mono_nonneg; try lia; apply Z.lt_le_incl, pow2_pos; lia. }
    pose proof (Zdigits2_le _ _ (pow2_pos (dx - 1 + (dy - 1)) ltac:(lia)) HP) as H.
    rewrite Zdigits2_pow2 in H by lia. lia. }
  rewrite fexp_eq in *. lia.
Qed.

Lemma mul_finite sx mx ex sy my ey :
  valid (S754_finite sx mx ex) -> valid (S754_finite sy my ey) ->
  exists m2 e2,
    Binary64.mul (S754_finite sx mx ex) (S754_finite sy my ey) =
    round_result (xorb sx sy) m2 e2 /\
    0 <= m2 /\ -1074 <= e2 /\
    (0 < m2 -> fexp (Zdigits2 m2 + e2) = e2) /\
    forall lo hi,
      representable lo -> representable hi ->
      (lo <= dyadic (Zpos mx) ex * dyadic (Zpos my) ey)%Q ->
      (dyadic (Zpos mx) ex * dyadic (Zpos my) ey <= hi)%Q ->
      e2 <= 971 /\ (lo <= dyadic m2 e2 <= hi)%Q.
Proof.
  intros Hvx Hvy.
  destruct (valid_canonical _ _ _ Hvx) as [Hcx _].
  destruct (valid_canonical _ _ _ Hvy) as [Hcy _].
  pose proof (mul_precondition mx ex my ey Hcx Hcy) as Hpre.
  unfold Binary64.mul, SFmul.
  destruct (round_correct_exact (xorb sx sy) (Zpos (mx * my)) (ex + ey)
              ltac:(lia) Hpre)
    as (m2 & e2 & Heq & Hm2 & He2 & Hcan & Hb).
  exists m2, e2. repeat (split; [assumption |]).
  intros lo hi Hlo Hhi H1 H2.
  rewrite dyadic_mult, <- Pos2Z.inj_mul in H1, H2.
  apply Hb; assumption.
Qed.

(** ** Division *)

Lemma new_location_exact nb r : is_exact (new_location nb r) = (r =? 0).
Proof.
  unfold new_location, new_location_even, new_location_odd.
  destruct (Z.even nb); destruct (r =? 0); reflexivity.
Qed.

Lemma dyadic_le_mono m1 m2 e : m1 <= m2 -> (dyadic m1 e <= dyadic m2 e)%Q.
Proof.
  intros H. apply dle_Qle. apply (dle_from e); try lia.
  rewrite Z.sub_diag, !Z.mul_1_r. assumption.
Qed.

Lemma dyadic_lt_mono m1 m2 e : m1 < m2 -> (dyadic m1 e < dyadic m2 e)%Q.
Proof.
  intros H. apply dlt_Qlt. apply (dlt_from e); try lia.
  rewrite Z.sub_diag, !Z.mul_1_r. assumption.
Qed.

Lemma dyadic_pos m e : 0 < m -> (0 < dyadic m e)%Q.
Proof.
  intros H. unfold dyadic. apply Qmult_lt_0_compat.
  - rewrite Zlt_Qlt in H. exact H.
  - apply bpow_pos.
Qed.

Lemma div_core mx ex my ey :
  let x := (dyadic (Zpos mx) ex / dyadic (Zpos my) ey)%Q in
  let c := SFdiv_core_binary prec emax (Zpos mx) ex (Zpos my) ey in
  let q := fst (fst c) in
  let e' := snd (fst c) in
  0 <= q /\ e' <= fexp (Zdigits2 q + e') /\
  (dyadic q e' <= x)%Q /\ (x < dyadic (q + 1) e')%Q /\
  (is_exact (snd c) = false -> (dyadic q e' < x)%Q).
Proof.
  intros x c q e'.
  unfold SFdiv_core_binary in c.
  set (d1 := Zdigits2 (Zpos mx)) in *. set (d2 := Zdigits2 (Zpos my)) in *.
  set (E := Z.min (fexp (d1 + ex - (d2 + ey))) (ex - ey)) in *.
  set (s := ex - ey - E) in *.
  assert (Hs : 0 <= s) by (unfold s, E; lia).
  set (m' := match s with
             | 0 => Zpos mx | Zpos _ => Z.shiftl (Zpos mx) s | Zneg _ => 0
             end) in *.
  assert (Hm' : m' = Zpos mx * 2 ^ s).
  { unfold m'. destruct s as [| p | p] eqn:Hsp; try lia.
    rewrite Z.shiftl_mul_pow2 by lia. reflexivity. }
  pose proof (Z.div_eucl_eq m' (Zpos my) ltac:(lia)) as Heq.
  pose proof (Z.mod_pos_bound m' (Zpos my) ltac:(lia)) as Hr.
  unfold Z.modulo in Hr.
  destruct (Z.div_eucl m' (Zpos my)) as [q0 r] eqn:Hdiv.
  cbn [fst snd] in *. subst c. cbn [fst snd] in q, e'. subst q e'.
  pose proof (pow2_pos s Hs) as Hps.
  assert (Hm'pos : 0 < m') by nia.
  assert (Hq0 : 0 <= q0) by nia.
  (* the exact quotient *)
  assert (Hx : (x * inject_Z (Zpos my) == dyadic m' E)%Q).
  { unfold x, dyadic. rewrite Hm', inject_Z_mult, <- (bpow_Z s) by lia.
    replace ex with (s + (ey + E)) at 1 by (unfold s; lia).
    rewrite !bpow_add.
    pose proof (bpow_pos ey) as Hpe.
    field. split.
    - intros H0. rewrite H0 in Hpe. apply (Qlt_irrefl 0). exact Hpe.
    - discriminate. }
  assert (Hmy : (0 < inject_Z (Zpos my))%Q) by reflexivity.
  assert (Hxe : (dyadic q0 E * inject_Z (Zpos my) == dyadic (q0 * Zpos my) E)%Q).
  { unfold dyadic. rewrite inject_Z_mult. ring. }
  assert (Hxe1 : (dyadic (q0 + 1) E * inject_Z (Zpos my) ==
                  dyadic ((q0 + 1) * Zpos my) E)%Q).
  { unfold dyadic. rewrite inject_Z_mult. ring. }
  split; [assumption |]. split.
  { (* precision of the quotient *)
    destruct (Z.le_gt_cases E (-1074)) as [Hlow | Hhigh].
    - rewrite fexp_eq. lia.
    - assert (HD : E <= d1 + ex - (d2 + ey) - 53).
      { unfold E in *. rewrite fexp_eq in *. lia. }
      pose proof (Zdigits2_bounds (Zpos mx) ltac:(lia)) as [Hx1 _].
      pose proof (Zdigits2_bounds (Zpos my) ltac:(lia)) as [_ Hy2].
      fold d1 in Hx1. fold d2 in Hy2.
      pose proof (Zdigits2_pos (Zpos mx) ltac:(lia)) as Hd1.
      pose proof (Zdigits2_pos (Zpos my) ltac:(lia)) as Hd2.
      fold d1 in Hd1. fold d2 in Hd2.
      set (k := d1 + s - d2 - 1).
      assert (Hk : 52 <= k) by (unfold k, s; lia).
      assert (Hqk : 2 ^ k <= q0).
      { assert (2 ^ k * 2 ^ d2 <= m').
        { rewrite <- pow2_split by lia.
          replace (k + d2) with ((d1 - 1) + s) by (unfold k; lia).
          rewrite pow2_split by lia. rewrite Hm'.
          apply Z.mul_le_mono_nonneg_r; lia. }
        pose proof (pow2_pos k ltac:(lia)).
        assert (2 ^ k * Zpos my < Zpos my * q0 + Zpos my) by nia.
        nia. }
      pose proof (Zdigits2_le _ _ (pow2_pos k ltac:(lia)) Hqk) as Hdq.
      rewrite Zdigits2_pow2 in Hdq by lia.
      rewrite fexp_eq. unfold k, s in *. lia. }
  split.
  { apply (Qmult_le_r _ _ _ Hmy). rewrite Hx, Hxe. apply dyadic_le_mono. lia. }
  split.
  { apply (Qmult_lt_r _ _ _ Hmy). rewrite Hx, Hxe1. apply dyadic_lt_mono. lia. }
  intros Hl. cbn [fst snd] in Hl. rewrite new_location_exact in Hl.
  apply Z.eqb_neq in Hl.
  apply (Qmult_lt_r _ _ _ Hmy). rewrite Hx, Hxe. apply dyadic_lt_mono. lia.
Qed.

Lemma div_finite sx mx ex sy my ey :
  exists m2 e2,
    Binary64.div (S754_finite sx mx ex) (S754_finite sy my ey) =
    round_result (xorb sx sy) m2 e2 /\
    0 <= m2 /\ -1074 <= e2 /\
    (0 < m2 -> fexp (Zdigits2 m2 + e2) = e2) /\
    forall lo hi,
      representable lo -> representable hi ->
      (lo <= dyadic (Zpos mx) ex / dyadic (Zpos my) ey)%Q ->
      (dyadic (Zpos mx) ex / dyadic (Zpos my) ey <= hi)%Q ->
      e2 <= 971 /\ (lo <= dyadic m2 e2 <= hi)%Q.
Proof.
  pose proof (div_core mx ex my ey) as H. cbn zeta in H.
  unfold Binary64.div, SFdiv, Binary64.prec, Binary64.emax.
  destruct (SFdiv_core_binary prec emax (Zpos mx) ex (Zpos my) ey) as [[q e'] l].
  cbn [fst snd] in H. destruct H as (Hq & Hpre & H1 & H2 & H3).
  apply (round_correct (xorb sx sy) q e' l _ Hq Hpre H1 H2 H3).
Qed.

(** ** Addition and subtraction *)

Lemma aligned_value m e ez :
  ez <= e -> (dyadic (m * 2 ^ (e - ez)) ez == dyadic m e)%Q.
Proof.
  intros H. replace ez with (e - (e - ez)) at 2 by lia.
  apply dyadic_shift. lia.
Qed.

Lemma F2Q_dyadic s m e :
  (Binary64.F2Q (S754_finite s m e) == dyadic (cond_Zopp s (Zpos m)) e)%Q.
Proof. reflexivity. Qed.

Lemma dyadic_signed s m e :
  (dyadic (cond_Zopp s m) e == sign_factor s * dyadic m e)%Q.
Proof.
  destruct s; cbn [cond_Zopp sign_factor]; unfold dyadic.
  - rewrite inject_Z_opp. ring.
  - ring.
Qed.

Lemma add_finite sx mx ex sy my ey :
  exists z,
    Binary64.add (S754_finite sx mx ex) (S754_finite sy my ey) =
    binary_normalize prec emax z (Z.min ex ey) false /\
    (dyadic z (Z.min ex ey) ==
     Binary64.F2Q (S754_finite sx mx ex) + Binary64.F2Q (S754_finite sy my ey))%Q.
Proof.
  unfold Binary64.add, SFadd. set (ez := Z.min ex ey).
  destruct (shl_align_spec mx ex ez) as [_ Hx].
  destruct (shl_align_spec my ey ez) as [_ Hy].
  replace (Z.min ex ez) with ez in Hx by (unfold ez; lia).
  replace (Z.min ey ez) with ez in Hy by (unfold ez; lia).
  eexists. split; [reflexivity |].
  rewrite <- dyadic_plus, !F2Q_dyadic, !dyadic_signed, Hx, Hy.
  rewrite !aligned_value by (unfold ez; lia). reflexivity.
Qed.

Lemma sub_finite sx mx ex sy my ey :
  exists z,
    Binary64.sub (S754_finite sx mx ex) (S754_finite sy my ey) =
    binary_normalize prec emax z (Z.min ex ey) false /\
    (dyadic z (Z.min ex ey) ==
     Binary64.F2Q (S754_finite sx mx ex) - Binary64.F2Q (S754_finite sy my ey))%Q.
Proof.
  unfold Binary64.sub, SFsub. set (ez := Z.min ex ey).
  destruct (shl_align_spec mx ex ez) as [_ Hx].
  destruct (shl_align_spec my ey ez) as [_ Hy].
  replace (Z.min ex ez) with ez in Hx by (unfold ez; lia).
  replace (Z.min ey ez) with ez in Hy by (unfold ez; lia).
  eexists. split; [reflexivity |].
  assert (Hsub : forall a b, (dyadic (a - b) ez == dyadic a ez - dyadic b ez)%Q).
  { intros a b. unfold dyadic. unfold Z.sub.
    rewrite inject_Z_plus, inject_Z_opp. ring. }
  rewrite Hsub, !F2Q_dyadic, !dyadic_signed, Hx, Hy.
  rewrite !aligned_value by (unfold ez; lia). reflexivity.
Qed.

Lemma normalize_shape z e :
  valid (binary_normalize prec emax z e false) /\
  (0 <= z -> Binary64.is_nan (binary_normalize prec emax z e false) = false /\
             nonneg (binary_normalize prec emax z e false)).
Proof.
  destruct z as [| p | p]; cbn [binary_normalize].
  - split; [reflexivity | intros _; split; [reflexivity | exact I]].
  - destruct (binary_round_valid false p e) as [Hv [H | [H | (q & e2 & H)]]];
      (split; [exact Hv |]); intros _; rewrite H; split; (reflexivity || exact I).
  - destruct (binary_round_valid true p e) as [Hv _].
    split; [exact Hv | lia].
Qed.

Lemma normalize_between z e lo hi :
  0 <= z -> representable lo -> representable hi ->
  (lo <= dyadic z e <= hi)%Q ->
  bounded_float lo hi (binary_normalize prec emax z e false).
Proof.
  intros Hz Hlo Hhi Hb. destruct z as [| p | p]; try lia; cbn [binary_normalize].
  - split; [reflexivity |]. split; [reflexivity |].
    cbn [Binary64.F2Q]. rewrite dyadic_0 in Hb. exact Hb.
  - apply binary_round_between; assumption.
Qed.

(** ** Validity of the results *)

Lemma round_result_is_valid s m2 e2 :
  0 <= m2 -> (0 < m2 -> fexp (Zdigits2 m2 + e2) = e2) ->
  valid (round_result s m2 e2).
Proof. intros H1 H2. apply (round_result_valid s m2 e2 H1 H2). Qed.

Lemma mul_valid x y : valid x -> valid y -> valid (Binary64.mul x y).
Proof.
  intros Hx Hy. destruct x as [sx | sx | | sx mx ex], y as [sy | sy | | sy my ey];
    try reflexivity.
  destruct (mul_finite sx mx ex sy my ey Hx Hy) as (m2 & e2 & -> & H1 & _ & H2 & _).
  apply round_result_is_valid; assumption.
Qed.

Lemma div_valid x y : valid x -> valid y -> valid (Binary64.div x y).
Proof.
  intros Hx Hy. destruct x as [sx | sx | | sx mx ex], y as [sy | sy | | sy my ey];
    try reflexivity.
  destruct (div_finite sx mx ex sy my ey) as (m2 & e2 & -> & H1 & _ & H2 & _).
  apply round_result_is_valid; assumption.
Qed.

Lemma add_valid x y : valid x -> valid y -> valid (Binary64.add x y).
Proof.
  intros Hx Hy. destruct x as [sx | sx | | sx mx ex], y as [sy | sy | | sy my ey];
    try reflexivity; try assumption;
    try (destruct sx, sy; reflexivity).
  destruct (add_finite sx mx ex sy my ey) as (z & -> & _).
  apply normalize_shape.
Qed.

Lemma sub_valid x y : valid x -> valid y -> valid (Binary64.sub x y).
Proof.
  intros Hx Hy. destruct x as [sx | sx | | sx mx ex], y as [sy | sy | | sy my ey];
    try reflexivity; try assumption;
    try (destruct sx, sy; reflexivity).
  destruct (sub_finite sx mx ex sy my ey) as (z & -> & _).
  apply normalize_shape.
Qed.

Lemma of_Z_valid z : valid (Binary64.of_Z z).
Proof. apply normalize_shape. Qed.

Lemma quotient_valid a b : valid (Binary64.quotient a b).
Proof.
  unfold Binary64.quotient. destruct a as [| p | p]; [reflexivity | |].
  - destruct (div_finite (Z.pos p <? 0) (Z.to_pos (Z.abs (Z.pos p))) 0
                         (b <? 0) (Z.to_pos (Z.abs b)) 0)
      as (m2 & e2 & -> & H1 & _ & H2 & _).
    apply round_result_is_valid; assumption.
  - destruct (div_finite (Z.neg p <? 0) (Z.to_pos (Z.abs (Z.neg p))) 0
                         (b <? 0) (Z.to_pos (Z.abs b)) 0)
      as (m2 & e2 & -> & H1 & _ & H2 & _).
    apply round_result_is_valid; assumption.
Qed.

(** ** Sign of the results *)

Lemma round_result_not_negative m2 e2 :
  0 <= m2 -> not_negative (round_result false m2 e2).
Proof.
  intros H. destruct m2 as [| p | p]; try lia; cbn [round_result]; [exact I |].
  destruct (e2 <=? 1024 - 53); exact I.
Qed.

Lemma mul_not_negative x y :
  valid x -> valid y -> not_negative x -> not_negative y ->
  not_negative (Binary64.mul x y).
Proof.
  intros Hvx Hvy Hx Hy.
  destruct x as [sx | [] | | [] mx ex], y as [sy | [] | | [] my ey];
    try exact I; try contradiction.
  destruct (mul_finite false mx ex false my ey Hvx Hvy) as (m2 & e2 & -> & H1 & _).
  apply round_result_not_negative; assumption.
Qed.

Lemma div_not_negative x y :
  not_negative x -> not_negative y -> Binary64.is_zero y = false ->
  not_negative (Binary64.div x y).
Proof.
  intros Hx Hy Hz.
  destruct x as [sx | [] | | [] mx ex], y as [sy | [] | | [] my ey];
    try exact I; try contradiction; try discriminate.
  destruct (div_finite false mx ex false my ey) as (m2 & e2 & -> & H1 & _).
  apply round_result_not_negative; assumption.
Qed.

Lemma add_not_negative x y :
  not_negative x -> not_negative y -> not_negative (Binary64.add x y).
Proof.
  intros Hx Hy.
  destruct x as [sx | [] | | [] mx ex], y as [sy | [] | | [] my ey];
    try exact I; try contradiction;
    try (destruct sx; exact I); try (destruct sy; exact I);
    try (destruct sx, sy; exact I).
  unfold Binary64.add, SFadd. cbn [cond_Zopp].
  match goal with
  | |- not_negative (binary_normalize _ _ ?z _ _) =>
      assert (Hz : 0 <= z) by lia;
      destruct (proj2 (normalize_shape z (Z.min ex ey)) Hz) as [Hn Hs]
  end.
  revert Hs. unfold nonneg, not_negative.
  destruct (binary_normalize _ _ _ _ _) as [| [] | | [] ? ?]; auto.
Qed.

Lemma of_Z_not_negative z : 0 <= z -> not_negative (Binary64.of_Z z).
Proof.
  intros Hz. destruct (proj2 (normalize_shape z 0) Hz) as [_ Hs].
  revert Hs. unfold Binary64.of_Z, nonneg, not_negative.
  destruct (binary_normalize _ _ _ _ _) as [| [] | | [] ? ?]; auto.
Qed.

(** ** Bounds of the results *)

Lemma dyadic_neg p e : (dyadic (Zneg p) e < 0)%Q.
Proof.
  pose proof (dyadic_pos (Zpos p) e ltac:(lia)) as Hp.
  unfold dyadic in *. change (Zneg p) with (- Zpos p)%Z.
  rewrite inject_Z_opp. nra.
Qed.

Lemma bounded_sign lo hi s m e :
  (0 <= lo)%Q -> bounded_float lo hi (S754_finite s m e) -> s = false.
Proof.
  intros Hlo (_ & _ & [H _]). destruct s; [| reflexivity]. exfalso.
  cbn [Binary64.F2Q cond_Zopp Z.opp] in H.
  pose proof (dyadic_neg m e) as Hn. fold (dyadic (Zneg m) e) in H.
  apply (Qlt_irrefl 0). eapply Qle_lt_trans; [| exact Hn].
  eapply Qle_trans; eassumption.
Qed.

Lemma bounded_is_valid lo hi x : bounded_float lo hi x -> valid x.
Proof. intros H. apply H. Qed.

Lemma bounded_weaken lo hi lo' hi' x :
  bounded_float lo hi x -> (lo' <= lo)%Q -> (hi <= hi')%Q ->
  bounded_float lo' hi' x.
Proof.
  intros (Hv & Hf & [H1 H2]) Hl Hh. split; [assumption |]. split; [assumption |].
  split; eapply Qle_trans; eassumption.
Qed.

Lemma mul_bounded lx hx ly hy lo hi x y :
  bounded_float lx hx x -> bounded_float ly hy y ->
  (0 <= lx)%Q -> (0 <= ly)%Q ->
  representable lo -> representable hi ->
  (lo <= lx * ly)%Q -> (hx * hy <= hi)%Q ->
  bounded_float lo hi (Binary64.mul x y).
Proof.
  intros Hx Hy Hlx Hly Hlo Hhi Hl Hh.
  pose proof Hx as (Hvx & Hfx & [Hx1 Hx2]).
  pose proof Hy as (Hvy & Hfy & [Hy1 Hy2]).
  assert (Hprod : (lo <= Binary64.F2Q x * Binary64.F2Q y <= hi)%Q).
  { split; [eapply Qle_trans; [exact Hl |] | eapply Qle_trans; [| exact Hh]]; nra. }
  destruct x as [sx | sx | | sx mx ex]; try discriminate;
    destruct y as [sy | sy | | sy my ey]; try discriminate.
  - split; [reflexivity |]. split; [reflexivity |].
    cbn [Binary64.mul SFmul Binary64.F2Q] in *. lra.
  - split; [reflexivity |]. split; [reflexivity |].
    cbn [Binary64.mul SFmul Binary64.F2Q] in *. lra.
  - split; [reflexivity |]. split; [reflexivity |].
    cbn [Binary64.mul SFmul Binary64.F2Q] in *. lra.
  - pose proof (bounded_sign _ _ _ _ _ Hlx Hx) as ->.
    pose proof (bounded_sign _ _ _ _ _ Hly Hy) as ->.
    destruct (mul_finite false mx ex false my ey Hvx Hvy)
      as (m2 & e2 & -> & Hm2 & He2 & Hcan & Hb).
    destruct (Hb lo hi Hlo Hhi (proj1 Hprod) (proj2 Hprod)) as [He Hbb].
    apply round_result_bounded; try assumption. lia.
Qed.

Lemma add_bounded lx hx ly hy lo hi x y :
  bounded_float lx hx x -> bounded_float ly hy y ->
  (0 <= lx)%Q -> (0 <= ly)%Q ->
  representable lo -> representable hi ->
  (lo <= lx + ly)%Q -> (hx + hy <= hi)%Q ->
  bounded_float lo hi (Binary64.add x y).
Proof.
  intros Hx Hy Hlx Hly Hlo Hhi Hl Hh.
  pose proof Hx as (Hvx & Hfx & [Hx1 Hx2]).
  pose proof Hy as (Hvy & Hfy & [Hy1 Hy2]).
  destruct x as [sx | sx | | sx mx ex]; try discriminate;
    destruct y as [sy | sy | | sy my ey]; try discriminate.
  - assert (Hz : bounded_float lo hi (S754_zero false)).
    { split; [reflexivity |]. split; [reflexivity |].
      cbn [Binary64.F2Q] in *. lra. }
    destruct sx, sy; cbn [Binary64.add SFadd]; exact Hz.
  - cbn [Binary64.add SFadd]. eapply bounded_weaken; [exact Hy | |];
      cbn [Binary64.F2Q] in *; lra.
  - cbn [Binary64.add SFadd]. eapply bounded_weaken; [exact Hx | |];
      cbn [Binary64.F2Q] in *; lra.
  - pose proof (bounded_sign _ _ _ _ _ Hlx Hx) as ->.
    pose proof (bounded_sign _ _ _ _ _ Hly Hy) as ->.
    destruct (add_finite false mx ex false my ey) as (z & -> & Hz).
    apply normalize_between; try assumption.
    + assert (Hnn : (0 <= dyadic z (Z.min ex ey))%Q) by (rewrite Hz; lra).
      destruct z as [| p | p]; try lia.
      pose proof (dyadic_neg p (Z.min ex ey)). lra.
    + rewrite Hz. lra.
Qed.

Lemma quotient_interval (X Y lx hx ly hy lo hi : Q) :
  (lx <= X <= hx)%Q -> (ly <= Y <= hy)%Q -> (0 <= lx)%Q -> (0 < ly)%Q ->
  (0 <= lo)%Q -> (lo * hy <= lx)%Q -> (hx <= hi * ly)%Q ->
  (lo <= X / Y <= hi)%Q.
Proof.
  intros [HX1 HX2] [HY1 HY2] Hlx Hly Hlo Hl Hh.
  assert (HY : (0 < Y)%Q) by lra.
  assert (Hhi : (0 <= hi)%Q) by nra.
  split.
  - apply Qle_shift_div_l; [assumption |]. nra.
  - apply Qle_shift_div_r; [assumption |]. nra.
Qed.

Lemma div_bounded lx hx ly hy lo hi x y :
  bounded_float lx hx x -> bounded_float ly hy y ->
  (0 <= lx)%Q -> (0 < ly)%Q -> (0 <= lo)%Q ->
  representable lo -> representable hi ->
  (lo * hy <= lx)%Q -> (hx <= hi * ly)%Q ->
  bounded_float lo hi (Binary64.div x y).
Proof.
  intros Hx Hy Hlx Hly Hlo0 Hlo Hhi Hl Hh.
  pose proof Hx as (Hvx & Hfx & HX).
  pose proof Hy as (Hvy & Hfy & HY).
  pose proof (quotient_interval _ _ _ _ _ _ _ _ HX HY Hlx Hly Hlo0 Hl Hh) as Hq.
  destruct y as [sy | sy | | sy my ey]; try discriminate.
  { cbn [Binary64.F2Q] in HY. lra. }
  pose proof (bounded_sign _ _ _ _ _ (Qlt_le_weak _ _ Hly) Hy) as ->.
  destruct x as [sx | sx | | sx mx ex]; try discriminate.
  - split; [reflexivity |]. split; [reflexivity |].
    cbn [Binary64.div SFdiv Binary64.F2Q] in *.
    unfold Qdiv in Hq. rewrite Qmult_0_l in Hq. exact Hq.
  - pose proof (bounded_sign _ _ _ _ _ Hlx Hx) as ->.
    destruct (div_finite false mx ex false my ey)
      as (m2 & e2 & -> & Hm2 & He2 & Hcan & Hb).
    destruct (Hb lo hi Hlo Hhi (proj1 Hq) (proj2 Hq)) as [He Hbb].
    apply round_result_bounded; try assumption. lia.
Qed.

Lemma representable_Z z : 0 <= z < 2 ^ 53 -> representable (inject_Z z).
Proof.
  intros H. exists z, 0. split; [assumption |]. split; [lia |].
  symmetry. apply dyadic_Z.
Qed.

Lemma of_Z_bounded z lo hi :
  0 <= z -> representable lo -> representable hi ->
  (lo <= inject_Z z <= hi)%Q ->
  bounded_float lo hi (Binary64.of_Z z).
Proof.
  intros Hz Hlo Hhi Hb. apply normalize_between; try assumption.
  rewrite dyadic_Z. assumption.
Qed.

Lemma of_Z_exact z :
  0 <= z < 2 ^ 53 -> bounded_float (inject_Z z) (inject_Z z) (Binary64.of_Z z).
Proof.
  intros Hz. apply of_Z_bounded; try lia; try (apply representable_Z; assumption).
  split; apply Qle_refl.
Qed.

Lemma quotient_bounded a b lo hi :
  0 <= a -> 0 < b -> (0 <= lo)%Q ->
  representable lo -> representable hi ->
  (lo * inject_Z b <= inject_Z a)%Q -> (inject_Z a <= hi * inject_Z b)%Q ->
  bounded_float lo hi (Binary64.quotient a b).
Proof.
  intros Ha Hb Hlo0 Hlo Hhi Hl Hh.
  assert (HbQ : (0 < inject_Z b)%Q) by (rewrite Zlt_Qlt in Hb; exact Hb).
  assert (HaQ : (0 <= inject_Z a)%Q) by (rewrite Zle_Qle in Ha; exact Ha).
  unfold Binary64.quotient.
  destruct a as [| p | p]; try lia.
  - split; [reflexivity |]. split; [reflexivity |]. cbn [Binary64.F2Q].
    change (inject_Z 0) with 0%Q in *. split; [nra | nra].
  - destruct b as [| q | q]; try lia.
    change (Z.pos p <? 0) with false. change (Z.pos q <? 0) with false.
    change (Z.to_pos (Z.abs (Z.pos p))) with p.
    change (Z.to_pos (Z.abs (Z.pos q))) with q.
    destruct (div_finite false p 0 false q 0)
      as (m2 & e2 & -> & Hm2 & He2 & Hcan & Hbd).
    assert (Hq : (lo <= dyadic (Z.pos p) 0 / dyadic (Z.pos q) 0 <= hi)%Q).
    { rewrite !dyadic_Z. split.
      - apply Qle_shift_div_l; assumption.
      - apply Qle_shift_div_r; assumption. }
    destruct (Hbd lo hi Hlo Hhi (proj1 Hq) (proj2 Hq)) as [He Hbb].
    apply round_result_bounded; try assumption. lia.
Qed.

(** ** Truncation *)

Lemma trunc_floor m e :
  0 <= m ->
  (inject_Z (Z.shiftl m e) <= dyadic m e)%Q /\
  (dyadic m e < inject_Z (Z.shiftl m e + 1))%Q.
Proof.
  intros Hm. rewrite <- !dyadic_Z.
  destruct (Z.le_gt_cases 0 e) as [He | He].
  - rewrite Z.shiftl_mul_pow2 by assumption. split.
    + apply dle_Qle. apply (dle_from 0); try lia.
      rewrite !Z.sub_0_r. lia.
    + apply dlt_Qlt. apply (dlt_from 0); try lia.
      rewrite !Z.sub_0_r. pose proof (pow2_pos e He). lia.
  - rewrite Z.shiftl_div_pow2 by lia.
    pose proof (pow2_pos (- e) ltac:(lia)) as Hp.
    pose proof (Z.div_mod m (2 ^ (- e)) ltac:(lia)) as Hdm.
    pose proof (Z.mod_pos_bound m (2 ^ (- e)) Hp) as Hr.
    split.
    + apply dle_Qle. apply (dle_from e); try lia.
      replace (0 - e) with (- e) by lia. replace (e - e) with 0 by lia.
      rewrite Z.pow_0_r. nia.
    + apply dlt_Qlt. apply (dlt_from e); try lia.
      replace (0 - e) with (- e) by lia. replace (e - e) with 0 by lia.
      rewrite Z.pow_0_r. nia.
Qed.

Lemma trunc_bounds lo hi x :
  bounded_float lo hi x -> (0 <= lo)%Q ->
  (inject_Z (Binary64.trunc x) <= Binary64.F2Q x)%Q /\
  (Binary64.F2Q x < inject_Z (Binary64.trunc x + 1))%Q /\
  0 <= Binary64.trunc x.
Proof.
  intros Hx Hlo. pose proof Hx as (Hv & Hf & Hb).
  destruct x as [sx | sx | | sx mx ex]; try discriminate.
  - cbn [Binary64.trunc Binary64.F2Q].
    split; [apply Qle_refl | split; [reflexivity | lia]].
  - pose proof (bounded_sign _ _ _ _ _ Hlo Hx) as ->.
    cbn [Binary64.trunc Binary64.F2Q cond_Zopp].
    destruct (trunc_floor (Zpos mx) ex ltac:(lia)) as [H1 H2].
    split; [exact H1 |]. split; [exact H2 |].
    apply Z.shiftl_nonneg. lia.
Qed.

Lemma trunc_between lo hi x (a b : Z) :
  bounded_float lo hi x -> (0 <= lo)%Q ->
  (inject_Z a <= lo)%Q -> (hi < inject_Z (b + 1))%Q ->
  Z.max 0 a <= Binary64.trunc x <= b.
Proof.
  intros Hx Hlo Ha Hb.
  destruct (trunc_bounds lo hi x Hx Hlo) as (H1 & H2 & H3).
  destruct Hx as (_ & _ & [Hx1 Hx2]).
  assert (Hlt1 : (inject_Z a < inject_Z (Binary64.trunc x + 1))%Q) by lra.
  assert (Hlt2 : (inject_Z (Binary64.trunc x) < inject_Z (b + 1))%Q) by lra.
  rewrite <- Zlt_Qlt in Hlt1, Hlt2. lia.
Qed.

(** * Python numbers within bounds *)

Lemma check_bounded_correct lo hi f :
  check_bounded lo hi f = true -> bounded_float lo hi f.
Proof.
  unfold check_bounded. intros H.
  apply andb_true_iff in H. destruct H as [H H4].
  apply andb_true_iff in H. destruct H as [H H3].
  apply andb_true_iff in H. destruct H as [H1 H2].
  apply Qle_bool_iff in H3, H4. repeat split; assumption.
Qed.

Ltac rep_dyadic c e :=
  exists c, e; split; [lia | split; [lia | vm_compute; reflexivity]].

Ltac rep :=
  first [ apply representable_Z; lia
        | match goal with
          | |- representable (?n # 2) => rep_dyadic n (-1)
          | |- representable (?n # 4) => rep_dyadic n (-2)
          | |- representable (?n # 8) => rep_dyadic n (-3)
          | |- representable (?n # 16) => rep_dyadic n (-4)
          | |- representable (?n # 64) => rep_dyadic n (-6)
          | |- representable (?n # 128) => rep_dyadic n (-7)
          end ].

Lemma to_float_bounded lo hi x :
  within lo hi x -> (0 <= lo)%Q -> representable lo -> representable hi ->
  exists f, to_float x = Ok f /\ bounded_float lo hi f.
Proof.
  intros Hx Hlo Hrl Hrh. destruct x as [z | f]; cbn [within] in Hx.
  - assert (Hz : 0 <= z).
    { rewrite Zle_Qle. change (inject_Z 0) with 0%Q. lra. }
    pose proof (of_Z_bounded z lo hi Hz Hrl Hrh Hx) as Hb.
    exists (Binary64.of_Z z). split; [| assumption].
    unfold to_float. destruct Hb as (_ & Hf & _).
    destruct (Binary64.of_Z z); try discriminate; reflexivity.
  - exists f. split; [reflexivity | assumption].
Qed.

Lemma py_mul_within lx hx ly hy lo hi x y :
  within lx hx x -> within ly hy y ->
  (0 <= lx)%Q -> (0 <= ly)%Q ->
  representable lx -> representable hx -> representable ly -> representable hy ->
  representable lo -> representable hi ->
  (lo <= lx * ly)%Q -> (hx * hy <= hi)%Q ->
  exists z, mul x y = Ok z /\ within lo hi z.
Proof.
  intros Hx Hy Hlx Hly R1 R2 R3 R4 R5 R6 Hl Hh.
  assert (Hfloat : exists z, float_op Binary64.mul x y = Ok z /\ within lo hi z).
  { destruct (to_float_bounded lx hx x Hx Hlx R1 R2) as (a & Ha & Hba).
    destruct (to_float_bounded ly hy y Hy Hly R3 R4) as (b & Hb & Hbb).
    exists (PyFloat (Binary64.mul a b)). unfold float_op. rewrite Ha, Hb.
    split; [reflexivity |]. cbn [within].
    eapply mul_bounded; eassumption. }
  destruct x as [a | a], y as [b | b]; try exact Hfloat.
  exists (PyInt (a * b)). split; [reflexivity |]. cbn [within] in *.
  rewrite inject_Z_mult. split; nra.
Qed.

Lemma py_add_within lx hx ly hy lo hi x y :
  within lx hx x -> within ly hy y ->
  (0 <= lx)%Q -> (0 <= ly)%Q ->
  representable lx -> representable hx -> representable ly -> representable hy ->
  representable lo -> representable hi ->
  (lo <= lx + ly)%Q -> (hx + hy <= hi)%Q ->
  exists z, add x y = Ok z /\ within lo hi z.
Proof.
  intros Hx Hy Hlx Hly R1 R2 R3 R4 R5 R6 Hl Hh.
  assert (Hfloat : exists z, float_op Binary64.add x y = Ok z /\ within lo hi z).
  { destruct (to_float_bounded lx hx x Hx Hlx R1 R2) as (a & Ha & Hba).
    destruct (to_float_bounded ly hy y Hy Hly R3 R4) as (b & Hb & Hbb).
    exists (PyFloat (Binary64.add a b)). unfold float_op. rewrite Ha, Hb.
    split; [reflexivity |]. cbn [within].
    eapply add_bounded; eassumption. }
  destruct x as [a | a], y as [b | b]; try exact Hfloat.
  exists (PyInt (a + b)). split; [reflexivity |]. cbn [within] in *.
  rewrite inject_Z_plus. split; lra.
Qed.

Lemma py_truediv_within lx hx ly hy lo hi x y :
  within lx hx x -> within ly hy y ->
  (0 <= lx)%Q -> (0 < ly)%Q -> (0 <= lo)%Q ->
  representable lx -> representable hx -> representable ly -> representable hy ->
  representable lo -> representable hi ->
  (lo * hy <= lx)%Q -> (hx <= hi * ly)%Q ->
  exists f, truediv x y = Ok (PyFloat f) /\ bounded_float lo hi f.
Proof.
  intros Hx Hy Hlx Hly Hlo R1 R2 R3 R4 R5 R6 Hl Hh.
  assert (Hfloat : forall a b, to_float x = Ok a -> to_float y = Ok b ->
                               bounded_float lx hx a -> bounded_float ly hy b ->
             exists f, (a0 ← Ok a; b0 ← Ok b;
                        if Binary64.is_zero b0 then Raise ZeroDivisionError
                        else mret (PyFloat (Binary64.div a0 b0))) = Ok (PyFloat f) /\
                       bounded_float lo hi f).
  { intros a b Ha Hb Hba Hbb.
    exists (Binary64.div a b). cbn [mbind result_bind].
    assert (Hnz : Binary64.is_zero b = false).
    { destruct b; try reflexivity. destruct Hbb as (_ & _ & [H _]).
      cbn [Binary64.F2Q] in H. lra. }
    rewrite Hnz. split; [reflexivity |].
    eapply div_bounded; eassumption. }
  destruct (to_float_bounded lx hx x Hx Hlx R1 R2) as (a & Ha & Hba).
  destruct (to_float_bounded ly hy y Hy (Qlt_le_weak _ _ Hly) R3 R4) as (b & Hb & Hbb).
  specialize (Hfloat a b Ha Hb Hba Hbb).
  destruct x as [p | p], y as [q | q];
    try (unfold truediv; rewrite Ha, Hb; exact Hfloat).
  clear Hfloat. cbn [within] in Hx, Hy.
  assert (Hq : 0 < q).
  { rewrite Zlt_Qlt. change (inject_Z 0) with 0%Q. lra. }
  assert (Hp : 0 <= p).
  { rewrite Zle_Qle. change (inject_Z 0) with 0%Q. lra. }
  assert (Hb' : bounded_float lo hi (Binary64.quotient p q)).
  { apply quotient_bounded; try assumption; nra. }
  exists (Binary64.quotient p q). split; [| assumption].
  unfold truediv. destruct (Z.eqb_spec q 0); [lia |].
  destruct Hb' as (_ & Hf & _).
  destruct (Binary64.quotient p q); try discriminate; reflexivity.
Qed.

Lemma py_int_within lo hi x (a b : Z) :
  within lo hi x -> (0 <= lo)%Q ->
  (inject_Z a <= lo)%Q -> (hi < inject_Z (b + 1))%Q ->
  exists z, int x = Ok z /\ Z.max 0 a <= z <= b.
Proof.
  intros Hx Hlo Ha Hb. destruct x as [z | f]; cbn [within] in Hx.
  - exists z. split; [reflexivity |].
    assert (H0 : (inject_Z 0 <= inject_Z z)%Q) by (change (inject_Z 0) with 0%Q; lra).
    assert (H1 : (inject_Z a <= inject_Z z)%Q) by lra.
    assert (H2 : (inject_Z z < inject_Z (b + 1))%Q) by lra.
    rewrite <- Zle_Qle in H0, H1. rewrite <- Zlt_Qlt in H2. lia.
  - exists (Binary64.trunc f). split.
    + destruct Hx as (_ & Hf & _). destruct f; try discriminate; reflexivity.
    + eapply trunc_between; eassumption.
Qed.

(** * Python numbers that are not negative *)

Lemma to_float_NN x f :
  NN x -> to_float x = Ok f -> valid f /\ not_negative f.
Proof.
  destruct x as [z | g]; cbn [NN to_float].
  - intros Hz H.
    assert (f = Binary64.of_Z z) as ->.
    { destruct (Binary64.of_Z z); congruence. }
    split; [apply of_Z_valid | apply of_Z_not_negative; assumption].
  - intros Hg H. injection H as <-. assumption.
Qed.

Lemma py_mul_NN x y z : NN x -> NN y -> mul x y = Ok z -> NN z.
Proof.
  intros Hx Hy H.
  assert (Hfloat : float_op Binary64.mul x y = Ok z -> NN z).
  { unfold float_op. intros H'.
    destruct (to_float x) as [a |] eqn:Ha; [| discriminate].
    destruct (to_float y) as [b |] eqn:Hb; [| discriminate].
    cbn in H'. injection H' as <-.
    destruct (to_float_NN x a Hx Ha), (to_float_NN y b Hy Hb).
    split; [apply mul_valid | apply mul_not_negative]; assumption. }
  destruct x as [a | a], y as [b | b]; try (apply Hfloat; exact H).
  cbn in H. injection H as <-. cbn [NN] in *. nia.
Qed.

Lemma py_add_NN x y z : NN x -> NN y -> add x y = Ok z -> NN z.
Proof.
  intros Hx Hy H.
  assert (Hfloat : float_op Binary64.add x y = Ok z -> NN z).
  { unfold float_op. intros H'.
    destruct (to_float x) as [a |] eqn:Ha; [| discriminate].
    destruct (to_float y) as [b |] eqn:Hb; [| discriminate].
    cbn in H'. injection H' as <-.
    destruct (to_float_NN x a Hx Ha), (to_float_NN y b Hy Hb).
    split; [apply add_valid | apply add_not_negative]; assumption. }
  destruct x as [a | a], y as [b | b]; try (apply Hfloat; exact H).
  cbn in H. injection H as <-. cbn [NN] in *. lia.
Qed.

Lemma quotient_not_negative a b :
  0 <= a -> 0 < b -> not_negative (Binary64.quotient a b).
Proof.
  intros Ha Hb. unfold Binary64.quotient.
  destruct a as [| p | p]; try lia; [exact I |].
  destruct b as [| q | q]; try lia.
  change (Z.pos p <? 0) with false. change (Z.pos q <? 0) with false.
  destruct (div_finite false (Z.to_pos (Z.abs (Z.pos p))) 0
                       false (Z.to_pos (Z.abs (Z.pos q))) 0)
    as (m2 & e2 & -> & H1 & _).
  apply round_result_not_negative; assumption.
Qed.

Lemma py_truediv_NN x y z : NN x -> NN y -> truediv x y = Ok z -> NN z.
Proof.
  intros Hx Hy H.
  assert (Hfloat :
            (a ← to_float x; b ← to_float y;
             if Binary64.is_zero b then Raise ZeroDivisionError
             else mret (PyFloat (Binary64.div a b))) = Ok z -> NN z).
  { intros H'.
    destruct (to_float x) as [a |] eqn:Ha; [| discriminate].
    destruct (to_float y) as [b |] eqn:Hb; [| discriminate].
    cbn in H'. destruct (Binary64.is_zero b) eqn:Hz; [discriminate |].
    injection H' as <-.
    destruct (to_float_NN x a Hx Ha), (to_float_NN y b Hy Hb).
    split; [apply div_valid | apply div_not_negative]; assumption. }
  destruct x as [a | a], y as [b | b]; try (apply Hfloat; exact H).
  unfold truediv in H. destruct (Z.eqb_spec b 0) as [| Hb]; [discriminate |].
  cbn [NN] in *.
  assert (z = PyFloat (Binary64.quotient a b)) as ->.
  { destruct (Binary64.quotient a b); congruence. }
  split; [apply quotient_valid | apply quotient_not_negative; lia].
Qed.

Lemma py_int_NN x z : NN x -> int x = Ok z -> 0 <= z.
Proof.
  destruct x as [a | f]; cbn [NN int].
  - intros Ha H. injection H as <-. assumption.
  - intros [_ Hf] H. destruct f as [s | s | | [] m e]; try discriminate;
      try contradiction; injection H as <-; cbn [Binary64.trunc cond_Zopp];
      try lia.
    apply Z.shiftl_nonneg. lia.
Qed.

Lemma within_NN lo hi x : within lo hi x -> (0 <= lo)%Q -> NN x.
Proof.
  destruct x as [z | f]; cbn [within NN]; intros H Hlo.
  - rewrite Zle_Qle. change (inject_Z 0) with 0%Q. lra.
  - split; [apply H |].
    destruct f as [s | s | | s m e]; try exact I;
      try (destruct H as (_ & Hf & _); discriminate).
    now rewrite (bounded_sign _ _ _ _ _ Hlo H).
Qed.

(** * Comparisons and clamping *)

Lemma Qltb_lt p q : Qltb p q = true <-> (p < q)%Q.
Proof.
  unfold Qltb. rewrite Qlt_alt. destruct (p ?= q)%Q; split; congruence.
Qed.

Lemma Qltb_ge p q : Qltb p q = false <-> (q <= p)%Q.
Proof.
  rewrite <- not_true_iff_false, Qltb_lt.
  split; [apply Qnot_lt_le | apply Qle_not_lt].
Qed.

Lemma within_in_range x : within 0 100 x -> in_range x = true.
Proof.
  destruct x as [z | f]; cbn [within]; intros H.
  - rewrite in_range_int. change 0%Q with (inject_Z 0) in H.
    change 100%Q with (inject_Z 100) in H.
    rewrite <- !Zle_Qle in H. apply andb_true_iff. split; apply Z.leb_le; lia.
  - destruct H as (_ & Hf & [H1 H2]).
    unfold in_range, le, xle, num_value, float_value.
    destruct f as [s | s | | s m e]; try discriminate.
    + reflexivity.
    + cbn [xlt]. apply andb_true_iff.
      split; apply negb_true_iff, Qltb_ge; assumption.
Qed.

(** [min(100, max(0, raw))] *)
Lemma clamp_within raw :
  match raw with PyFloat f => valid f | PyInt _ => True end ->
  within 0 100 (min (PyInt 100) (max (PyInt 0) raw)).
Proof.
  destruct raw as [z | f]; intros Hv.
  - rewrite max_int, min_int. cbn [within].
    change 0%Q with (inject_Z 0). change 100%Q with (inject_Z 100).
    rewrite <- !Zle_Qle. lia.
  - unfold max, gt, lt. cbn [num_value float_value].
    assert (Hzero : within 0 100 (min (PyInt 100) (PyInt 0))).
    { rewrite min_int. cbn [within]. split; discriminate. }
    destruct f as [s | [] | | s m e]; cbn [float_value xlt]; try exact Hzero.
    + (* +inf *) unfold min, lt. cbn. split; discriminate.
    + destruct (Qltb (inject_Z 0) (Binary64.F2Q (S754_finite s m e))) eqn:Hpos;
        [| exact Hzero].
      unfold min, lt. cbn [num_value float_value xlt].
      destruct (Qltb (Binary64.F2Q (S754_finite s m e)) (inject_Z 100)) eqn:Hlt.
      * apply Qltb_lt in Hpos, Hlt. cbn [within].
        split; [exact Hv |]. split; [reflexivity |].
        change (inject_Z 100) with 100%Q in Hlt.
        change (inject_Z 0) with 0%Q in Hpos. split; lra.
      * cbn [within]. split; discriminate.
Qed.

(** * Well-formed numbers *)

Lemma bind_Ok {A B} (m : result A) (k : A -> result B) r :
  (x ← m; k x) = Ok r -> exists a, m = Ok a /\ k a = Ok r.
Proof. destruct m as [a |]; [| discriminate]. intros H. exists a. auto. Qed.

Ltac bind_inv H :=
  let a := fresh "v" in
  let Ha := fresh "Hv" in
  apply bind_Ok in H; destruct H as (a & Ha & H).

Ltac bind_as H x Hx := apply bind_Ok in H; destruct H as (x & Hx & H).

Lemma bind_Ok_eq {A B} (a : A) (k : A -> result B) : (x ← Ok a; k x) = k a.
Proof. reflexivity. Qed.

Lemma to_float_valid x f : valid_num x = true -> to_float x = Ok f -> valid f.
Proof.
  destruct x as [z | g]; cbn [to_float valid_num]; intros Hv H.
  - assert (f = Binary64.of_Z z) as -> by (destruct (Binary64.of_Z z); congruence).
    apply of_Z_valid.
  - injection H as <-. exact Hv.
Qed.

Lemma float_op_valid op x y z :
  (forall a b, valid a -> valid b -> valid (op a b)) ->
  valid_num x = true -> valid_num y = true ->
  float_op op x y = Ok z -> valid_num z = true.
Proof.
  intros Hop Hx Hy H. unfold float_op in H.
  bind_inv H. bind_inv H. injection H as <-. cbn [valid_num].
  apply Hop; [apply (to_float_valid x) | apply (to_float_valid y)]; assumption.
Qed.

Lemma py_mul_valid x y z :
  valid_num x = true -> valid_num y = true -> mul x y = Ok z -> valid_num z = true.
Proof.
  intros Hx Hy H.
  destruct x as [a | a], y as [b | b];
    try (eapply (float_op_valid Binary64.mul); [apply mul_valid | | | exact H]; assumption).
  injection H as <-. reflexivity.
Qed.

Lemma py_add_valid x y z :
  valid_num x = true -> valid_num y = true -> add x y = Ok z -> valid_num z = true.
Proof.
  intros Hx Hy H.
  destruct x as [a | a], y as [b | b];
    try (eapply (float_op_valid Binary64.add); [apply add_valid | | | exact H]; assumption).
  injection H as <-. reflexivity.
Qed.

Lemma py_sub_valid x y z :
  valid_num x = true -> valid_num y = true -> sub x y = Ok z -> valid_num z = true.
Proof.
  intros Hx Hy H.
  destruct x as [a | a], y as [b | b];
    try (eapply (float_op_valid Binary64.sub); [apply sub_valid | | | exact H]; assumption).
  injection H as <-. reflexivity.
Qed.

Lemma py_truediv_valid x y z :
  valid_num x = true -> valid_num y = true -> truediv x y = Ok z ->
  valid_num z = true.
Proof.
  intros Hx Hy H.
  assert (Hfloat :
            (a ← to_float x; b ← to_float y;
             if Binary64.is_zero b then Raise ZeroDivisionError
             else mret (PyFloat (Binary64.div a b))) = Ok z -> valid_num z = true).
  { intros H'. bind_inv H'. bind_inv H'.
    destruct (Binary64.is_zero v0); [discriminate |]. injection H' as <-.
    apply div_valid; [apply (to_float_valid x) | apply (to_float_valid y)];
      assumption. }
  destruct x as [a | a], y as [b | b]; try (apply Hfloat; exact H).
  unfold truediv in H. destruct (b =? 0); [discriminate |].
  assert (z = PyFloat (Binary64.quotient a b)) as ->
      by (destruct (Binary64.quotient a b); congruence).
  apply quotient_valid.
Qed.

Lemma within_of_valid_clamp raw :
  valid_num raw = true -> within 0 100 (min (PyInt 100) (max (PyInt 0) raw)).
Proof. intros H. apply clamp_within. destruct raw; [exact I | exact H]. Qed.

Lemma le0_not_negative f :
  valid f -> le (PyInt 0) (PyFloat f) = true -> NN (PyFloat f).
Proof.
  intros Hv H. split; [assumption |].
  unfold le, xle, num_value, float_value in H.
  destruct f as [s | [] | | [] m e]; try exact I; try discriminate.
  exfalso. cbn [xlt] in H. apply negb_true_iff, Qltb_ge in H.
  cbn [Binary64.F2Q cond_Zopp Z.opp] in H.
  pose proof (dyadic_neg m e) as Hn. unfold dyadic in Hn.
  change (inject_Z 0) with 0%Q in H.
  change (- Z.pos m) with (Z.neg m) in H. lra.
Qed.

(** * Component scores *)

Lemma within_int lo hi z :
  (lo <= z <= hi)%Z -> within (inject_Z lo) (inject_Z hi) (PyInt z).
Proof. intros H. cbn [within]. rewrite <- !Zle_Qle. exact H. Qed.

Lemma upside_score_within list_price p s :
  upside_score list_price p = Ok s -> within 0 100 s.
Proof.
  unfold upside_score. intros H.
  bind_inv H. bind_inv H. bind_inv H. bind_inv H. injection H as <-.
  apply within_of_valid_clamp.
  eapply py_add_valid; [| | eassumption]; [reflexivity |].
  eapply py_mul_valid; [| | eassumption]; [| reflexivity].
  eapply py_mul_valid; [| | eassumption]; [| reflexivity].
  eapply py_truediv_valid; [| | eassumption]; reflexivity.
Qed.

Lemma blend_within score v a :
  within 0 100 score -> valid v -> le (PyInt 0) (PyFloat v) = true ->
  blend score v = Ok a -> within 0 100 a.
Proof.
  intros Hs Hv Hle H. unfold blend in H.
  bind_inv H. bind_inv H. bind_inv H. bind_inv H. injection H as <-.
  assert (NN v0) by (eapply py_mul_NN; [| | eassumption];
                     [apply le0_not_negative; assumption | cbn; lia]).
  assert (NN v1) by (eapply py_add_NN; [| | eassumption];
                     [eapply within_NN; [eassumption | lra] | assumption]).
  assert (NN v2) by (eapply py_truediv_NN; [| | eassumption];
                     [assumption | cbn; lia]).
  assert (0 <= v3) by (eapply py_int_NN; eassumption).
  apply (within_int 0 100). lia.
Qed.

Lemma appreciation_within list_price predicted_price forecast a :
  forecast_ok forecast = true ->
  calculate_appreciation_score list_price predicted_price forecast = Ok a ->
  within 0 100 a.
Proof.
  intros Hf H. rewrite appreciation_score_cases in H. bind_inv H.
  assert (Hs : within 0 100 v).
  { destruct (present_price predicted_price) as [p |].
    - destruct (list_price =? 0).
      + injection Hv as <-. apply (within_int 0 100). lia.
      + eapply upside_score_within; eassumption.
    - injection Hv as <-. apply (within_int 0 100). lia. }
  destruct forecast as [f |]; cbn [present_forecast] in H.
  - cbn [forecast_ok] in Hf. apply andb_true_iff in Hf. destruct Hf as [Hvf Hle].
    destruct (Binary64.is_zero f).
    + injection H as <-. exact Hs.
    + eapply blend_within; eassumption.
  - injection H as <-. exact Hs.
Qed.

Lemma cash_flow_within list_price sqft metrics c :
  0 < list_price -> 0 <= sqft ->
  calculate_cash_flow_score list_price sqft metrics = Ok c ->
  exists z, c = PyInt z /\ 0 <= z <= 100.
Proof.
  intros Hp Hs H. unfold calculate_cash_flow_score in H.
  bind_inv H. bind_inv H. bind_inv H. bind_inv H. bind_inv H. bind_inv H.
  injection H as <-.
  assert (NN v) by (eapply py_mul_NN; [| | eassumption];
                    [cbn; lia | split; [reflexivity | exact I]]).
  assert (NN v0) by (eapply py_mul_NN; [| | eassumption]; [assumption | cbn; lia]).
  assert (NN v1) by (eapply py_truediv_NN; [| | eassumption];
                     [assumption | cbn; lia]).
  assert (NN v2) by (eapply py_mul_NN; [| | eassumption]; [assumption | cbn; lia]).
  assert (NN v3) by (eapply py_mul_NN; [| | eassumption]; [assumption | cbn; lia]).
  assert (0 <= v4) by (eapply py_int_NN; eassumption).
  rewrite min_int. eexists. split; [reflexivity | lia].
Qed.

Lemma operand_valid v n :
  valid_value v = true -> operand v = Ok n -> valid_num n = true.
Proof.
  destruct v as [| b | k | s |]; cbn; intros Hv H; try discriminate.
  - injection H as <-. reflexivity.
  - injection H as <-. exact Hv.
Qed.

Lemma momentum_within metrics m :
  valid_value (get metrics "appreciation_1y" (VNum (PyInt 0))) = true ->
  calculate_market_momentum_score metrics = Ok m -> within 0 100 m.
Proof.
  intros Hm H. unfold calculate_market_momentum_score in H.
  destruct (no_metrics metrics).
  - injection H as <-. apply (within_int 0 100). lia.
  - bind_inv H. bind_inv H. bind_inv H. injection H as <-.
    apply within_of_valid_clamp.
    eapply py_add_valid; [| | eassumption]; [reflexivity |].
    eapply py_mul_valid; [| | eassumption]; [| reflexivity].
    eapply operand_valid; eassumption.
Qed.

Lemma normalize_negative z e :
  z < 0 -> gt (PyFloat (binary_normalize prec emax z e false)) (PyInt 0) = false.
Proof.
  intros Hz. destruct z as [| p | p]; try lia. cbn [binary_normalize].
  destruct (binary_round_correct true p e) as (m2 & e2 & -> & Hm & _).
  unfold gt, lt. cbn [num_value]. destruct m2 as [| q | q]; try lia.
  - reflexivity.
  - cbn [round_result]. destruct (e2 <=? 1024 - 53); [| reflexivity].
    cbn [float_value xlt]. destruct (Qltb _ _) eqn:Hl; [| reflexivity].
    apply Qltb_lt in Hl. exfalso.
    cbn [Binary64.F2Q cond_Zopp Z.opp] in Hl.
    pose proof (dyadic_neg q e2) as Hn. unfold dyadic in Hn.
    change (inject_Z 0) with 0%Q in Hl.
    change (- Z.pos q) with (Z.neg q) in Hl. lra.
Qed.

Lemma max0_bounded f :
  bounded_float 0 100 f -> within 0 100 (max (PyInt 0) (PyFloat f)).
Proof.
  intros Hb. unfold max. destruct (gt _ _); [exact Hb |].
  apply (within_int 0 100). lia.
Qed.

Lemma liquidity_float f :
  valid f -> le (PyInt 0) (PyFloat f) = true ->
  within 0 100 (max (PyInt 0) (PyFloat (Binary64.sub (Binary64.of_Z 100) f))).
Proof.
  intros Hvf Hle. pose proof (le0_not_negative f Hvf Hle) as [_ Hnn].
  assert (Hc : Binary64.of_Z 100 = S754_finite false 7036874417766400 (-46))
    by (vm_compute; reflexivity).
  destruct f as [s | [] | | [] m e]; try (exfalso; exact Hnn);
    try discriminate.
  - apply max0_bounded. apply check_bounded_correct. vm_compute. reflexivity.
  - change (within 0 100 (PyInt 0)). apply (within_int 0 100). lia.
  - rewrite Hc.
    destruct (sub_finite false 7036874417766400 (-46) false m e)
      as (z & -> & Hz).
    assert (Hv : (Binary64.F2Q (S754_finite false 7036874417766400 (-46))
                  == 100)%Q) by (vm_compute; reflexivity).
    rewrite Hv in Hz. clear Hv.
    pose proof (dyadic_pos (Z.pos m) e ltac:(lia)) as Hpos.
    cbn [Binary64.F2Q cond_Zopp] in Hz. fold (dyadic (Z.pos m) e) in Hz.
    destruct (Z_lt_le_dec z 0) as [Hneg | Hge].
    + unfold max. rewrite normalize_negative by exact Hneg.
      apply (within_int 0 100). lia.
    + apply max0_bounded. apply normalize_between; [exact Hge | rep | rep |].
      pose proof (dyadic_nonneg z (Z.min (-46) e) Hge). lra.
Qed.

Lemma liquidity_within metrics l :
  days_ok (get metrics "days_on_market_avg" (VNum (PyInt 60))) = true ->
  calculate_liquidity_score metrics = Ok l -> within 0 100 l.
Proof.
  intros Hd H. unfold calculate_liquidity_score in H.
  destruct (no_metrics metrics).
  { injection H as <-. apply (within_int 0 100). lia. }
  bind_inv H. bind_inv H. injection H as <-.
  destruct (get metrics "days_on_market_avg" (VNum (PyInt 60)))
    as [| b | [z | f] | s |]; cbn [operand] in Hv; try discriminate;
    injection Hv as <-.
  - destruct b; injection Hv0 as <-; rewrite max_int; apply (within_int 0 100); lia.
  - cbn [days_ok valid_num andb] in Hd. rewrite le_int in Hd.
    injection Hv0 as <-. rewrite max_int. apply (within_int 0 100). lia.
  - cbn [days_ok valid_num] in Hd. apply andb_true_iff in Hd.
    destruct Hd as [Hvf Hle].
    assert (E : v0 = PyFloat (Binary64.sub (Binary64.of_Z 100) f)).
    { change (Ok (PyFloat (Binary64.sub (Binary64.of_Z 100) f)) = Ok v0) in Hv0.
      congruence. }
    rewrite E. apply liquidity_float; assumption.
Qed.

Lemma risk_table_values t :
  In (risk_table t) [30; 40; 50; 60; 70].
Proof.
  unfold risk_table.
  repeat match goal with
         | |- context [String.eqb t ?k] => destruct (String.eqb t k)
         end; cbn; tauto.
Qed.

Lemma risk_score_values metrics r :
  calculate_risk_score metrics = Ok r ->
  exists z, r = PyInt z /\ In z [30; 40; 50; 60; 70].
Proof.
  unfold calculate_risk_score. intros H.
  assert (H50 : In 50 [30; 40; 50; 60; 70]) by (cbn; tauto).
  destruct (no_metrics metrics).
  { injection H as <-. eauto. }
  destruct (get metrics "market_temperature" (VStr "NEUTRAL"))
    as [| b | n | t |]; try discriminate; try (injection H as <-; eauto).
  exists (risk_table t). split; [| apply risk_table_values].
  f_equal. unfold risk_table. dict_lookup t.
Qed.

Ltac known E Hv :=
  destruct E as (? & ?Hk & ?Hw);
  [ .. | match goal with
         | Hk : _ = Ok _ |- _ =>
             rewrite Hv in Hk; injection Hk as Hk;
             match type of Hk with
             | _ = ?x => first
                 [ subst x
                 | match goal with
                   | Hw : bounded_float ?lo ?hi ?f |- _ =>
                       change (within lo hi (PyFloat f)) in Hw;
                       rewrite <- Hk in Hw; clear Hk
                   end ]
             end
         end ].

Ltac const_bounded := apply check_bounded_correct; vm_compute; reflexivity.

Lemma risk_adjusted_within a c r total mean share discount adjusted z :
  within 0 100 a -> within 0 100 c -> In r [30; 40; 50; 60; 70] ->
  add a c = Ok total -> truediv total (PyInt 2) = Ok mean ->
  truediv (PyInt r) (PyInt 200) = Ok share ->
  sub (PyInt 1) share = Ok discount ->
  mul mean discount = Ok adjusted -> int adjusted = Ok z ->
  0 <= z <= 85.
Proof.
  intros Ha Hc Hr Ht Hm Hs Hd Hadj Hz.
  known (py_add_within 0 100 0 100 0 200 a c) Ht;
    try assumption; try rep; try lra.
  known (py_truediv_within 0 200 2 2 0 100 total (PyInt 2)) Hm;
    try assumption; try rep; try lra; try (apply (within_int 2 2); lia).
  assert (Hdis : within (1 # 2) (109 # 128) discount).
  { cbn [In] in Hr.
    destruct Hr as [<- | [<- | [<- | [<- | [<- | []]]]]];
      vm_compute in Hs; injection Hs as <-;
      vm_compute in Hd; injection Hd as <-; const_bounded. }
  known (py_mul_within 0 100 (1 # 2) (109 # 128) 0 (10900 # 128)
           mean discount) Hadj;
    try assumption; try rep; try lra.
  known (py_int_within 0 (10900 # 128) adjusted 0 85) Hz;
    try assumption; try lra.
  - vm_compute. discriminate.
  - vm_compute. reflexivity.
Qed.

Lemma overall_within a c ra m l w1 w2 s2 w3 s3 w4 s4 w5 s5 z :
  within 0 100 a -> within 0 100 c -> 0 <= ra <= 85 ->
  within 0 100 m -> within 0 100 l ->
  mul a (PyFloat (Binary64.decimal 30 2)) = Ok w1 ->
  mul c (PyFloat (Binary64.decimal 25 2)) = Ok w2 ->
  add w1 w2 = Ok s2 ->
  mul (PyInt ra) (PyFloat (Binary64.decimal 20 2)) = Ok w3 ->
  add s2 w3 = Ok s3 ->
  mul m (PyFloat (Binary64.decimal 15 2)) = Ok w4 ->
  add s3 w4 = Ok s4 ->
  mul l (PyFloat (Binary64.decimal 10 2)) = Ok w5 ->
  add s4 w5 = Ok s5 ->
  int s5 = Ok z ->
  0 <= z <= 100.
Proof.
  intros Ha Hc Hra Hm Hl H1 H2 H3 H4 H5 H6 H7 H8 H9 Hz.
  assert (Hr : within 0 85 (PyInt ra)) by (apply (within_int 0 85); lia).
  known (py_mul_within 0 100 (1 # 4) (39 # 128) 0 (3900 # 128)
           a (PyFloat (Binary64.decimal 30 2))) H1;
    try assumption; try rep; try lra; try const_bounded.
  known (py_mul_within 0 100 (1 # 4) (1 # 4) 0 (3200 # 128)
           c (PyFloat (Binary64.decimal 25 2))) H2;
    try assumption; try rep; try lra; try const_bounded.
  known (py_add_within 0 (3900 # 128) 0 (3200 # 128) 0 (7100 # 128) w1 w2) H3;
    try assumption; try rep; try lra.
  known (py_mul_within 0 85 (1 # 8) (26 # 128) 0 (2210 # 128)
           (PyInt ra) (PyFloat (Binary64.decimal 20 2))) H4;
    try assumption; try rep; try lra; try const_bounded.
  known (py_add_within 0 (7100 # 128) 0 (2210 # 128) 0 (9310 # 128) s2 w3) H5;
    try assumption; try rep; try lra.
  known (py_mul_within 0 100 (1 # 8) (20 # 128) 0 (2000 # 128)
           m (PyFloat (Binary64.decimal 15 2))) H6;
    try assumption; try rep; try lra; try const_bounded.
  known (py_add_within 0 (9310 # 128) 0 (2000 # 128) 0 (11310 # 128) s3 w4) H7;
    try assumption; try rep; try lra.
  known (py_mul_within 0 100 (1 # 16) (13 # 128) 0 (1300 # 128)
           l (PyFloat (Binary64.decimal 10 2))) H8;
    try assumption; try rep; try lra; try const_bounded.
  known (py_add_within 0 (11310 # 128) 0 (1300 # 128) 0 (12610 # 128) s4 w5) H9;
    try assumption; try rep; try lra.
  known (py_int_within 0 (12610 # 128) s5 0 100) Hz;
    try assumption; try lra.
  - vm_compute. discriminate.
  - vm_compute. reflexivity.
Qed.

(** C1 (as stated) does not hold for every request: with a forecast of a
    20% decline and no predicted price the appreciation score of the
    response is -25; with average days on market of -30 the liquidity score
    is 130; with an area of -1500 the cash-flow score is -90. *)
Lemma scores_out_of_range :
  (exists response,
      calculate_investment_score declining_request = Ok response /\
      appreciation_score response = PyInt (-25) /\
      all_in_range response = false) /\
  (exists response,
      calculate_investment_score stale_request = Ok response /\
      liquidity_score response = PyInt 130 /\
      all_in_range response = false) /\
  (exists response,
      calculate_investment_score negative_area_request = Ok response /\
      cash_flow_score response = PyInt (-90) /\
      all_in_range response = false).
Proof.
  repeat split; eexists; (split; [vm_compute; reflexivity |]);
    split; reflexivity.
Qed.

(** C1 (amended): for a request with a positive listing price, an area that
    is not negative, a forecast that is absent or not negative, and market
    metrics whose one-year appreciation is a number and whose average days on
    market are not negative, every score of the response of
    [calculate_investment_score], that is the six component scores and the
    overall score, lies in [0, 100]. *)
Theorem scores_in_range request response :
  0 < ir_list_price request -> 0 <= ir_sqft request ->
  forecast_ok (ir_appreciation_forecast request) = true ->
  metrics_ok (ir_market_metrics request) = true ->
  calculate_investment_score request = Ok response ->
  all_in_range response = true.
Proof.
  intros Hprice Hsqft Hforecast Hmetrics H.
  apply andb_true_iff in Hmetrics. destruct Hmetrics as [Hgain Hdays].
  unfold calculate_investment_score in H.
  bind_as H a Happ. bind_as H c Hcash. bind_as H m Hmom.
  bind_as H l Hliq. bind_as H r Hrisk.
  bind_as H both Htotal. bind_as H mean Hmean. bind_as H share Hshare.
  bind_as H discount Hdiscount. bind_as H adjusted Hadjusted.
  bind_as H ra Hra.
  bind_as H w1 Hw1. bind_as H w2 Hw2. bind_as H s2 Hs2.
  bind_as H w3 Hw3. bind_as H s3 Hs3. bind_as H w4 Hw4. bind_as H s4 Hs4.
  bind_as H w5 Hw5. bind_as H s5 Hs5. bind_as H overall Hoverall.
  injection H as <-.
  pose proof (appreciation_within _ _ _ _ Hforecast Happ) as Ha.
  destruct (cash_flow_within _ _ _ _ Hprice Hsqft Hcash) as (zc & -> & Hzc).
  assert (Hc : within 0 100 (PyInt zc)) by (apply (within_int 0 100); lia).
  pose proof (momentum_within _ _ Hgain Hmom) as Hm.
  pose proof (liquidity_within _ _ Hdays Hliq) as Hl.
  destruct (risk_score_values _ _ Hrisk) as (zr & -> & Hzr).
  pose proof (risk_adjusted_within _ _ _ _ _ _ _ _ _
                Ha Hc Hzr Htotal Hmean Hshare Hdiscount Hadjusted Hra)
    as Hra_range.
  pose proof (overall_within _ _ _ _ _ _ _ _ _ _ _ _ _ _ _
                Ha Hc Hra_range Hm Hl Hw1 Hw2 Hs2 Hw3 Hs3 Hw4 Hs4 Hw5 Hs5
                Hoverall) as Hoverall_range.
  unfold all_in_range.
  cbn [appreciation_score cash_flow_score market_momentum_score
       liquidity_score risk_adjusted_score risk_score overall_score].
  rewrite !within_in_range; try assumption; try reflexivity;
    apply (within_int 0 100); cbn [In] in Hzr; lia.
Qed.

(** The bound at a request that fills every field. *)
Lemma scores_in_range_witness :
  exists response,
    calculate_investment_score full_request = Ok response /\
    all_in_range response = true.
Proof.
  eexists. split; [vm_compute; reflexivity |].
  apply (scores_in_range full_request);
    [reflexivity | discriminate | reflexivity | reflexivity |
     vm_compute; reflexivity].
Defined.

(** * Scaling an integer by a constant and truncating *)

Lemma sixteenths k :
  (dyadic (16 * k + 15) (-4) == inject_Z k + (15 # 16))%Q.
Proof.
  unfold dyadic. rewrite inject_Z_plus, inject_Z_mult.
  change (Qpower 2 (-4)) with (/ (2 * 2 * 2 * 2))%Q.
  change (inject_Z 16) with 16%Q. change (inject_Z 15) with 15%Q. field.
Qed.

Lemma mul_trunc p f lo hi k :
  0 <= p < 2 ^ 53 -> bounded_float lo hi f ->
  (0 <= lo)%Q -> representable lo -> representable hi ->
  0 <= k -> 16 * k + 15 < 2 ^ 53 ->
  (inject_Z k <= inject_Z p * lo)%Q ->
  (inject_Z p * hi <= inject_Z k + (15 # 16))%Q ->
  exists m, mul (PyInt p) (PyFloat f) = Ok m /\ int m = Ok k.
Proof.
  intros Hp Hf Hlo Rlo Rhi Hk Hk16 Hlow Hhigh.
  destruct (py_mul_within (inject_Z p) (inject_Z p) lo hi
              (inject_Z k) (dyadic (16 * k + 15) (-4))
              (PyInt p) (PyFloat f)) as (m & Hm & Hw);
    try assumption; try (apply representable_Z; lia).
  - cbn [within]. split; apply Qle_refl.
  - change 0%Q with (inject_Z 0). rewrite <- Zle_Qle. lia.
  - exists (16 * k + 15), (-4). split; [lia | split; [lia | apply Qeq_refl]].
  - rewrite sixteenths. exact Hhigh.
  - exists m. split; [exact Hm |].
    destruct (py_int_within (inject_Z k) (dyadic (16 * k + 15) (-4)) m k k)
      as (z & Hz & Hb); try assumption.
    + change 0%Q with (inject_Z 0). rewrite <- Zle_Qle. lia.
    + apply Qle_refl.
    + rewrite sixteenths, inject_Z_plus. change (inject_Z 1) with 1%Q. lra.
    + rewrite Hz. f_equal. lia.
Qed.

(** * The confidence band *)

Lemma inject_Z_bounds (a b : Z) : a <= b -> (inject_Z a <= inject_Z b)%Q.
Proof. intros H. rewrite <- Zle_Qle. exact H. Qed.

Lemma tenth_cases p : 10 * (p / 10) <= p <= 10 * (p / 10) + 9.
Proof. Z.div_mod_to_equations. lia. Qed.

Lemma confidence_margin_floor p :
  0 <= p < 2 ^ 48 -> confidence_margin p = Ok (p / 10).
Proof.
  intros Hp. unfold confidence_margin.
  pose proof (tenth_cases p) as Hk. set (k := p / 10) in *. clearbody k.
  destruct (mul_trunc p (Binary64.decimal 10 2)
              (3602879701896397 # 36028797018963968)
              (3602879701896397 # 36028797018963968) k)
    as (m & -> & Hm); try lia; try exact Hm.
  - const_bounded.
  - lra.
  - rep_dyadic 3602879701896397 (-55).
  - rep_dyadic 3602879701896397 (-55).
  - pose proof (inject_Z_bounds (10 * k) p ltac:(lia)) as H1.
    rewrite inject_Z_mult in H1. change (inject_Z 10) with 10%Q in H1.
    pose proof (inject_Z_bounds 0 k ltac:(lia)) as H2.
    change (inject_Z 0) with 0%Q in H2. lra.
  - pose proof (inject_Z_bounds p (10 * k + 9) ltac:(lia)) as H1.
    rewrite inject_Z_plus, inject_Z_mult in H1.
    change (inject_Z 10) with 10%Q in H1. change (inject_Z 9) with 9%Q in H1.
    pose proof (inject_Z_bounds p (2 ^ 48) ltac:(lia)) as H2.
    change (inject_Z (2 ^ 48)) with (281474976710656 # 1)%Q in H2. lra.
Qed.

Lemma truncated_share_110 p :
  0 <= p < 2 ^ 48 -> truncated_share p 110 = Ok (p + p / 10).
Proof.
  intros Hp. unfold truncated_share.
  pose proof (tenth_cases p) as Hk. set (k := p / 10) in *. clearbody k.
  destruct (mul_trunc p (Binary64.decimal 110 2)
              (4953959590107546 # 4503599627370496)
              (4953959590107546 # 4503599627370496) (p + k))
    as (m & -> & Hm); try lia; try exact Hm.
  - const_bounded.
  - lra.
  - rep_dyadic 4953959590107546 (-52).
  - rep_dyadic 4953959590107546 (-52).
  - pose proof (inject_Z_bounds (10 * k) p ltac:(lia)) as H1.
    rewrite inject_Z_mult in H1. change (inject_Z 10) with 10%Q in H1.
    pose proof (inject_Z_bounds 0 p ltac:(lia)) as H2.
    change (inject_Z 0) with 0%Q in H2.
    rewrite inject_Z_plus. lra.
  - pose proof (inject_Z_bounds p (10 * k + 9) ltac:(lia)) as H1.
    rewrite inject_Z_plus, inject_Z_mult in H1.
    change (inject_Z 10) with 10%Q in H1. change (inject_Z 9) with 9%Q in H1.
    pose proof (inject_Z_bounds p (2 ^ 48) ltac:(lia)) as H2.
    change (inject_Z (2 ^ 48)) with (281474976710656 # 1)%Q in H2.
    rewrite inject_Z_plus. lra.
Qed.

Lemma interval_lookups p margin :
  ({[ "low" := p - margin; "high" := p + margin ]} : gmap string Z) !! "low" =
    Some (p - margin) /\
  ({[ "low" := p - margin; "high" := p + margin ]} : gmap string Z) !! "high" =
    Some (p + margin).
Proof. split; by simplify_map_eq. Qed.

(** C5 (as stated) does not hold: for the fallback price 275275 of a
    townhouse of 1001 square feet the low end of the band is 247748, while
    [int(275275 * 0.90)] is 247747. *)
Lemma townhouse_band_not_as_claimed :
  exists response,
    predict_price ∅ 2024 (Binary64.decimal 5 0) townhouse = Ok response /\
    pr_predicted_price response = 275275 /\
    pr_confidence_interval response !! "low" = Some 247748 /\
    truncated_share 275275 90 = Ok 247747 /\
    ~ band_as_claimed (pr_predicted_price response)
        (pr_confidence_interval response).
Proof.
  eexists. split; [vm_compute; reflexivity |].
  cbn [pr_predicted_price pr_confidence_interval].
  repeat split; try (vm_compute; reflexivity).
  intros (low & high & Hl & _ & Hs & _).
  vm_compute in Hl. vm_compute in Hs. congruence.
Qed.

(** C5 (amended): the band of every response of [predict_price] is
    [p - margin] and [p + margin] for [margin = int(p * 0.10)], hence
    symmetric around the predicted price [p]; for [0 <= p < 2^48] the margin
    is [p / 10] rounded down, so that the low end is [p - p / 10] (that is
    [p * 0.90] rounded up, not truncated) and the high end is [p + p / 10],
    which is [int(p * 1.10)]. *)
Theorem confidence_band models current_year appreciation features response :
  predict_price models current_year appreciation features = Ok response ->
  let p := pr_predicted_price response in
  let interval := pr_confidence_interval response in
  (exists margin,
      confidence_margin p = Ok margin /\
      interval !! "low" = Some (p - margin) /\
      interval !! "high" = Some (p + margin) /\
      p - (p - margin) = (p + margin) - p) /\
  (0 <= p < 2 ^ 48 ->
   interval !! "low" = Some (p - p / 10) /\
   interval !! "high" = Some (p + p / 10) /\
   truncated_share p 110 = Ok (p + p / 10)).
Proof.
  intros H. unfold predict_price in H.
  bind_inv H. bind_inv H. injection H as <-.
  cbn [pr_predicted_price pr_confidence_interval].
  unfold confidence_interval in Hv0. apply bind_Ok in Hv0.
  destruct Hv0 as (margin & Hmargin & Hinterval). injection Hinterval as <-.
  destruct (interval_lookups v margin) as [Hlow Hhigh].
  split.
  - exists margin. repeat split; try assumption. lia.
  - intros Hp. rewrite (confidence_margin_floor v Hp) in Hmargin.
    injection Hmargin as <-. repeat split; try assumption.
    apply truncated_share_110. exact Hp.
Qed.

(** The band of the townhouse. *)
Lemma confidence_band_witness :
  exists response,
    predict_price ∅ 2024 (Binary64.decimal 5 0) townhouse = Ok response /\
    pr_confidence_interval response !! "low" = Some 247748 /\
    pr_confidence_interval response !! "high" = Some 302802.
Proof.
  destruct (predict_price ∅ 2024 (Binary64.decimal 5 0) townhouse)
    as [response |] eqn:Hrun; [| vm_compute in Hrun; discriminate].
  exists response. split; [reflexivity |].
  destruct (confidence_band _ _ _ _ _ Hrun) as [_ Hb].
  assert (Hp : pr_predicted_price response = 275275)
    by (vm_compute in Hrun; injection Hrun as <-; reflexivity).
  rewrite Hp in Hb. destruct Hb as (Hl & Hh & _); [lia |].
  split; [exact Hl | exact Hh].
Defined.

(** * The comparables *)

Lemma for_range_Forall {A} (P : A -> Prop) (body : nat -> result A) :
  (forall i x, body i = Ok x -> P x) ->
  forall count start l, for_range body start count = Ok l -> Forall P l.
Proof.
  intros Hbody. induction count as [| n IH]; intros start l H; cbn in H.
  - injection H as <-. constructor.
  - bind_inv H. bind_inv H. injection H as <-. constructor; eauto.
Qed.

Lemma for_range_length {A} (body : nat -> result A) :
  forall count start l,
    for_range body start count = Ok l -> length l = count.
Proof.
  induction count as [| n IH]; intros start l H; cbn in H.
  - injection H as <-. reflexivity.
  - bind_inv H. bind_inv H. injection H as <-. cbn. f_equal. eauto.
Qed.

Lemma for_range_returns {A} (body : nat -> result A) :
  (forall i, exists x, body i = Ok x) ->
  forall count start, exists l, for_range body start count = Ok l.
Proof.
  intros Hbody. induction count as [| n IH]; intros start; cbn.
  - eauto.
  - destruct (Hbody start) as (x & ->). destruct (IH (S start)) as (l & ->).
    cbn. eauto.
Qed.

Lemma insert_by_similarity_Forall (P : Comp -> Prop) c l :
  P c -> Forall P l -> Forall P (insert_by_similarity c l).
Proof.
  intros Hc. induction 1 as [| y l' Hy Hl IH]; cbn.
  - auto.
  - destruct (lt _ _); auto.
Qed.

Lemma sorted_by_similarity_Forall (P : Comp -> Prop) l :
  Forall P l -> Forall P (sorted_by_similarity l).
Proof.
  induction 1 as [| c l' Hc Hl IH]; cbn.
  - constructor.
  - apply insert_by_similarity_Forall; assumption.
Qed.

Lemma insert_by_similarity_length c l :
  length (insert_by_similarity c l) = S (length l).
Proof.
  induction l as [| y l' IH]; cbn [insert_by_similarity]; [reflexivity |].
  destruct (lt _ _); cbn [length]; [rewrite IH |]; reflexivity.
Qed.

Lemma sorted_by_similarity_length l :
  length (sorted_by_similarity l) = length l.
Proof.
  induction l as [| c l' IH]; [reflexivity |].
  cbn [sorted_by_similarity fold_right].
  rewrite insert_by_similarity_length. cbn [length]. f_equal. exact IH.
Qed.

(** The order of the keys is total away from NaN. *)

Lemma xlt_false_xle a b :
  ordered a -> ordered b -> xlt a b = false -> xle b a = true.
Proof.
  intros Ha Hb H. destruct a, b; cbn in *; try contradiction;
    try discriminate; try reflexivity; rewrite H; reflexivity.
Qed.

Lemma xlt_xle a b : xlt a b = true -> xle a b = true.
Proof.
  destruct a as [| | p |], b as [| | q |]; cbn; try discriminate;
    try reflexivity.
  intros H. apply Qltb_lt in H. apply negb_true_iff. apply Qltb_ge.
  apply Qlt_le_weak. exact H.
Qed.

Lemma xle_trans a b c : xle a b = true -> xle b c = true -> xle a c = true.
Proof.
  destruct a as [| | p |], b as [| | q |], c as [| | r |]; cbn;
    try discriminate; try reflexivity.
  intros H1 H2. apply negb_true_iff in H1, H2. apply negb_true_iff.
  apply Qltb_ge in H1, H2. apply Qltb_ge. eapply Qle_trans; eassumption.
Qed.

Lemma insert_by_similarity_sorted c l :
  has_key c -> Forall has_key l -> sorted_descending l ->
  sorted_descending (insert_by_similarity c l).
Proof.
  unfold sorted_descending. intros Hc Hl Hs.
  induction l as [| y l' IH]; cbn.
  - repeat constructor.
  - inversion Hl as [| ? ? Hy Hl']; subst.
    inversion Hs as [| ? ? Hs' Hall]; subst.
    destruct (lt _ _) eqn:Hlt.
    + constructor; [auto |].
      apply insert_by_similarity_Forall; [| exact Hall].
      unfold similarity_ge, ge, le. apply xlt_xle. exact Hlt.
    + assert (Hcy : similarity_ge c y).
      { unfold similarity_ge, ge, le. apply xlt_false_xle; assumption. }
      constructor; [exact Hs |]. constructor; [exact Hcy |].
      eapply Forall_impl; [exact Hall |].
      intros z Hyz. unfold similarity_ge, ge, le in *.
      eapply xle_trans; eassumption.
Qed.

Lemma sorted_by_similarity_sorted l :
  Forall has_key l -> sorted_descending (sorted_by_similarity l).
Proof.
  induction 1 as [| c l' Hc Hl IH]; cbn.
  - constructor.
  - apply insert_by_similarity_sorted; [exact Hc | | exact IH].
    apply sorted_by_similarity_Forall. exact Hl.
Qed.

Lemma float_value_finite x :
  Binary64.is_finite x = true -> float_value x = XFin (Binary64.F2Q x).
Proof. destruct x; try discriminate; reflexivity. Qed.

Lemma between_bounds lo hi x :
  Binary64.is_finite lo = true -> Binary64.is_finite hi = true ->
  between lo hi x = true ->
  Binary64.is_finite x = true /\
  (Binary64.F2Q lo <= Binary64.F2Q x <= Binary64.F2Q hi)%Q.
Proof.
  intros Hlo Hhi H. apply andb_true_iff in H. destruct H as [H1 H2].
  unfold le in H1, H2. cbn [num_value] in H1, H2.
  rewrite (float_value_finite lo Hlo) in H1.
  rewrite (float_value_finite hi Hhi) in H2.
  assert (Hx : Binary64.is_finite x = true).
  { destruct x as [s | [] | | s m e]; try reflexivity; discriminate. }
  rewrite (float_value_finite x Hx) in H1, H2. cbn [xle] in H1, H2.
  apply negb_true_iff, Qltb_ge in H1. apply negb_true_iff, Qltb_ge in H2.
  auto.
Qed.

Lemma add_finite_between sx mx ex y lo hi :
  valid (S754_finite sx mx ex) -> Binary64.is_finite y = true ->
  (0 <= lo)%Q -> representable lo -> representable hi ->
  (lo <= Binary64.F2Q (S754_finite sx mx ex) + Binary64.F2Q y <= hi)%Q ->
  bounded_float lo hi (Binary64.add (S754_finite sx mx ex) y).
Proof.
  intros Hx Hy Hlo Rlo Rhi Hb.
  destruct y as [sy | sy | | sy my ey]; try discriminate.
  - change (Binary64.add (S754_finite sx mx ex) (S754_zero sy))
      with (S754_finite sx mx ex).
    cbn [Binary64.F2Q] in Hb. rewrite Qplus_0_r in Hb.
    split; [exact Hx |]. split; [reflexivity | exact Hb].
  - destruct (add_finite sx mx ex sy my ey) as (z & -> & Hz).
    rewrite <- Hz in Hb. apply normalize_between; try assumption.
    destruct z as [| p | p]; try lia.
    pose proof (dyadic_neg p (Z.min ex ey)). lra.
Qed.

Lemma mul_trunc_between p f lo hi a b :
  0 <= p < 2 ^ 53 -> bounded_float lo hi f ->
  (0 <= lo)%Q -> representable lo -> representable hi ->
  0 <= a <= b -> 16 * b + 15 < 2 ^ 53 ->
  (inject_Z a <= inject_Z p * lo)%Q ->
  (inject_Z p * hi <= inject_Z b + (15 # 16))%Q ->
  exists m z, mul (PyInt p) (PyFloat f) = Ok m /\ int m = Ok z /\ a <= z <= b.
Proof.
  intros Hp Hf Hlo Rlo Rhi Hab Hb16 Hlow Hhigh.
  destruct (py_mul_within (inject_Z p) (inject_Z p) lo hi
              (inject_Z a) (dyadic (16 * b + 15) (-4))
              (PyInt p) (PyFloat f)) as (m & Hm & Hw);
    try assumption; try (apply representable_Z; lia).
  - cbn [within]. split; apply Qle_refl.
  - change 0%Q with (inject_Z 0). rewrite <- Zle_Qle. lia.
  - exists (16 * b + 15), (-4). split; [lia | split; [lia | apply Qeq_refl]].
  - rewrite sixteenths. exact Hhigh.
  - exists m.
    destruct (py_int_within (inject_Z a) (dyadic (16 * b + 15) (-4)) m a b)
      as (z & Hz & Hb); try assumption.
    + change 0%Q with (inject_Z 0). rewrite <- Zle_Qle. lia.
    + apply Qle_refl.
    + rewrite sixteenths, inject_Z_plus. change (inject_Z 1) with 1%Q. lra.
    + exists z. repeat split; try assumption; lia.
Qed.

Lemma quotient_not_nan a b : Binary64.is_nan (Binary64.quotient a b) = false.
Proof.
  unfold Binary64.quotient. destruct a as [| p | p]; [reflexivity | |];
    match goal with
    | |- context [Binary64.div (S754_finite ?sx ?mx ?ex) (S754_finite ?sy ?my ?ey)] =>
        destruct (div_finite sx mx ex sy my ey) as (m2 & e2 & -> & Hm & _)
    end;
    (destruct m2 as [| q | q]; [reflexivity | | lia];
     cbn [round_result]; destruct (e2 <=? 1024 - 53); reflexivity).
Qed.

Lemma round2_not_nan x :
  Binary64.is_nan x = false -> Binary64.is_nan (Binary64.round2 x) = false.
Proof.
  destruct x as [s | s | | s m e]; try discriminate; try reflexivity.
  intros _. unfold Binary64.round2.
  destruct (_ =? 0); [reflexivity | apply quotient_not_nan].
Qed.

Lemma one_plus u lo hi :
  Binary64.is_finite u = true ->
  (0 <= lo)%Q -> representable lo -> representable hi ->
  (lo <= 1 + Binary64.F2Q u <= hi)%Q ->
  exists f, add (PyInt 1) (PyFloat u) = Ok (PyFloat f) /\ bounded_float lo hi f.
Proof.
  intros Hu Hlo Rlo Rhi Hb.
  exists (Binary64.add (S754_finite false 4503599627370496 (-52)) u).
  split; [reflexivity |].
  apply add_finite_between; try assumption; [reflexivity |].
  assert (H1 : (Binary64.F2Q (S754_finite false 4503599627370496 (-52)) == 1)%Q)
    by (vm_compute; reflexivity).
  rewrite H1. exact Hb.
Qed.

Lemma scaled_returns p u :
  0 <= p < 2 ^ 52 -> Binary64.is_finite u = true ->
  (- (1 # 2) <= Binary64.F2Q u <= 1)%Q ->
  exists factor area z,
    add (PyInt 1) (PyFloat u) = Ok factor /\
    mul (PyInt p) factor = Ok area /\ int area = Ok z.
Proof.
  intros Hp Hu Hb.
  destruct (one_plus u (1 # 2) 2 Hu) as (f & Hf & Hw);
    [lra | rep | rep | lra |].
  destruct (py_mul_within (inject_Z p) (inject_Z p) (1 # 2) 2
              0 (inject_Z (2 ^ 53)) (PyInt p) (PyFloat f)) as (m & Hm & Hmw);
    try assumption; try rep; try lra.
  - cbn [within]. split; apply Qle_refl.
  - change 0%Q with (inject_Z 0). rewrite <- Zle_Qle. lia.
  - rep_dyadic 1 53.
  - pose proof (inject_Z_bounds 0 p ltac:(lia)) as H0.
    change (inject_Z 0) with 0%Q in H0. lra.
  - pose proof (inject_Z_bounds p (2 ^ 52) ltac:(lia)) as H1.
    change (inject_Z (2 ^ 52)) with (4503599627370496 # 1)%Q in H1.
    change (inject_Z (2 ^ 53)) with (9007199254740992 # 1)%Q. lra.
  - destruct (py_int_within 0 (inject_Z (2 ^ 53)) m 0 (2 ^ 53))
      as (z & Hz & _); try assumption; try lra.
    + apply Qle_refl.
    + rewrite <- Zlt_Qlt. lia.
    + eauto 6.
Qed.

Lemma tenth_value :
  (Binary64.F2Q (Binary64.decimal 1 1) ==
   3602879701896397 # 36028797018963968)%Q /\
  (Binary64.F2Q (Binary64.opp (Binary64.decimal 1 1)) ==
   - (3602879701896397 # 36028797018963968))%Q.
Proof. split; vm_compute; reflexivity. Qed.

Lemma comp_sqft_run q u :
  0 < q < 2 ^ 48 ->
  between (Binary64.opp (Binary64.decimal 1 1)) (Binary64.decimal 1 1) u = true ->
  exists factor area z,
    add (PyInt 1) (PyFloat u) = Ok factor /\
    mul (PyInt q) factor = Ok area /\ int area = Ok z /\
    9 * q - 10 <= 10 * z <= 11 * q.
Proof.
  intros Hq Hu.
  apply between_bounds in Hu; [| reflexivity | reflexivity].
  destruct Hu as [Hfin Hu]. destruct tenth_value as [Hhi Hlo].
  rewrite Hhi, Hlo in Hu.
  destruct (one_plus u (8106479329266892 # 9007199254740992)
              (4953959590107546 # 4503599627370496) Hfin)
    as (f & Hf & Hw); [lra | | | lra |].
  { rep_dyadic 8106479329266892 (-53). }
  { rep_dyadic 4953959590107546 (-52). }
  assert (Ha : 10 * ((9 * q - 1) / 10) <= 9 * q - 1 <=
               10 * ((9 * q - 1) / 10) + 9) by apply tenth_cases.
  assert (Hb : 10 * ((11 * q) / 10) <= 11 * q <= 10 * ((11 * q) / 10) + 9)
    by apply tenth_cases.
  set (a := (9 * q - 1) / 10) in *. set (b := (11 * q) / 10) in *.
  clearbody a b.
  destruct (mul_trunc_between q f (8106479329266892 # 9007199254740992)
              (4953959590107546 # 4503599627370496) a b)
    as (m & z & Hm & Hz & Hzb); try assumption; try lia; try lra.
  - rep_dyadic 8106479329266892 (-53).
  - rep_dyadic 4953959590107546 (-52).
  - pose proof (inject_Z_bounds (10 * a + 1) (9 * q) ltac:(lia)) as H1.
    rewrite inject_Z_plus, !inject_Z_mult in H1.
    change (inject_Z 10) with 10%Q in H1. change (inject_Z 9) with 9%Q in H1.
    change (inject_Z 1) with 1%Q in H1.
    pose proof (inject_Z_bounds q (2 ^ 48) ltac:(lia)) as H2.
    change (inject_Z (2 ^ 48)) with (281474976710656 # 1)%Q in H2. lra.
  - pose proof (inject_Z_bounds (11 * q) (10 * b + 9) ltac:(lia)) as H1.
    rewrite inject_Z_plus, !inject_Z_mult in H1.
    change (inject_Z 10) with 10%Q in H1. change (inject_Z 9) with 9%Q in H1.
    change (inject_Z 11) with 11%Q in H1.
    pose proof (inject_Z_bounds q (2 ^ 48) ltac:(lia)) as H2.
    change (inject_Z (2 ^ 48)) with (281474976710656 # 1)%Q in H2. lra.
  - exists (PyFloat f), m, z. repeat split; try assumption; lia.
Qed.

Lemma draws_in_range_spec d :
  draws_in_range d = true ->
  between (Binary64.opp (Binary64.decimal 15 2)) (Binary64.decimal 15 2)
    (d_variance d) = true /\
  between (Binary64.opp (Binary64.decimal 1 1)) (Binary64.decimal 1 1)
    (d_sqft d) = true /\
  between (Binary64.decimal 75 2) (Binary64.decimal 95 2)
    (d_similarity d) = true.
Proof.
  unfold draws_in_range. intros H.
  do 7 (apply andb_true_iff in H; destruct H as [H ?]). auto.
Qed.

Lemma synthetic_comp_sqft now request i d c :
  0 < cr_sqft request < 2 ^ 48 -> draws_in_range d = true ->
  synthetic_comp now request i d = Ok c ->
  within_ten_percent_truncated (cr_sqft request) c.
Proof.
  intros Hq Hd H. apply draws_in_range_spec in Hd.
  destruct Hd as (_ & Hu & _). unfold synthetic_comp in H.
  bind_as H price_factor Hpf. bind_as H price Hprice.
  bind_as H sold Hsold. bind_as H sqft_factor Hsf.
  bind_as H area Harea. bind_as H z Hz. injection H as <-.
  unfold within_ten_percent_truncated. cbn [sqft].
  destruct (comp_sqft_run (cr_sqft request) (d_sqft d) Hq Hu)
    as (f' & a' & z' & Hf' & Ha' & Hz' & Hb).
  rewrite Hsf in Hf'. injection Hf' as <-.
  rewrite Harea in Ha'. injection Ha' as <-.
  rewrite Hz in Hz'. injection Hz' as <-. exact Hb.
Qed.

Lemma not_nan_ordered x :
  Binary64.is_nan x = false -> ordered (float_value x).
Proof. destruct x as [s | [] | | s m e]; try discriminate; intros _; exact I. Qed.

Lemma synthetic_comp_has_key now request i d c :
  draws_in_range d = true -> synthetic_comp now request i d = Ok c ->
  has_key c.
Proof.
  intros Hd H. apply draws_in_range_spec in Hd.
  destruct Hd as (_ & _ & Hs). unfold synthetic_comp in H.
  bind_as H price_factor Hpf. bind_as H price Hprice.
  bind_as H sold Hsold. bind_as H sqft_factor Hsf.
  bind_as H area Harea. bind_as H z Hz. injection H as <-.
  unfold has_key. cbn [similarity].
  apply not_nan_ordered, round2_not_nan.
  apply between_bounds in Hs; [| reflexivity | reflexivity].
  destruct Hs as [Hfin _]. destruct (d_similarity d); try discriminate; reflexivity.
Qed.

Lemma synthetic_comp_returns now request i d :
  0 <= cr_sqft request < 2 ^ 44 -> draws_in_range d = true ->
  exists c, synthetic_comp now request i d = Ok c.
Proof.
  intros Hq Hd. apply draws_in_range_spec in Hd.
  destruct Hd as (Hv & Hu & _).
  apply between_bounds in Hv; [| reflexivity | reflexivity].
  apply between_bounds in Hu; [| reflexivity | reflexivity].
  destruct Hv as [Hvf Hv]. destruct Hu as [Huf Hu].
  assert (H15 : (- (1 # 2) <=
                 Binary64.F2Q (Binary64.opp (Binary64.decimal 15 2)))%Q /\
                (Binary64.F2Q (Binary64.decimal 15 2) <= 1)%Q)
    by (split; vm_compute; discriminate).
  assert (H10 : (- (1 # 2) <=
                 Binary64.F2Q (Binary64.opp (Binary64.decimal 1 1)))%Q /\
                (Binary64.F2Q (Binary64.decimal 1 1) <= 1)%Q)
    by (split; vm_compute; discriminate).
  destruct (scaled_returns (cr_sqft request * 250) (d_variance d))
    as (pf & price & sold & Hpf & Hprice & Hsold); [lia | exact Hvf | lra |].
  destruct (scaled_returns (cr_sqft request) (d_sqft d))
    as (sf & area & z & Hsf & Harea & Hz); [lia | exact Huf | lra |].
  unfold synthetic_comp.
  rewrite Hpf, bind_Ok_eq, Hprice, bind_Ok_eq, Hsold, bind_Ok_eq.
  rewrite Hsf, bind_Ok_eq, Harea, bind_Ok_eq, Hz, bind_Ok_eq.
  eauto.
Qed.

(** C4 (as stated) does not hold: for a query of 15 square feet and a draw
    of -0.09 the comparable has [int(15 * 0.91) = 13] square feet, less than
    [0.9 * 15 = 13.5]. *)
Lemma comp_sqft_below_ten_percent :
  exists comps,
    generate_synthetic_comps 1700000000 (fun _ => steady_draws)
      (small_request 1) = Ok comps /\
    draws_in_range steady_draws = true /\
    map sqft comps = [13] /\
    ~ Forall (within_ten_percent 15) comps.
Proof.
  eexists. split; [vm_compute; reflexivity |].
  split; [vm_compute; reflexivity |]. split; [reflexivity |].
  intros H. inversion H as [| c l Hc Hl]. subst.
  unfold within_ten_percent in Hc. cbn [sqft] in Hc. lia.
Qed.

(** C4 (amended): for a query area [0 < q < 2^48] and draws within their
    ranges, the area of every generated comparable is between [0.9 * q - 1]
    and [1.1 * q]: the truncation of [int] can take it below [0.9 * q], by
    less than one square foot. *)
Theorem comp_sqft_range now rng request comps :
  0 < cr_sqft request < 2 ^ 48 ->
  (forall i, draws_in_range (rng i) = true) ->
  generate_synthetic_comps now rng request = Ok comps ->
  Forall (within_ten_percent_truncated (cr_sqft request)) comps.
Proof.
  intros Hq Hd H. unfold generate_synthetic_comps in H.
  bind_as H l Hl. injection H as <-.
  apply sorted_by_similarity_Forall.
  apply (for_range_Forall (within_ten_percent_truncated (cr_sqft request)))
    in Hl; [exact Hl |].
  intros i c Hc. eapply synthetic_comp_sqft; eauto.
Qed.

(** The bound on three comparables of a query of 15 square feet. *)
Lemma comp_sqft_range_witness :
  exists comps,
    generate_synthetic_comps 1700000000 varied_draws (small_request 3) =
      Ok comps /\
    Forall (within_ten_percent_truncated 15) comps.
Proof.
  destruct (generate_synthetic_comps 1700000000 varied_draws (small_request 3))
    as [comps |] eqn:Hrun; [| vm_compute in Hrun; discriminate].
  exists comps. split; [reflexivity |].
  apply (comp_sqft_range 1700000000 varied_draws (small_request 3) comps);
    [cbn; lia | | exact Hrun].
  intros i. unfold varied_draws. destruct (Nat.even i); vm_compute; reflexivity.
Defined.

(** The sort rearranges the records of the loop. *)

Lemma insert_by_similarity_perm c l : insert_by_similarity c l ≡ₚ c :: l.
Proof.
  induction l as [| y l' IH]; cbn [insert_by_similarity]; [reflexivity |].
  destruct (lt _ _); [| reflexivity].
  rewrite IH. apply Permutation_swap.
Qed.

Lemma sorted_by_similarity_perm l : sorted_by_similarity l ≡ₚ l.
Proof.
  induction l as [| c l' IH]; [reflexivity |].
  cbn [sorted_by_similarity fold_right].
  rewrite insert_by_similarity_perm. apply Permutation_skip. exact IH.
Qed.

Lemma generated_comps now rng request comps :
  generate_synthetic_comps now rng request = Ok comps <->
  exists l, generated now rng request = Ok l /\ comps = sorted_by_similarity l.
Proof.
  unfold generate_synthetic_comps, generated. split.
  - intros H. bind_as H l Hl. injection H as <-. eauto.
  - intros (l & -> & ->). reflexivity.
Qed.

Lemma for_range_lookup {A} (body : nat -> result A) :
  forall count start l,
    for_range body start count = Ok l ->
    forall i x, l !! i = Some x -> body (start + i)%nat = Ok x.
Proof.
  induction count as [| n IH]; intros start l H i x Hi; cbn in H.
  - injection H as <-. discriminate.
  - bind_as H y Hy. bind_as H ys Hys. injection H as <-.
    destruct i as [| i]; cbn in Hi.
    + injection Hi as <-. rewrite Nat.add_0_r. exact Hy.
    + replace (start + S i)%nat with (S start + i)%nat by lia. eauto.
Qed.

Lemma synthetic_comp_key now request i d c :
  synthetic_comp now request (Z.of_nat i) d = Ok c ->
  address c = address_at i /\
  similarity c = Binary64.round2 (d_similarity d).
Proof.
  intros Hc. unfold synthetic_comp in Hc.
  bind_as Hc price_factor Hpf. bind_as Hc price Hprice.
  bind_as Hc sold Hsold. bind_as Hc sqft_factor Hsf.
  bind_as Hc area Harea. bind_as Hc z Hz. injection Hc as <-.
  split; reflexivity.
Qed.

(** C7: for a requested count [N >= 0] and draws within their ranges,
    every list returned by [generate_synthetic_comps] holds the [N] records
    that the loop generated, each of them once: it is a rearrangement of
    the list of the loop, whose record at index [i] has the address
    [100 + 10 i] Demo Street and the similarity [round(u_i, 2)] of the
    [i]-th draw; it has exactly [N] records; and it is ordered by
    similarity, largest first.  The function does return a list when the
    query area is in [0, 2^44) and the bedrooms count is one that the
    addition of the drawn -1, 0 or 1 keeps within 64 bits. *)
Theorem comps_count_and_order now rng request :
  0 <= cr_limit request ->
  (forall i, draws_in_range (rng i) = true) ->
  (forall comps,
      generate_synthetic_comps now rng request = Ok comps ->
      (exists l,
          generated now rng request = Ok l /\
          Z.of_nat (length l) = cr_limit request /\
          (forall i c, l !! i = Some c ->
                       address c = address_at i /\
                       similarity c =
                         Binary64.round2 (d_similarity (rng i))) /\
          comps ≡ₚ l) /\
      Z.of_nat (length comps) = cr_limit request /\
      sorted_descending comps) /\
  (0 <= cr_sqft request < 2 ^ 44 ->
   - 2 ^ 63 < cr_bedrooms request < 2 ^ 63 - 1 ->
   exists comps, generate_synthetic_comps now rng request = Ok comps).
Proof.
  intros Hn Hd. split.
  - intros comps H. apply generated_comps in H. destruct H as (l & Hl & ->).
    pose proof Hl as Hlen. unfold generated in Hlen.
    apply for_range_length in Hlen.
    split; [| split].
    + exists l. split; [exact Hl |]. split; [lia |].
      split; [| apply sorted_by_similarity_perm].
      intros i c Hi. unfold generated in Hl.
      apply (for_range_lookup _ _ _ _ Hl) in Hi. cbn [Nat.add] in Hi.
      eapply synthetic_comp_key. exact Hi.
    + rewrite sorted_by_similarity_length. lia.
    + apply sorted_by_similarity_sorted. unfold generated in Hl.
      apply (for_range_Forall has_key) in Hl; [exact Hl |].
      intros i c Hc. eapply synthetic_comp_has_key; eauto.
  - intros Hq _. unfold generate_synthetic_comps.
    destruct (for_range_returns
                (fun i => synthetic_comp now request (Z.of_nat i) (rng i))
                ltac:(intros i; apply synthetic_comp_returns; auto)
                (Z.to_nat (cr_limit request)) 0%nat) as (l & ->).
    rewrite bind_Ok_eq. eauto.
Qed.

(** Three comparables whose similarities are drawn as 0.80, 0.90, 0.80: the
    second record of the loop comes first, the other two keep their order. *)
Lemma comps_count_and_order_witness :
  exists comps,
    generate_synthetic_comps 1700000000 varied_draws (small_request 3) =
      Ok comps /\
    length comps = 3%nat /\ sorted_descending comps /\
    map address comps =
      ["110 Demo Street"; "100 Demo Street"; "120 Demo Street"] /\
    exists l, generated 1700000000 varied_draws (small_request 3) = Ok l /\
              comps ≡ₚ l.
Proof.
  assert (Hd : forall i, draws_in_range (varied_draws i) = true).
  { intros i. unfold varied_draws. destruct (Nat.even i); vm_compute; reflexivity. }
  destruct (comps_count_and_order 1700000000 varied_draws (small_request 3)
              ltac:(cbn; lia) Hd) as [Hall Hex].
  destruct Hex as (comps & Hrun); [cbn; lia | cbn; lia |].
  exists comps. split; [exact Hrun |].
  destruct (Hall comps Hrun) as ((l & Hl & _ & _ & Hperm) & Hlen & Hsorted).
  split; [cbn in Hlen; lia |]. split; [exact Hsorted |].
  split; [| exists l; split; [exact Hl | exact Hperm]].
  vm_compute in Hrun. injection Hrun as <-. reflexivity.
Defined.

(** * Further properties of the serving layer *)

(** ** Risk level and recommendation *)

(** X1: on integer scores [get_risk_level] is a step function with steps
    after 30, 50, 70 and 85, and it is monotone: a higher risk score never
    gives a lower risk level. *)
Theorem risk_level_monotone a b :
  a <= b ->
  risk_rank (get_risk_level (PyInt a)) <= risk_rank (get_risk_level (PyInt b)) /\
  risk_rank (get_risk_level (PyInt a)) =
    (if a <=? 30 then 0 else if a <=? 50 then 1 else if a <=? 70 then 2
     else if a <=? 85 then 3 else 4).
Proof.
  intros Hab. unfold get_risk_level. rewrite !le_int.
  repeat match goal with
         | |- context [?x <=? ?y] => destruct (Z.leb_spec x y)
         end; cbn; try lia; split; try reflexivity; lia.
Qed.

Lemma risk_level_monotone_witness :
  get_risk_level (PyInt 45) = "Medium-Low" /\
  get_risk_level (PyInt 71) = "Medium-High" /\
  risk_rank (get_risk_level (PyInt 45)) <= risk_rank (get_risk_level (PyInt 71)).
Proof.
  split; [reflexivity |]. split; [reflexivity |].
  apply (risk_level_monotone 45 71). lia.
Defined.

Lemma investment_score_fields request response :
  calculate_investment_score request = Ok response ->
  calculate_appreciation_score (ir_list_price request)
    (ir_predicted_price request) (ir_appreciation_forecast request) =
    Ok (appreciation_score response) /\
  calculate_cash_flow_score (ir_list_price request) (ir_sqft request)
    (ir_market_metrics request) = Ok (cash_flow_score response) /\
  calculate_market_momentum_score (ir_market_metrics request) =
    Ok (market_momentum_score response) /\
  calculate_liquidity_score (ir_market_metrics request) =
    Ok (liquidity_score response) /\
  calculate_risk_score (ir_market_metrics request) =
    Ok (risk_score response) /\
  risk_level response = get_risk_level (risk_score response) /\
  recommendation response =
    generate_recommendation (overall_score response)
      (appreciation_score response) (cash_flow_score response)
      (risk_score response) /\
  key_factors response =
    get_key_factors (appreciation_score response) (cash_flow_score response)
      (market_momentum_score response) (liquidity_score response).
Proof.
  intros H. unfold calculate_investment_score in H.
  bind_as H a Happ. bind_as H c Hcash. bind_as H m Hmom.
  bind_as H l Hliq. bind_as H r Hrisk.
  do 16 (let x := fresh "x" in let Hx := fresh "Hx" in bind_as H x Hx).
  injection H as <-. cbn. repeat split; assumption.
Qed.

(** X2: the risk score of a response is one of 30, 40, 50, 60, 70, so that
    the endpoint never reports the levels "Medium-High" and "High" and never
    gives the "Avoid" recommendation, which needs a risk score above 70. *)
Theorem risk_levels_of_a_response request response :
  calculate_investment_score request = Ok response ->
  In (risk_score response) (map PyInt [30; 40; 50; 60; 70]) /\
  In (risk_level response) ["Low"; "Medium-Low"; "Medium"] /\
  recommendation response <> "Avoid - High risk with below-average returns.".
Proof.
  intros H. apply investment_score_fields in H.
  destruct H as (_ & _ & _ & _ & Hrisk & -> & -> & _).
  destruct (risk_score_values _ _ Hrisk) as (z & -> & Hz).
  split; [apply in_map; exact Hz |].
  assert (Hgt : gt (PyInt z) (PyInt 70) = false).
  { rewrite gt_int. cbn [In] in Hz. apply Z.ltb_ge. lia. }
  split.
  - cbn [In] in Hz.
    destruct Hz as [<- | [<- | [<- | [<- | [<- | []]]]]]; cbn; tauto.
  - unfold generate_recommendation. rewrite Hgt.
    repeat match goal with
           | |- context [if ?b then _ else _] => destruct b
           end; discriminate.
Qed.

Lemma risk_levels_of_a_response_witness :
  exists response,
    calculate_investment_score full_request = Ok response /\
    In (risk_level response) ["Low"; "Medium-Low"; "Medium"].
Proof.
  destruct (calculate_investment_score full_request) as [response |] eqn:Hrun;
    [| vm_compute in Hrun; discriminate].
  exists response. split; [reflexivity |].
  destruct (risk_levels_of_a_response _ _ Hrun) as (_ & Hlevel & _).
  exact Hlevel.
Defined.

(** ** Key factors *)

(** X3: [get_key_factors] never returns an empty list and never more than
    four entries; the result is the single entry "Average market
    conditions" exactly when none of the four scores is at least 70 or at
    most 30, and that entry never comes with another one. *)
Theorem key_factors_shape a c m l :
  (1 <= length (get_key_factors a c m l) <= 4)%nat /\
  (get_key_factors a c m l = ["Average market conditions"] <->
   salient a = false /\ salient c = false /\ salient m = false /\
   salient l = false) /\
  (In "Average market conditions" (get_key_factors a c m l) ->
   get_key_factors a c m l = ["Average market conditions"]).
Proof.
  unfold get_key_factors, factor, salient.
  destruct (ge a (PyInt 70)), (le a (PyInt 30)), (ge c (PyInt 70)),
    (le c (PyInt 30)), (ge m (PyInt 70)), (le m (PyInt 30)),
    (ge l (PyInt 70)), (le l (PyInt 30)); cbn;
    (split; [lia |]); (split; [split |]);
    try discriminate; try tauto;
    intuition discriminate.
Qed.

(** ** A listing price of zero *)

Lemma cash_flow_zero_price sqft metrics :
  calculate_cash_flow_score 0 sqft metrics = Raise ZeroDivisionError \/
  calculate_cash_flow_score 0 sqft metrics = Raise OverflowError.
Proof.
  unfold calculate_cash_flow_score.
  change (mul (PyInt sqft) (PyFloat (decimal 15 1)))
    with (a ← to_float (PyInt sqft);
          Ok (PyFloat (Binary64.mul a (decimal 15 1)))).
  unfold to_float. destruct (Binary64.of_Z sqft); (right; reflexivity) || (left; reflexivity).
Qed.

Lemma cash_flow_zero_price_small sqft metrics :
  0 <= sqft < 2 ^ 53 ->
  calculate_cash_flow_score 0 sqft metrics = Raise ZeroDivisionError.
Proof.
  intros Hs. unfold calculate_cash_flow_score.
  change (mul (PyInt sqft) (PyFloat (decimal 15 1)))
    with (a ← to_float (PyInt sqft);
          Ok (PyFloat (Binary64.mul a (decimal 15 1)))).
  destruct (of_Z_exact sqft Hs) as (_ & Hfin & _).
  unfold to_float. destruct (Binary64.of_Z sqft); try discriminate; reflexivity.
Qed.



(** ** Market metrics *)

Lemma no_metrics_empty : no_metrics (Some ∅) = true.
Proof. apply bool_decide_eq_true. reflexivity. Qed.

Lemma no_metrics_some m : m <> ∅ -> no_metrics (Some m) = false.
Proof. intros H. apply bool_decide_eq_false. exact H. Qed.

(** X5: an empty [market_metrics] dictionary is treated as an absent one:
    momentum, liquidity and risk are all 50, and the response of the
    endpoint is the one it gives without metrics. *)
Theorem empty_metrics_as_absent :
  calculate_market_momentum_score (Some ∅) = Ok (PyInt 50) /\
  calculate_liquidity_score (Some ∅) = Ok (PyInt 50) /\
  calculate_risk_score (Some ∅) = Ok (PyInt 50) /\
  forall request,
    calculate_investment_score (with_metrics request (Some ∅)) =
    calculate_investment_score (with_metrics request None).
Proof.
  assert (Hm : calculate_market_momentum_score (Some ∅) = Ok (PyInt 50)).
  { unfold calculate_market_momentum_score. now rewrite no_metrics_empty. }
  assert (Hl : calculate_liquidity_score (Some ∅) = Ok (PyInt 50)).
  { unfold calculate_liquidity_score. now rewrite no_metrics_empty. }
  assert (Hr : calculate_risk_score (Some ∅) = Ok (PyInt 50)).
  { unfold calculate_risk_score. now rewrite no_metrics_empty. }
  split; [exact Hm | split; [exact Hl | split; [exact Hr |]]].
  intros request. unfold calculate_investment_score.
  cbn [with_metrics ir_market_metrics ir_list_price ir_predicted_price
       ir_sqft ir_appreciation_forecast].
  rewrite Hm, Hl, Hr. reflexivity.
Qed.

(** X6: with market metrics that are not empty, a missing
    [appreciation_1y] gives a momentum of 50, a missing
    [days_on_market_avg] a liquidity of 40 (not the 50 of absent metrics),
    a missing [market_temperature] a risk of 50; an [appreciation_1y] or
    [days_on_market_avg] that is not a number raises [TypeError]; a
    temperature that is not a string counts as unknown (50) unless it is a
    list or a dictionary, which raises [TypeError]. *)
Theorem market_metrics_defaults (m : gmap string value) :
  m <> ∅ ->
  (m !! "appreciation_1y" = None ->
   calculate_market_momentum_score (Some m) = Ok (PyInt 50)) /\
  (m !! "days_on_market_avg" = None ->
   calculate_liquidity_score (Some m) = Ok (PyInt 40)) /\
  (m !! "market_temperature" = None ->
   calculate_risk_score (Some m) = Ok (PyInt 50)) /\
  (forall v, m !! "appreciation_1y" = Some v -> not_a_number v = true ->
             calculate_market_momentum_score (Some m) = Raise TypeError) /\
  (forall v, m !! "days_on_market_avg" = Some v -> not_a_number v = true ->
             calculate_liquidity_score (Some m) = Raise TypeError) /\
  (m !! "market_temperature" = Some VCompound ->
   calculate_risk_score (Some m) = Raise TypeError) /\
  (forall v, m !! "market_temperature" = Some v ->
             match v with VStr _ | VCompound => False | _ => True end ->
             calculate_risk_score (Some m) = Ok (PyInt 50)).
Proof.
  intros Hne. pose proof (no_metrics_some m Hne) as Hno.
  unfold calculate_market_momentum_score, calculate_liquidity_score,
    calculate_risk_score, get. rewrite Hno.
  repeat split.
  - intros ->. reflexivity.
  - intros ->. reflexivity.
  - intros ->. reflexivity.
  - intros v -> Hv. destruct v; try discriminate; reflexivity.
  - intros v -> Hv. destruct v; try discriminate; reflexivity.
  - intros ->. reflexivity.
  - intros v -> Hv. destruct v; try contradiction; reflexivity.
Qed.

Lemma market_metrics_defaults_witness :
  calculate_market_momentum_score (Some hot_market) = Ok (PyInt 50) /\
  calculate_liquidity_score (Some hot_market) = Ok (PyInt 40).
Proof.
  assert (Hne : hot_market <> ∅).
  { intros H. apply (f_equal (fun m => m !! "market_temperature")) in H.
    vm_compute in H. discriminate. }
  destruct (market_metrics_defaults hot_market Hne) as (Hm & Hl & _).
  split; [apply Hm | apply Hl]; reflexivity.
Defined.

(** ** Price prediction *)



(** X8: without a loaded price model the response of [predict_price] is
    determined by the property id, the area, the property type and the
    appreciation draw: the zip code, the rooms, the year, the lot and the
    coordinates have no influence, nor has the current year. *)
Theorem fallback_ignores_location (models : gmap string Model) year1 year2
    appreciation f1 f2 :
  models !! "price_predictor" = None ->
  pf_property_id f1 = pf_property_id f2 ->
  pf_sqft f1 = pf_sqft f2 ->
  pf_property_type f1 = pf_property_type f2 ->
  predict_price models year1 appreciation f1 =
  predict_price models year2 appreciation f2.
Proof.
  intros Hm Hid Hsqft Htype. unfold predict_price, fallback_price.
  change (@lookup string (list num -> result Binary64.float))
    with (@lookup string Model).
  rewrite Hm, Hid, Hsqft, Htype.
  rewrite !estimate_price_per_sqft_table. reflexivity.
Qed.

Lemma fallback_ignores_location_witness :
  predict_price ∅ 2024 (Binary64.decimal 5 0) townhouse =
  predict_price ∅ 2030 (Binary64.decimal 5 0) (elsewhere townhouse).
Proof.
  apply fallback_ignores_location; reflexivity.
Defined.

(** * Further properties of the comparables *)

Lemma draws_in_range_rest d :
  draws_in_range d = true ->
  between (Binary64.decimal 1 1) (Binary64.decimal 20 1) (d_distance d) = true /\
  30 <= d_days d < 180 /\ -1 <= d_bedrooms d <= 1.
Proof.
  unfold draws_in_range. intros H.
  do 7 (apply andb_true_iff in H; destruct H as [H ?]).
  repeat match goal with
         | H : (_ <=? _) = true |- _ => apply Z.leb_le in H
         | H : (_ <? _) = true |- _ => apply Z.ltb_lt in H
         end.
  auto.
Qed.

Lemma half_cases n : 2 * (n / 2) <= n <= 2 * (n / 2) + 1.
Proof. Z.div_mod_to_equations. lia. Qed.

Lemma fifteen_value :
  (Binary64.F2Q (Binary64.decimal 15 2) ==
   5404319552844595 # 36028797018963968)%Q /\
  (Binary64.F2Q (Binary64.opp (Binary64.decimal 15 2)) ==
   - (5404319552844595 # 36028797018963968))%Q.
Proof. split; vm_compute; reflexivity. Qed.

Lemma comp_price_run q v :
  0 < q < 2 ^ 40 ->
  between (Binary64.opp (Binary64.decimal 15 2)) (Binary64.decimal 15 2) v = true ->
  exists factor price z,
    add (PyInt 1) (PyFloat v) = Ok factor /\
    mul (PyInt (q * 250)) factor = Ok price /\ int price = Ok z /\
    17 * (q * 250) - 20 <= 20 * z <= 23 * (q * 250).
Proof.
  intros Hq Hv.
  apply between_bounds in Hv; [| reflexivity | reflexivity].
  destruct Hv as [Hfin Hv]. destruct fifteen_value as [Hhi Hlo].
  rewrite Hhi, Hlo in Hv.
  destruct (one_plus v (7656119366529843 # 9007199254740992)
              (5179139571476071 # 4503599627370496) Hfin)
    as (f & Hf & Hw); [lra | | | lra |].
  { rep_dyadic 7656119366529843 (-53). }
  { rep_dyadic 5179139571476071 (-52). }
  pose proof (half_cases (425 * q - 1)) as Ha.
  pose proof (half_cases (575 * q)) as Hb.
  set (a := (425 * q - 1) / 2) in *. set (b := (575 * q) / 2) in *.
  clearbody a b.
  destruct (mul_trunc_between (q * 250) f
              (7656119366529843 # 9007199254740992)
              (5179139571476071 # 4503599627370496) a b)
    as (m & z & Hm & Hz & Hzb); try assumption; try lia; try lra.
  - rep_dyadic 7656119366529843 (-53).
  - rep_dyadic 5179139571476071 (-52).
  - pose proof (inject_Z_bounds (2 * a + 1) (425 * q) ltac:(lia)) as H1.
    rewrite inject_Z_plus, !inject_Z_mult in H1.
    change (inject_Z 2) with 2%Q in H1. change (inject_Z 425) with 425%Q in H1.
    change (inject_Z 1) with 1%Q in H1.
    pose proof (inject_Z_bounds q (2 ^ 40) ltac:(lia)) as H2.
    change (inject_Z (2 ^ 40)) with (1099511627776 # 1)%Q in H2.
    rewrite inject_Z_mult. change (inject_Z 250) with 250%Q. lra.
  - pose proof (inject_Z_bounds (575 * q) (2 * b + 1) ltac:(lia)) as H1.
    rewrite inject_Z_plus, !inject_Z_mult in H1.
    change (inject_Z 2) with 2%Q in H1. change (inject_Z 575) with 575%Q in H1.
    change (inject_Z 1) with 1%Q in H1.
    pose proof (inject_Z_bounds q (2 ^ 40) ltac:(lia)) as H2.
    change (inject_Z (2 ^ 40)) with (1099511627776 # 1)%Q in H2.
    rewrite inject_Z_mult. change (inject_Z 250) with 250%Q. lra.
  - exists (PyFloat f), m, z. repeat split; try assumption; lia.
Qed.

Lemma synthetic_comp_price now request i d c :
  0 < cr_sqft request < 2 ^ 40 -> draws_in_range d = true ->
  synthetic_comp now request i d = Ok c ->
  price_within_fifteen_percent (cr_sqft request) c.
Proof.
  intros Hq Hd H. apply draws_in_range_spec in Hd.
  destruct Hd as (Hv & _ & _). unfold synthetic_comp in H.
  bind_as H price_factor Hpf. bind_as H price Hprice.
  bind_as H sold Hsold. bind_as H sqft_factor Hsf.
  bind_as H area Harea. bind_as H z Hz. injection H as <-.
  unfold price_within_fifteen_percent. cbn [sold_price].
  destruct (comp_price_run (cr_sqft request) (d_variance d) Hq Hv)
    as (f' & p' & z' & Hf' & Hp' & Hz' & Hb).
  rewrite Hpf in Hf'. injection Hf' as <-.
  rewrite Hprice in Hp'. injection Hp' as <-.
  rewrite Hsold in Hz'. injection Hz' as <-. exact Hb.
Qed.

Lemma generated_Forall (P : Comp -> Prop) now rng request comps :
  (forall i c, synthetic_comp now request (Z.of_nat i) (rng i) = Ok c -> P c) ->
  generate_synthetic_comps now rng request = Ok comps -> Forall P comps.
Proof.
  intros HP H. unfold generate_synthetic_comps in H.
  bind_as H l Hl. injection H as <-.
  apply sorted_by_similarity_Forall.
  apply (for_range_Forall P) in Hl; [exact Hl |].
  intros i c Hc. eapply HP; eauto.
Qed.

(** X9: for a query area [0 < q < 2^40] and draws within their ranges, the
    sale price of every comparable is within 15% of [q * 250], up to the
    truncation of [int]: between [0.85 * q * 250 - 1] and
    [1.15 * q * 250]. *)
Theorem comp_price_range now rng request comps :
  0 < cr_sqft request < 2 ^ 40 ->
  (forall i, draws_in_range (rng i) = true) ->
  generate_synthetic_comps now rng request = Ok comps ->
  Forall (price_within_fifteen_percent (cr_sqft request)) comps.
Proof.
  intros Hq Hd. apply generated_Forall.
  intros i c Hc. eapply synthetic_comp_price; eauto.
Qed.

Lemma comp_price_range_witness :
  exists comps,
    generate_synthetic_comps 1700000000 varied_draws (small_request 3) =
      Ok comps /\
    Forall (price_within_fifteen_percent 15) comps.
Proof.
  destruct (generate_synthetic_comps 1700000000 varied_draws (small_request 3))
    as [comps |] eqn:Hrun; [| vm_compute in Hrun; discriminate].
  exists comps. split; [reflexivity |].
  apply (comp_price_range 1700000000 varied_draws (small_request 3) comps);
    [cbn; lia | | exact Hrun].
  intros i. unfold varied_draws. destruct (Nat.even i); vm_compute; reflexivity.
Defined.



(** ** Rounding to two decimals *)

Lemma round_half_even_between n e k1 k2 :
  0 <= n ->
  (inject_Z k1 <= dyadic n e)%Q -> (dyadic n e <= inject_Z k2)%Q ->
  k1 <= Binary64.round_half_even n e <= k2.
Proof.
  intros Hn H1 H2. rewrite <- (dyadic_Z k1) in H1. rewrite <- (dyadic_Z k2) in H2.
  apply dle_Qle in H1, H2. unfold Binary64.round_half_even.
  destruct (Z.leb_spec 0 e) as [He | He].
  - rewrite Z.shiftl_mul_pow2 by assumption.
    apply (dle_at 0) in H1; [| lia | lia]. apply (dle_at 0) in H2; [| lia | lia].
    rewrite !Z.sub_0_r, Z.pow_0_r, Z.mul_1_r in H1, H2.
    set (N := n * 2 ^ e) in *. clearbody N. lia.
  - apply (dle_at e) in H1; [| lia | lia]. apply (dle_at e) in H2; [| lia | lia].
    rewrite Z.sub_diag, Z.sub_0_l, Z.pow_0_r, Z.mul_1_r in H1, H2.
    assert (Hd : 0 < 2 ^ (- e)) by (apply pow2_pos; lia).
    set (D := 2 ^ (- e)) in *.
    pose proof (Z.div_mod n D ltac:(lia)) as Hdiv.
    pose proof (Z.mod_pos_bound n D Hd) as Hmod.
    set (q := n / D) in *. set (r := n mod D) in *. clearbody q r D.
    assert (Hq1 : k1 <= q) by nia.
    assert (Hq2 : q <= k2) by nia.
    assert (Hr : q = k2 -> r = 0) by nia.
    destruct (Z.compare_spec (2 * r) D) as [Heq | Hlt | Hgt].
    + destruct (Z.even q); lia.
    + lia.
    + lia.
Qed.

Lemma round2_between x k1 k2 :
  0 < k1 -> Binary64.is_finite x = true ->
  (inject_Z k1 <= 100 * Binary64.F2Q x)%Q ->
  (100 * Binary64.F2Q x <= inject_Z k2)%Q ->
  exists d, k1 <= d <= k2 /\ Binary64.round2 x = Binary64.decimal d 2.
Proof.
  intros Hk Hfin H1 H2.
  assert (Hk' : (0 < inject_Z k1)%Q).
  { change 0%Q with (inject_Z 0). rewrite <- Zlt_Qlt. exact Hk. }
  destruct x as [s | s | | s m e]; try discriminate.
  - cbn [Binary64.F2Q] in H1. lra.
  - destruct s.
    + exfalso. cbn [Binary64.F2Q cond_Zopp Z.opp] in H1.
      pose proof (dyadic_neg m e) as Hn. unfold dyadic in Hn.
      change (- Z.pos m) with (Z.neg m) in H1. lra.
    + assert (Hv : (dyadic (Z.pos m * 100) e == 100 * Binary64.F2Q (S754_finite false m e))%Q).
      { rewrite F2Q_dyadic. cbn [cond_Zopp]. unfold dyadic.
        rewrite inject_Z_mult. change (inject_Z 100) with 100%Q. ring. }
      rewrite <- Hv in H1, H2.
      pose proof (round_half_even_between (Z.pos m * 100) e k1 k2
                    ltac:(lia) H1 H2) as Hd.
      exists (Binary64.round_half_even (Z.pos m * 100) e). split; [exact Hd |].
      unfold Binary64.round2.
      destruct (Z.eqb_spec (Binary64.round_half_even (Z.pos m * 100) e) 0);
        [lia | reflexivity].
Qed.

Lemma bounded_between lo hi x :
  Binary64.is_finite lo = true -> Binary64.is_finite hi = true ->
  bounded_float (Binary64.F2Q lo) (Binary64.F2Q hi) x ->
  between lo hi x = true.
Proof.
  intros Hlo Hhi (_ & Hx & H1 & H2). unfold between, le. cbn [num_value].
  rewrite (float_value_finite lo Hlo), (float_value_finite hi Hhi),
    (float_value_finite x Hx). cbn [xle].
  apply andb_true_iff. split; apply negb_true_iff, Qltb_ge; assumption.
Qed.

Lemma hundredths_distance d :
  10 <= d <= 200 ->
  between (Binary64.decimal 1 1) (Binary64.decimal 20 1)
    (Binary64.decimal d 2) = true.
Proof.
  intros Hd. destruct (Z.eq_dec d 10) as [-> | Hne]; [vm_compute; reflexivity |].
  apply bounded_between; [reflexivity | reflexivity |].
  assert (Hlo : (Binary64.F2Q (Binary64.decimal 1 1) ==
                 3602879701896397 # 36028797018963968)%Q)
    by (vm_compute; reflexivity).
  assert (Hhi : (Binary64.F2Q (Binary64.decimal 20 1) == 2)%Q)
    by (vm_compute; reflexivity).
  eapply bounded_weaken;
    [apply (quotient_bounded d 100 (3602879701896397 # 36028797018963968) 2);
     try lia; try lra | rewrite Hlo; apply Qle_refl | rewrite Hhi; apply Qle_refl].
  - rep_dyadic 3602879701896397 (-55).
  - rep.
  - pose proof (inject_Z_bounds 11 d ltac:(lia)) as H.
    change (inject_Z 11) with 11%Q in H. change (inject_Z 100) with 100%Q. lra.
  - pose proof (inject_Z_bounds d 200 ltac:(lia)) as H.
    change (inject_Z 200) with 200%Q in H. change (inject_Z 100) with 100%Q. lra.
Qed.

Lemma hundredths_similarity s :
  75 <= s <= 95 ->
  between (Binary64.decimal 75 2) (Binary64.decimal 95 2)
    (Binary64.decimal s 2) = true.
Proof.
  intros Hs. destruct (Z.eq_dec s 95) as [-> | Hne]; [vm_compute; reflexivity |].
  apply bounded_between; [reflexivity | reflexivity |].
  assert (Hlo : (Binary64.F2Q (Binary64.decimal 75 2) == 3 # 4)%Q)
    by (vm_compute; reflexivity).
  assert (Hhi : (Binary64.F2Q (Binary64.decimal 95 2) ==
                 4278419646001971 # 4503599627370496)%Q)
    by (vm_compute; reflexivity).
  eapply bounded_weaken;
    [apply (quotient_bounded s 100 (3 # 4)
              (4278419646001971 # 4503599627370496));
     try lia; try lra | rewrite Hlo; apply Qle_refl | rewrite Hhi; apply Qle_refl].
  - rep.
  - rep_dyadic 4278419646001971 (-52).
  - pose proof (inject_Z_bounds 75 s ltac:(lia)) as H.
    change (inject_Z 75) with 75%Q in H. change (inject_Z 100) with 100%Q. lra.
  - pose proof (inject_Z_bounds s 94 ltac:(lia)) as H.
    change (inject_Z 94) with 94%Q in H. change (inject_Z 100) with 100%Q. lra.
Qed.

Lemma synthetic_comp_rounded now request i d c :
  draws_in_range d = true -> synthetic_comp now request i d = Ok c ->
  rounded_fields c.
Proof.
  intros Hd H.
  pose proof (draws_in_range_spec _ Hd) as (_ & _ & Hsim).
  pose proof (draws_in_range_rest _ Hd) as (Hdist & _ & _).
  apply between_bounds in Hsim; [| reflexivity | reflexivity].
  apply between_bounds in Hdist; [| reflexivity | reflexivity].
  destruct Hsim as [Hsf Hsim]. destruct Hdist as [Hdf Hdist].
  destruct tenth_value as [H10 _].
  assert (H20 : (Binary64.F2Q (Binary64.decimal 20 1) == 2)%Q)
    by (vm_compute; reflexivity).
  assert (H75 : (Binary64.F2Q (Binary64.decimal 75 2) == 3 # 4)%Q)
    by (vm_compute; reflexivity).
  assert (H95 : (Binary64.F2Q (Binary64.decimal 95 2) ==
                 4278419646001971 # 4503599627370496)%Q)
    by (vm_compute; reflexivity).
  rewrite H10, H20 in Hdist. rewrite H75, H95 in Hsim.
  destruct (round2_between (d_distance d) 10 200) as (dd & Hdd & Hdr);
    [lia | exact Hdf | change (inject_Z 10) with 10%Q; lra
     | change (inject_Z 200) with 200%Q; lra |].
  destruct (round2_between (d_similarity d) 75 95) as (ss & Hss & Hsr);
    [lia | exact Hsf | change (inject_Z 75) with 75%Q; lra
     | change (inject_Z 95) with 95%Q; lra |].
  unfold synthetic_comp in H.
  bind_as H price_factor Hpf. bind_as H price Hprice.
  bind_as H sold Hsold. bind_as H sqft_factor Hsqf.
  bind_as H area Harea. bind_as H z Hz. injection H as <-.
  unfold rounded_fields. cbn [distance similarity]. rewrite Hdr, Hsr.
  split; [apply hundredths_distance; exact Hdd |].
  split; [apply hundredths_similarity; exact Hss |].
  split; eauto.
Qed.

(** X11: rounding to two decimals keeps the distance and the similarity of
    every comparable within the ranges they are drawn from, [0.1, 2.0] and
    [0.75, 0.95]: each is the float of a decimal number with two places,
    from 0.10 to 2.00 and from 0.75 to 0.95. *)
Theorem comp_rounded_fields now rng request comps :
  (forall i, draws_in_range (rng i) = true) ->
  generate_synthetic_comps now rng request = Ok comps ->
  Forall rounded_fields comps.
Proof.
  intros Hd. apply generated_Forall.
  intros i c H. eapply synthetic_comp_rounded; eauto.
Qed.

Lemma comp_rounded_fields_witness :
  exists comps,
    generate_synthetic_comps 1700000000 varied_draws (small_request 3) =
      Ok comps /\
    Forall rounded_fields comps.
Proof.
  destruct (generate_synthetic_comps 1700000000 varied_draws (small_request 3))
    as [comps |] eqn:Hrun; [| vm_compute in Hrun; discriminate].
  exists comps. split; [reflexivity |].
  apply (comp_rounded_fields 1700000000 varied_draws (small_request 3) comps);
    [| exact Hrun].
  intros i. unfold varied_draws. destruct (Nat.even i); vm_compute; reflexivity.
Defined.

(** ** Addresses and order *)


Lemma for_range_map {A B} (f : A -> B) (g : nat -> B) (body : nat -> result A) :
  (forall i x, body i = Ok x -> f x = g i) ->
  forall count start l,
    for_range body start count = Ok l -> map f l = map g (seq start count).
Proof.
  intros Hbody. induction count as [| n IH]; intros start l H; cbn in H.
  - injection H as <-. reflexivity.
  - bind_as H x Hx. bind_as H xs Hxs. injection H as <-. cbn.
    f_equal; eauto.
Qed.

Lemma string_length_append (s t : string) :
  String.length (s ++ t) = (String.length s + String.length t)%nat.
Proof.
  induction s as [| a s IH]; [reflexivity |].
  change (S (String.length (s ++ t)) =
          S (String.length s + String.length t)).
  now rewrite IH.
Qed.

Lemma append_inv_tail (s1 s2 t : string) : s1 ++ t = s2 ++ t -> s1 = s2.
Proof.
  revert s2. induction s1 as [| a s1 IH]; intros [| b s2] H.
  - reflexivity.
  - apply (f_equal String.length) in H.
    rewrite !string_length_append in H. cbn [String.length] in H. lia.
  - apply (f_equal String.length) in H.
    rewrite !string_length_append in H. cbn [String.length] in H. lia.
  - change (String a (s1 ++ t) = String b (s2 ++ t)) in H.
    injection H as -> H. f_equal. apply IH. exact H.
Qed.

Lemma str_inj a b : str a = str b -> a = b.
Proof.
  unfold str. intros H.
  assert (Hnil : forall z, Z.to_int z <> Decimal.Pos Decimal.Nil /\
                           Z.to_int z <> Decimal.Neg Decimal.Nil).
  { intros [| p | p]; cbn; split; try discriminate;
      intros [= Hp]; exact (Unsigned.to_uint_nonnil p Hp). }
  apply (f_equal NilZero.int_of_string) in H.
  rewrite !NilZero.isi in H by apply Hnil.
  injection H as H. apply DecimalZ.to_int_inj. exact H.
Qed.

Lemma address_at_inj i j : address_at i = address_at j -> i = j.
Proof.
  unfold address_at. intros H. apply append_inv_tail, str_inj in H. lia.
Qed.


(** X12: the addresses of the returned comparables are "100 Demo Street",
    "110 Demo Street", and so on in steps of 10, one for each index below
    the requested count, and no two comparables share an address. *)
Theorem comp_addresses now rng request comps :
  generate_synthetic_comps now rng request = Ok comps ->
  map address comps ≡ₚ
    map address_at (seq 0 (Z.to_nat (cr_limit request))) /\
  NoDup (map address comps).
Proof.
  intros H. apply generated_comps in H. destruct H as (l & Hl & ->).
  assert (Hperm : map address (sorted_by_similarity l) ≡ₚ
                  map address_at (seq 0 (Z.to_nat (cr_limit request)))).
  { rewrite (sorted_by_similarity_perm l).
    erewrite (for_range_map address address_at); [reflexivity | | exact Hl].
    intros i c Hc. apply synthetic_comp_key in Hc. apply Hc. }
  split; [exact Hperm |].
  rewrite Hperm. apply NoDup_fmap_2; [| apply NoDup_seq].
  intros i j. apply address_at_inj.
Qed.

Lemma comp_addresses_witness :
  exists comps,
    generate_synthetic_comps 1700000000 varied_draws (small_request 3) =
      Ok comps /\
    NoDup (map address comps).
Proof.
  destruct (generate_synthetic_comps 1700000000 varied_draws (small_request 3))
    as [comps |] eqn:Hrun; [| vm_compute in Hrun; discriminate].
  exists comps. split; [reflexivity |].
  apply (comp_addresses 1700000000 varied_draws (small_request 3) comps Hrun).
Defined.

(** Stability of the sort. *)

Lemma xle_xlt_trans a b c :
  ordered a -> xlt b a = false -> xlt b c = true -> xlt a c = true.
Proof.
  destruct a as [| | p |], b as [| | q |], c as [| | r |]; cbn;
    try discriminate; try reflexivity; try contradiction.
  intros _ H1 H2. apply Qltb_ge in H1. apply Qltb_lt in H2. apply Qltb_lt.
  eapply Qle_lt_trans; eassumption.
Qed.

Lemma insert_by_similarity_filter (p : Comp -> bool) c l :
  (forall y, lt (PyFloat (similarity c)) (PyFloat (similarity y)) = true ->
             p c = true -> p y = false) ->
  List.filter p (insert_by_similarity c l) =
  if p c then c :: List.filter p l else List.filter p l.
Proof.
  intros Hskip. induction l as [| y l' IH]; cbn [insert_by_similarity].
  - cbn. destruct (p c); reflexivity.
  - destruct (lt _ _) eqn:Hlt.
    + cbn [List.filter]. rewrite IH.
      destruct (p c) eqn:Hc; [| reflexivity].
      rewrite (Hskip y Hlt eq_refl). reflexivity.
    + cbn [List.filter]. destruct (p c); reflexivity.
Qed.

Lemma sorted_by_similarity_stable c0 l :
  has_key c0 ->
  List.filter (same_similarity c0) (sorted_by_similarity l) =
  List.filter (same_similarity c0) l.
Proof.
  intros H0. induction l as [| c l' IH]; [reflexivity |].
  cbn [sorted_by_similarity fold_right]. fold (sorted_by_similarity l').
  rewrite insert_by_similarity_filter.
  - cbn [List.filter]. rewrite IH. reflexivity.
  - intros y Hlt Hc. unfold same_similarity in *.
    apply andb_true_iff in Hc. destruct Hc as [_ Hc].
    apply negb_true_iff in Hc. unfold lt in *. cbn [num_value] in *.
    rewrite (xle_xlt_trans _ _ _ H0 Hc Hlt). reflexivity.
Qed.

(** X13: the sort is stable: among the returned comparables, those with
    the same similarity as any given record (whose similarity is a number)
    appear in the order in which the loop generated them. *)
Theorem comp_order_stable now rng request comps l c0 :
  generate_synthetic_comps now rng request = Ok comps ->
  generated now rng request = Ok l ->
  has_key c0 ->
  List.filter (same_similarity c0) comps = List.filter (same_similarity c0) l.
Proof.
  intros H Hl H0. apply generated_comps in H. destruct H as (l' & Hl' & ->).
  rewrite Hl in Hl'. injection Hl' as <-.
  apply sorted_by_similarity_stable. exact H0.
Qed.

Lemma comp_order_stable_witness :
  exists comps l c0,
    generate_synthetic_comps 1700000000 varied_draws (small_request 3) =
      Ok comps /\
    generated 1700000000 varied_draws (small_request 3) = Ok l /\
    head l = Some c0 /\
    map address (List.filter (same_similarity c0) comps) =
      ["100 Demo Street"; "120 Demo Street"].
Proof.
  destruct (generate_synthetic_comps 1700000000 varied_draws (small_request 3))
    as [comps |] eqn:Hrun; [| vm_compute in Hrun; discriminate].
  destruct (generated 1700000000 varied_draws (small_request 3))
    as [l |] eqn:Hl; [| vm_compute in Hl; discriminate].
  destruct l as [| c0 l']; [vm_compute in Hl; discriminate |].
  exists comps, (c0 :: l'), c0.
  split; [reflexivity |]. split; [reflexivity |]. split; [reflexivity |].
  assert (H0 : has_key c0).
  { vm_compute in Hl. injection Hl as <- _. exact I. }
  rewrite (comp_order_stable _ _ _ _ _ c0 Hrun Hl H0).
  vm_compute in Hl. injection Hl as <- <-. vm_compute. reflexivity.
Defined.

(** * Loading the models *)

Lemma path_exists_lookup (disk : Disk) path :
  path_exists disk path = match disk !! path with Some _ => true | None => false end.
Proof.
  unfold path_exists. destruct (disk !! path); [| reflexivity].
  apply bool_decide_eq_true. eauto.
Qed.

Lemma load_models_startup_cases model_dir (disk : Disk) :
  load_models model_dir disk [] =
  match disk !! price_path model_dir, disk !! appreciation_path model_dir with
  | Some (Raise e), _ => ([], Some e)
  | Some (Ok m), Some (Ok m') =>
      ([("price_predictor", m); ("appreciation_model", m')], None)
  | Some (Ok m), Some (Raise e) => ([("price_predictor", m)], Some e)
  | Some (Ok m), None => ([("price_predictor", m)], None)
  | None, Some (Ok m') => ([("appreciation_model", m')], None)
  | None, Some (Raise e) => ([], Some e)
  | None, None => ([], None)
  end.
Proof.
  unfold load_models, load_models_body, joblib_load.
  rewrite !path_exists_lookup. fold (price_path model_dir).
  fold (appreciation_path model_dir).
  destruct (disk !! price_path model_dir) as [[m | e] |];
    destruct (disk !! appreciation_path model_dir) as [[m' | e'] |];
    reflexivity.
Qed.

(** X14: started on an empty dictionary, [load_models] never raises; it
    holds the price model exactly when its file is there and loads, and the
    appreciation model exactly when its file is there and loads and loading
    the price model did not raise: an exception of the first load leaves the
    second file unread.  The exception printed is the one of the first load
    that raised, and the health check lists the models in this order. *)
Theorem load_models_startup model_dir (disk : Disk) utcnow :
  let models := fst (load_models model_dir disk []) in
  let price := loaded disk (price_path model_dir) in
  let appreciation :=
    if fails disk (price_path model_dir) then None
    else loaded disk (appreciation_path model_dir) in
  lookups models !! "price_predictor" = price /\
  lookups models !! "appreciation_model" = appreciation /\
  h_models_loaded (health_check models utcnow) =
    (listed price "price_predictor" ++
     listed appreciation "appreciation_model")%list /\
  (snd (load_models model_dir disk []) = None <->
   fails disk (price_path model_dir) = false /\
   fails disk (appreciation_path model_dir) = false).
Proof.
  cbv zeta. rewrite load_models_startup_cases. unfold loaded, fails.
  destruct (disk !! price_path model_dir) as [[m | e] |];
    destruct (disk !! appreciation_path model_dir) as [[m' | e'] |];
    cbn [fst snd]; (split; [vm_compute; reflexivity |]);
    (split; [vm_compute; reflexivity |]); (split; [reflexivity |]);
    split; intros H; try discriminate; try (destruct H; discriminate);
    try reflexivity; split; reflexivity.
Qed.

(** X15: without a price model file, or with one that fails to load, the
    service starts and [predict_price] answers with the estimate by
    area. *)
Theorem predict_without_model_file model_dir (disk : Disk) current_year
    appreciation features :
  loaded disk (price_path model_dir) = None ->
  pr_predicted_price <$>
    predict_price (lookups (fst (load_models model_dir disk [])))
      current_year appreciation features =
  (fun _ => fallback_price features) <$>
    confidence_interval (fallback_price features).
Proof.
  intros Hnone.
  destruct (load_models_startup model_dir disk 0) as (Hprice & _).
  cbv zeta in Hprice. rewrite Hnone in Hprice.
  unfold predict_price.
  change (@lookup string (list num -> result Binary64.float))
    with (@lookup string Model).
  rewrite Hprice, bind_Ok_eq.
  destruct (confidence_interval (fallback_price features)); reflexivity.
Qed.

Lemma predict_without_model_file_witness :
  pr_predicted_price <$>
    predict_price (lookups (fst (load_models "models" ∅ [])))
      2024 (Binary64.decimal 5 0) townhouse =
  Ok 275275.
Proof.
  assert (Hnone : loaded (∅ : Disk) (price_path "models") = None)
    by (vm_compute; reflexivity).
  rewrite (predict_without_model_file "models" ∅ 2024 (Binary64.decimal 5 0)
             townhouse Hnone).
  vm_compute. reflexivity.
Defined.

(** * The training module and the serving layer *)

Section Files.
Import Training.
Context {Preprocessor Regressor Scaler : Type}.

Local Abbreviation Predictor := (PropertyPricePredictor Preprocessor Regressor).
Local Abbreviation Appreciation := (AppreciationPredictor Regressor Scaler).
Local Abbreviation Files := (FileSystem Preprocessor Regressor Scaler).

Lemma disk_of_lookup (fs : Files) path :
  disk_of fs !! path =
  match fs !! path with Some _ => Some (Ok a_dict) | None => None end.
Proof.
  transitivity ((fun _ : Artifact Preprocessor Regressor Scaler =>
                   (Ok a_dict : result Model)) <$> fs !! path).
  - unfold disk_of. apply (lookup_fmap (M := gmap string)).
  - destruct (fs !! path); reflexivity.
Qed.

Lemma save_lookup (self : Predictor) path (fs : Files) :
  save self path fs !! path =
  Some (PriceFile _ _ _ {| a_xgb_model := xgb_model self;
                           a_lgb_model := lgb_model self;
                           a_preprocessor := preprocessor self;
                           a_feature_names := feature_names self |}).
Proof. unfold save. apply (lookup_insert_eq (M := gmap string)). Qed.

Lemma ap_save_lookup (self : Appreciation) path (fs : Files) :
  ap_save (Preprocessor := Preprocessor) self path fs !! path =
  Some (AppreciationFile Preprocessor _ _
          {| a_model := model self; a_scaler := scaler self |}).
Proof. unfold ap_save. apply (lookup_insert_eq (M := gmap string)). Qed.

Lemma save_lookup_ne (self : Predictor) path other (fs : Files) :
  other <> path -> save self path fs !! other = fs !! other.
Proof.
  intros H. unfold save. apply (lookup_insert_ne (M := gmap string)).
  congruence.
Qed.

Lemma load_save (self : Predictor) path (fs : Files) :
  load (save self path fs) path = Ok (set_is_fitted _ _ true self).
Proof. unfold load, joblib_load. rewrite save_lookup. reflexivity. Qed.

Lemma served_dict model_dir (fs : Files) :
  is_Some (fs !! price_path model_dir) ->
  lookups (fst (load_models model_dir (disk_of fs) [])) !! "price_predictor" =
  Some a_dict.
Proof.
  intros [a Ha].
  destruct (load_models_startup model_dir (disk_of fs) 0) as (-> & _).
  unfold loaded. rewrite disk_of_lookup, Ha. reflexivity.
Qed.



End Files.

(** * Further properties of the predictors *)

Section Ensemble.
Import Training.

Context {DataFrame Series Matrix Preprocessor Regressor Scaler Metrics
         Table : Type}.
Context (engineer_features : DataFrame -> lib DataFrame)
  (train_test_split :
     DataFrame -> Series -> lib (DataFrame * DataFrame * Series * Series))
  (create_preprocessor : Preprocessor)
  (fit_transform : Preprocessor -> DataFrame -> lib (Preprocessor * Matrix))
  (transform : Preprocessor -> DataFrame -> lib Matrix)
  (feature_names_out : Preprocessor -> lib (list string))
  (new_xgb new_lgb : Regressor)
  (xgb_fit lgb_fit :
     Regressor -> Matrix -> Series -> Matrix -> Series -> lib Regressor)
  (regressor_predict : Regressor -> Matrix -> lib (list Binary64.float))
  (feature_importances : Regressor -> lib (list Binary64.float))
  (evaluate : Series -> list Binary64.float -> lib Metrics)
  (importance_table :
     list string -> list Binary64.float -> list Binary64.float ->
     list Binary64.float -> lib Table).

Local Abbreviation Predictor := (PropertyPricePredictor Preprocessor Regressor).
Local Abbreviation price_fit :=
  (fit engineer_features train_test_split create_preprocessor fit_transform
     transform feature_names_out new_xgb new_lgb xgb_fit lgb_fit
     regressor_predict evaluate).
Local Abbreviation price_predict :=
  (predict engineer_features transform regressor_predict).
Local Abbreviation importance :=
  (get_feature_importance feature_importances importance_table).

Ltac run_fit :=
  repeat match goal with
    | |- context [call ?c] => destruct c as [? | ?]; cbn
    | |- context [let '(_, _) := ?p in _] => destruct p; cbn
    end.

(** X18: [fit] is not atomic.  It never clears [is_fitted], so a call that
    raises leaves the flag as it was; but the attributes assigned before the
    exception stay assigned.  When the training of the XGBoost model fails,
    the predictor holds the new preprocessor and feature names, an untrained
    XGBoost model and the LightGBM model it had: a predictor that was fitted
    before is still marked as fitted. *)
Theorem fit_is_not_atomic X y (self : Predictor) :
  (returns (snd (price_fit X y self)) = false ->
   is_fitted (fst (price_fit X y self)) = is_fitted self) /\
  (forall X1 X_train X_test y_train y_test fitted train test names code,
      engineer_features X = inr X1 ->
      train_test_split X1 y = inr (X_train, X_test, y_train, y_test) ->
      fit_transform create_preprocessor X_train = inr (fitted, train) ->
      transform fitted X_test = inr test ->
      feature_names_out fitted = inr names ->
      xgb_fit new_xgb train y_train test y_test = inl code ->
      price_fit X y self =
      ({| xgb_model := Some new_xgb;
          lgb_model := lgb_model self;
          preprocessor := Some fitted;
          feature_names := Some (numeric_features ++ names)%list;
          is_fitted := is_fitted self |},
       Raise (LibraryError code))).
Proof.
  split.
  - unfold fit. cbv [mbind method_bind mret method_ret lift assign].
    run_fit; intros H; try discriminate H; reflexivity.
  - intros X1 X_train X_test y_train y_test fitted train test names code
      H1 H2 H3 H4 H5 H6.
    unfold fit. cbv [mbind method_bind mret method_ret lift assign].
    rewrite H1. cbn. rewrite H2. cbn. rewrite H3. cbn. rewrite H4. cbn.
    rewrite H5. cbn. rewrite H6. cbn. reflexivity.
Qed.

(** X19: a predictor that was never fitted, saved and loaded again, passes
    the fitted guard: [predict] then fails with [AttributeError] on the
    preprocessor that is [None] (after the feature engineering, whose
    failure comes first), and [get_feature_importance] with
    [AttributeError] on the model that is [None]. *)
Theorem unfitted_after_load (fs : FileSystem Preprocessor Regressor Scaler)
    path X return_confidence :
  exists loaded_predictor : Predictor,
    load (save init path fs) path = Ok loaded_predictor /\
    is_fitted loaded_predictor = true /\
    price_predict loaded_predictor X return_confidence =
      match engineer_features X with
      | inl code => Raise (LibraryError code)
      | inr _ => Raise AttributeError
      end /\
    importance loaded_predictor = Raise AttributeError.
Proof.
  exists (set_is_fitted _ _ true init). split.
  - apply load_save.
  - split; [reflexivity |]. split; [| reflexivity].
    unfold predict. cbn. destruct (engineer_features X); reflexivity.
Qed.

End Ensemble.
